(** * Training-loop orchestration of eminorhan/dae

    A shallow embedding of the two training drivers
    [train_recognition.py] (end-to-end, distributed-data-parallel) and
    [train_recognition_noncached.py] (frozen encoder + trainable
    classifier), and the properties of their control loops: gradient
    accumulation, evaluation cadence, fail-fast on a non-finite loss,
    best-score checkpointing, resumption, and the evaluation runner.

    The numeric kernels (forward pass, criterion, accuracy) are supplied by
    the framework; they are the methods of a type class here.  Parameter values are
    kept symbolically, as the sequence of optimizer updates applied to them,
    each update being the list of per-batch gradient contributions it
    consumed.  Python floats are idealised as exact rationals extended with
    the three non-finite values. *)

From Stdlib Require Import ZArith QArith Lia.
From stdpp Require Import base option list strings gmap.

Open Scope Z_scope.

(** ** Python floats *)

Inductive pyfloat := Fin (q : Q) | PInf | NInf | NaN.

(** [math.isfinite] *)
Definition isfinite (x : pyfloat) : bool :=
  match x with Fin _ => true | _ => false end.

Definition Qltb (a b : Q) : bool := Qnum a * QDen b <? Qnum b * QDen a.

(** [x > y] on floats: every comparison with NaN is false. *)
Definition float_gt (x y : pyfloat) : bool :=
  match x, y with
  | NaN, _ | _, NaN => false
  | Fin a, Fin b => Qltb b a
  | Fin _, NInf => true
  | Fin _, PInf => false
  | PInf, PInf => false
  | PInf, _ => true
  | NInf, _ => false
  end.

(** [x <= y] on floats. *)
Definition float_le (x y : pyfloat) : bool :=
  match x, y with
  | NaN, _ | _, NaN => false
  | Fin a, Fin b => negb (Qltb b a)
  | NInf, _ => true
  | _, PInf => true
  | _, _ => false
  end.

Definition float_add (x y : pyfloat) : pyfloat :=
  match x, y with
  | NaN, _ | _, NaN => NaN
  | Fin a, Fin b => Fin (a + b)
  | PInf, NInf | NInf, PInf => NaN
  | PInf, _ | _, PInf => PInf
  | NInf, _ | _, NInf => NInf
  end.

(** [value * n] for an integer weight [n]. *)
Definition float_mul_int (x : pyfloat) (n : Z) : pyfloat :=
  match x with
  | Fin a => Fin (a * inject_Z n)
  | NaN => NaN
  | PInf => if n =? 0 then NaN else if 0 <? n then PInf else NInf
  | NInf => if n =? 0 then NaN else if 0 <? n then NInf else PInf
  end.

(** [total / count] for a non-zero integer [count]. *)
Definition float_div_int (x : pyfloat) (n : Z) : pyfloat :=
  match x with
  | Fin a => Fin (a / inject_Z n)
  | NaN => NaN
  | PInf => if 0 <? n then PInf else NInf
  | NInf => if 0 <? n then NInf else PInf
  end.

(** Equality of float values (rationals up to their fraction). *)
Definition float_eq (x y : pyfloat) : Prop :=
  match x, y with
  | Fin a, Fin b => (a == b)%Q
  | PInf, PInf | NInf, NInf | NaN, NaN => True
  | _, _ => False
  end.

(** ** Exceptions, results and the state-and-error monad *)

Inductive exn :=
| ZeroDivisionError
| KeyError (k : string)
| AttributeError (k : string)
| FileNotFoundError (path : string)
| RuntimeError (msg : string).

Inductive result (A : Type) :=
| Val (a : A)
| SysExit (code : Z)
| Raised (e : exn).
Arguments Val {A} a.
Arguments SysExit {A} code.
Arguments Raised {A} e.

Definition M (S A : Type) : Type := S -> result A * S.

Definition ret {S A} (a : A) : M S A := fun s => (Val a, s).

Definition bind {S A B} (m : M S A) (f : A -> M S B) : M S B :=
  fun s =>
    match m s with
    | (Val a, s') => f a s'
    | (SysExit c, s') => (SysExit c, s')
    | (Raised e, s') => (Raised e, s')
    end.

Definition raise {S A} (e : exn) : M S A := fun s => (Raised e, s).

(** [sys.exit(code)] *)
Definition sys_exit {S A} (code : Z) : M S A := fun s => (SysExit code, s).

Definition gets {S A} (f : S -> A) : M S A := fun s => (Val (f s), s).
Definition modify {S} (f : S -> S) : M S unit := fun s => (Val tt, f s).

Declare Scope py_scope.
Delimit Scope py_scope with py.
Notation "'let!' x ':=' m 'in' k" := (bind m (fun x => k))
  (at level 10, x name, m at level 100, k at level 200) : py_scope.
Notation "m '>>' k" := (bind m (fun _ => k))
  (at level 98, right associativity) : py_scope.
Open Scope py_scope.

(** [a % b] on Python ints: floor modulo, [ZeroDivisionError] when [b = 0]. *)
Definition py_mod {S} (a b : Z) : M S Z :=
  if b =? 0 then raise ZeroDivisionError else ret (a `mod` b).

(** [d[k]] on a dict. *)
Definition dict_get {S A} (k : string) (d : gmap string A) : M S A :=
  match d !! k with
  | Some v => ret v
  | None => raise (KeyError k)
  end.

(** [for i, x in enumerate(xs, start): body] *)
Fixpoint for_enumerate {S A} (body : Z -> A -> M S unit) (start : Z)
    (xs : list A) : M S unit :=
  match xs with
  | [] => ret tt
  | x :: xs' => body start x >> for_enumerate body (start + 1) xs'
  end.

(** ** Metric aggregator *)

(** Modelled from the spec: [util.misc.SmoothedValue] is not among the
    sources.  A meter keeps the sum of the weights and the sum of
    value * weight of the observations since it was created. *)
Record meter := { count : Z; total : pyfloat }.

Definition new_meter : meter := {| count := 0; total := Fin 0 |}.

(** Modelled from the spec: [update(name, value, weight=1)] records a
    weighted observation. *)
Definition meter_update (value : pyfloat) (n : Z) (m : meter) : meter :=
  {| count := count m + n;
     total := float_add (total m) (float_mul_int value n) |}.

(** [metric_logger.meters[name].update(value, n=n)]: the meters are created
    on first use. *)
Definition meters_update (name : string) (value : pyfloat) (n : Z)
    (ml : gmap string meter) : gmap string meter :=
  <[name := meter_update value n (default new_meter (ml !! name))]> ml.

(** Modelled from the spec: [metric_logger.update(name=value)] records the
    observation with the default weight 1. *)
Definition logger_update (name : string) (value : pyfloat)
    (ml : gmap string meter) : gmap string meter :=
  meters_update name value 1 ml.

(** Modelled from the spec: [global_avg] is the weight-normalised running
    mean, sum(v*w)/sum(w); it is undefined before the first update. *)
Definition global_avg (m : meter) : option pyfloat :=
  if count m =? 0 then None else Some (float_div_int (total m) (count m)).

(** [metric_logger.<name>.global_avg]: reading a metric that was never
    updated is an error. *)
Definition logger_read {S} (name : string) (ml : gmap string meter)
    : M S pyfloat :=
  match ml !! name with
  | None => raise (AttributeError name)
  | Some m =>
      match global_avg m with
      | None => raise ZeroDivisionError
      | Some v => ret v
      end
  end.

(** [{k: meter.global_avg for k, meter in metric_logger.meters.items()}] *)
Definition global_avgs {S} (ml : gmap string meter)
    : M S (gmap string pyfloat) :=
  if decide (map_Forall (fun _ m => count m <> 0) ml)
  then ret (omap global_avg ml)
  else raise ZeroDivisionError.

(** Modelled from the spec: [synchronize_between_processes] reduces counts
    and totals over the process group; the embedding follows one process
    of a group of size one, where the reduction returns the local sums. *)
Definition synchronize_between_processes (ml : gmap string meter)
    : gmap string meter := ml.

(** The batch-size-weighted mean of a list of (value, weight) pairs, in
    the order the observations are made. *)
Definition weighted_sum (obs : list (pyfloat * Z)) : pyfloat :=
  fold_left (fun acc o => float_add acc (float_mul_int (fst o) (snd o)))
            obs (Fin 0).
Definition weight_sum (obs : list (pyfloat * Z)) : Z :=
  fold_left (fun acc o => acc + snd o) obs 0.
Definition weighted_mean (obs : list (pyfloat * Z)) : option pyfloat :=
  if weight_sum obs =? 0 then None
  else Some (float_div_int (weighted_sum obs) (weight_sum obs)).

(** ** Modules, autograd and the optimizer *)

Inductive module_id := ModelId | EncoderId.

(** The gradient of the loss of batch [c_it], divided by [c_div]. *)
Record contribution := { c_it : option Z; c_div : Z }.

(** A module: its mode flag, its parameters (symbolically, the sequence of
    updates applied so far), the [.grad] of its parameters ([None] after
    [zero_grad]), and its non-parameter state (running statistics, dropout
    generator), which a training-mode forward pass may change. *)
Record nn_module := {
  training : bool;
  weights : list (list contribution);
  grad : option (list contribution);
  buffers : Z
}.

(** A tensor with the modules whose parameters its autograd graph reaches. *)
Record tensor := { data : list Z; leaves : list module_id }.

(** A scalar loss: its value, its graph and the divisor applied to it. *)
Record loss_t := { value : pyfloat; l_leaves : list module_id; l_div : Z }.

Record batch := { samples : list Z; targets : list Z }.

(** The numeric kernels of the framework and of [tae]. *)
Class Kernels := {
  (** [model(x)]: mode, parameters, buffers, input to output, buffers *)
  forward : bool -> list (list contribution) -> Z -> list Z -> list Z * Z;
  (** [encoder.forward_encoder(x)] *)
  forward_encoder :
    bool -> list (list contribution) -> Z -> list Z -> list Z * Z;
  (** [torch.nn.CrossEntropyLoss()(outputs, targets).item()] *)
  criterion : list Z -> list Z -> pyfloat;
  (** [misc.accuracy(outputs, targets, topk=(1, 5))] *)
  accuracy : list Z -> list Z -> pyfloat * pyfloat
}.

(** [tae.__dict__[name]()]: a freshly constructed module is in training
    mode and has no gradients. *)
Definition fresh_module : nn_module :=
  {| training := true; weights := []; grad := None; buffers := 0 |}.

Definition set_training (b : bool) (m : nn_module) : nn_module :=
  {| training := b; weights := weights m; grad := grad m;
     buffers := buffers m |}.
Definition set_buffers (b : Z) (m : nn_module) : nn_module :=
  {| training := training m; weights := weights m; grad := grad m;
     buffers := b |}.
Definition set_grad (g : option (list contribution)) (m : nn_module)
    : nn_module :=
  {| training := training m; weights := weights m; grad := g;
     buffers := buffers m |}.

(** [loss.backward()] reaching this module: gradients accumulate. *)
Definition accumulate (c : contribution) (m : nn_module) : nn_module :=
  set_grad (Some (default [] (grad m) ++ [c])) m.

(** [optimizer.step()] on the parameters of this module: parameters
    without a gradient are skipped. *)
Definition apply_step (m : nn_module) : nn_module :=
  match grad m with
  | None => m
  | Some g =>
      {| training := training m; weights := weights m ++ [g];
         grad := grad m; buffers := buffers m |}
  end.

(** [m.load_state_dict(sd)] *)
Definition load_state_dict (sd : list (list contribution) * Z)
    (m : nn_module) : nn_module :=
  {| training := training m; weights := fst sd; grad := grad m;
     buffers := snd sd |}.

(** ** Checkpoints, log records, events *)

(** The saved bundle; its ['args'] entry, the run configuration, is
    constant during a run and is never read back by the drivers. *)
Record checkpoint := {
  ck_model : list (list contribution) * Z;
  ck_optimizer : Z;
  ck_iteration : Z;
  ck_scaler : Z
}.

Record log_record := {
  lr_train : gmap string pyfloat;
  lr_eval_loss : pyfloat;
  lr_iteration : Z
}.

Inductive message :=
| MsgLossStopping (loss_value : pyfloat)
| MsgEvaluating
| MsgSaving
| MsgAcc (acc1 acc5 loss : pyfloat).

(** Calls into the framework, in program order. *)
Inductive event :=
| EvForward (m : module_id) (mode grad_mode : bool)
| EvBackward
| EvOptStep
| EvZeroGrad
| EvMetricUpdate (v : pyfloat)
| EvPrint (msg : message)
| EvEvaluate
| EvSave (path : string) (acc1 : pyfloat)
| EvLog
| EvTrainMode.

(** ** The process state *)

Record world := {
  model : nn_module;
  encoder : option nn_module;
  param_groups : list module_id;
  opt_steps : Z;
  scaler_state : Z;
  grad_enabled : bool;
  metric_logger : gmap string meter;
  best_eval_acc1 : pyfloat;
  it : option Z;
  checkpoints : gmap string checkpoint;
  log_file : list log_record;
  trace : list (option Z * event)
}.

Definition set_model (f : nn_module -> nn_module) (w : world) : world :=
  Build_world (f (model w)) (encoder w) (param_groups w) (opt_steps w)
    (scaler_state w) (grad_enabled w) (metric_logger w) (best_eval_acc1 w)
    (it w) (checkpoints w) (log_file w) (trace w).
Definition set_encoder (f : option nn_module -> option nn_module)
    (w : world) : world :=
  Build_world (model w) (f (encoder w)) (param_groups w) (opt_steps w)
    (scaler_state w) (grad_enabled w) (metric_logger w) (best_eval_acc1 w)
    (it w) (checkpoints w) (log_file w) (trace w).
Definition set_param_groups (g : list module_id) (w : world) : world :=
  Build_world (model w) (encoder w) g (opt_steps w)
    (scaler_state w) (grad_enabled w) (metric_logger w) (best_eval_acc1 w)
    (it w) (checkpoints w) (log_file w) (trace w).
Definition set_opt_steps (f : Z -> Z) (w : world) : world :=
  Build_world (model w) (encoder w) (param_groups w) (f (opt_steps w))
    (scaler_state w) (grad_enabled w) (metric_logger w) (best_eval_acc1 w)
    (it w) (checkpoints w) (log_file w) (trace w).
Definition set_scaler_state (f : Z -> Z) (w : world) : world :=
  Build_world (model w) (encoder w) (param_groups w) (opt_steps w)
    (f (scaler_state w)) (grad_enabled w) (metric_logger w)
    (best_eval_acc1 w) (it w) (checkpoints w) (log_file w) (trace w).
Definition set_grad_enabled (b : bool) (w : world) : world :=
  Build_world (model w) (encoder w) (param_groups w) (opt_steps w)
    (scaler_state w) b (metric_logger w) (best_eval_acc1 w)
    (it w) (checkpoints w) (log_file w) (trace w).
Definition set_metric_logger
    (f : gmap string meter -> gmap string meter) (w : world) : world :=
  Build_world (model w) (encoder w) (param_groups w) (opt_steps w)
    (scaler_state w) (grad_enabled w) (f (metric_logger w))
    (best_eval_acc1 w) (it w) (checkpoints w) (log_file w) (trace w).
Definition set_best_eval_acc1 (x : pyfloat) (w : world) : world :=
  Build_world (model w) (encoder w) (param_groups w) (opt_steps w)
    (scaler_state w) (grad_enabled w) (metric_logger w) x
    (it w) (checkpoints w) (log_file w) (trace w).
Definition set_it (i : option Z) (w : world) : world :=
  Build_world (model w) (encoder w) (param_groups w) (opt_steps w)
    (scaler_state w) (grad_enabled w) (metric_logger w) (best_eval_acc1 w)
    i (checkpoints w) (log_file w) (trace w).
Definition set_checkpoints
    (f : gmap string checkpoint -> gmap string checkpoint) (w : world)
    : world :=
  Build_world (model w) (encoder w) (param_groups w) (opt_steps w)
    (scaler_state w) (grad_enabled w) (metric_logger w) (best_eval_acc1 w)
    (it w) (f (checkpoints w)) (log_file w) (trace w).
Definition set_log_file (f : list log_record -> list log_record)
    (w : world) : world :=
  Build_world (model w) (encoder w) (param_groups w) (opt_steps w)
    (scaler_state w) (grad_enabled w) (metric_logger w) (best_eval_acc1 w)
    (it w) (checkpoints w) (f (log_file w)) (trace w).
Definition set_trace
    (f : list (option Z * event) -> list (option Z * event))
    (w : world) : world :=
  Build_world (model w) (encoder w) (param_groups w) (opt_steps w)
    (scaler_state w) (grad_enabled w) (metric_logger w) (best_eval_acc1 w)
    (it w) (checkpoints w) (log_file w) (f (trace w)).

(** The interpreter state a driver starts from: only the files matter. *)
Definition init_world (fs : gmap string checkpoint) : world :=
  {| model := fresh_module; encoder := None; param_groups := [];
     opt_steps := 0; scaler_state := 0; grad_enabled := true;
     metric_logger := ∅; best_eval_acc1 := Fin 0; it := None;
     checkpoints := fs; log_file := []; trace := [] |}.

(** Record a call, stamped with the current value of [it] ([None] while
    the variable is unbound, before the loop). *)
Definition emit (e : event) : M world unit :=
  modify (fun w => set_trace (fun t => t ++ [(it w, e)]) w).

Definition update_module (id : module_id) (f : nn_module -> nn_module)
    (w : world) : world :=
  match id with
  | ModelId => set_model f w
  | EncoderId => set_encoder (fmap f) w
  end.

(** [model.train()] and [model.eval()]; the wrapped and the unwrapped model
    of the distributed driver are the same module. *)
Definition model_train : M world unit :=
  modify (set_model (set_training true)) >> emit EvTrainMode.
Definition model_eval : M world unit :=
  modify (set_model (set_training false)).

(** [with torch.no_grad(): body]; the previous mode is restored on every
    exit from the block. *)
Definition no_grad {A} (body : M world A) : M world A :=
  fun w =>
    let (r, w') := body (set_grad_enabled false w) in
    (r, set_grad_enabled (grad_enabled w) w').

Section Ops.
Context `{K : Kernels}.

(** [model(x)] *)
Definition model_call (x : tensor) : M world tensor :=
  let! m := gets model in
  let! g := gets grad_enabled in
  let (y, b) := forward (training m) (weights m) (buffers m) (data x) in
  emit (EvForward ModelId (training m) g) >>
  modify (set_model (set_buffers b)) >>
  ret {| data := y; leaves := (if g then [ModelId] else []) ++ leaves x |}.

(** [encoder.forward_encoder(x)] *)
Definition encoder_call (x : tensor) : M world tensor :=
  let! oe := gets encoder in
  match oe with
  | None => raise (AttributeError "encoder")
  | Some m =>
      let! g := gets grad_enabled in
      let (y, b) :=
        forward_encoder (training m) (weights m) (buffers m) (data x) in
      emit (EvForward EncoderId (training m) g) >>
      modify (set_encoder (fmap (set_buffers b))) >>
      ret {| data := y;
             leaves := (if g then [EncoderId] else []) ++ leaves x |}
  end.

(** [criterion(outputs, targets)] *)
Definition criterion_call (outputs : tensor) (tg : list Z) : loss_t :=
  {| value := criterion (data outputs) tg; l_leaves := leaves outputs;
     l_div := 1 |}.

End Ops.

(** [loss / n] *)
Definition loss_div (l : loss_t) (n : Z) : loss_t :=
  {| value := value l; l_leaves := l_leaves l; l_div := n |}.

(** [loss.backward()]: a loss without a graph cannot be differentiated. *)
Definition backward (l : loss_t) : M world unit :=
  match l_leaves l with
  | [] => raise (RuntimeError "does not require grad")
  | ids =>
      emit EvBackward >>
      modify (fun w =>
        fold_right
          (fun id => update_module id
             (accumulate {| c_it := it w; c_div := l_div l |})) w ids)
  end.

(** [optimizer.step()], with the scaler's own update. *)
Definition optimizer_step : M world unit :=
  emit EvOptStep >>
  modify (fun w =>
    fold_right (fun id => update_module id apply_step) w (param_groups w)) >>
  modify (set_opt_steps (Z.add 1)) >>
  modify (set_scaler_state (Z.add 1)).

(** [optimizer.zero_grad()] *)
Definition optimizer_zero_grad : M world unit :=
  emit EvZeroGrad >>
  modify (fun w =>
    fold_right (fun id => update_module id (set_grad None)) w
               (param_groups w)).

(** Modelled from the spec: [util.misc.NativeScalerWithGradNormCount] is
    not among the sources.  Given the loss already divided by
    [accum_iter], it runs the backward pass and performs the optimizer
    step plus the scaler update only when [update_grad]. *)
Definition loss_scaler_call (l : loss_t) (update_grad : bool)
    : M world unit :=
  backward l >> (if update_grad then optimizer_step else ret tt).

(** [os.path.join(a, b)] *)
Definition os_path_join (a b : string) : string :=
  if String.prefix "/" b then b
  else if String.eqb a "" then b
  else if String.eqb
            (String.substring (String.length a - 1)%nat 1%nat a) "/"
       then a +:+ b
       else a +:+ "/" +:+ b.

(** Modelled from the spec: [util.misc.save_on_master] writes the bundle
    at the path, replacing what was there, on the coordinating process
    only. *)
Definition save_on_master (is_main : bool) (ck : checkpoint)
    (path : string) : M world unit :=
  if is_main then modify (set_checkpoints (insert path ck)) else ret tt.

(** Modelled from the spec: [util.misc.load_model] is not among the
    sources.  With no path configured nothing is loaded; a missing file
    is an error; otherwise the module's state, and the optimizer and
    scaler state when they are passed, are restored, and the bundle is
    returned. *)
Definition load_model (path : string) (id : module_id) (with_opt : bool)
    : M world (option checkpoint) :=
  if String.eqb path "" then ret None
  else
    let! fs := gets checkpoints in
    match fs !! path with
    | None => raise (FileNotFoundError path)
    | Some ck =>
        modify (update_module id (load_state_dict (ck_model ck))) >>
        (if with_opt
         then modify (set_opt_steps (fun _ => ck_optimizer ck)) >>
              modify (set_scaler_state (fun _ => ck_scaler ck))
         else ret tt) >>
        ret (Some ck)
    end.

(** [metric_logger.<name>]: a metric that was never updated is absent. *)
Definition logger_attr {S} (name : string) (ml : gmap string meter)
    : M S meter :=
  match ml !! name with
  | None => raise (AttributeError name)
  | Some m => ret m
  end.

(** [meter.global_avg] where the value is needed *)
Definition read_global_avg {S} (m : meter) : M S pyfloat :=
  match global_avg m with
  | None => raise ZeroDivisionError
  | Some v => ret v
  end.

(** [misc.MetricLogger.__str__]-free summary line of [evaluate] *)
Definition print_summary (ml : gmap string meter) : M world unit :=
  let! top1 := logger_attr "acc1" ml in
  let! top5 := logger_attr "acc5" ml in
  let! losses := logger_attr "loss" ml in
  let! a1 := read_global_avg top1 in
  let! a5 := read_global_avg top5 in
  let! l := read_global_avg losses in
  emit (EvPrint (MsgAcc a1 a5 l)).

(** The bundle [save_dict] built in the evaluation phase. *)
Definition make_save_dict (i : Z) (w : world) : checkpoint :=
  {| ck_model := (weights (model w), buffers (model w));
     ck_optimizer := opt_steps w;
     ck_iteration := i;
     ck_scaler := scaler_state w |}.

(** The log line: [train_<k>] for every training metric, the evaluation
    loss and the iteration. *)
Definition make_log_stats (train_stats : gmap string pyfloat)
    (eval_loss : pyfloat) (i : Z) : log_record :=
  {| lr_train := kmap (String.append "train_") train_stats;
     lr_eval_loss := eval_loss;
     lr_iteration := i |}.

(** ** [train_recognition.py] *)

Module Cached.

Record args := {
  accum_iter : Z;
  save_freq : Z;
  save_prefix : string;
  output_dir : string;
  resume : string
}.

(** What the environment supplies: the finite validation stream and the
    rank of the process. *)
Record env := { val_loader : list batch; is_main_process : bool }.

Definition checkpoint_path (a : args) : string :=
  os_path_join (output_dir a) (save_prefix a +:+ "_checkpoint.pth").

Section Driver.
Context `{K : Kernels}.

(** One turn of the loop of [evaluate]. *)
Definition evaluate_batch (b : batch) (ml : gmap string meter)
    : M world (gmap string meter) :=
  let samples := {| data := samples b; leaves := [] |} in
  let! outputs := model_call samples in
  let loss := criterion_call outputs (targets b) in
  let (acc1, acc5) := accuracy (data outputs) (targets b) in
  let batch_size := Z.of_nat (length (data samples)) in
  let ml := logger_update "loss" (value loss) ml in
  let ml := meters_update "acc1" acc1 batch_size ml in
  let ml := meters_update "acc5" acc5 batch_size ml in
  ret ml.

Fixpoint evaluate_loop (bs : list batch) (ml : gmap string meter)
    : M world (gmap string meter) :=
  match bs with
  | [] => ret ml
  | b :: bs' => let! ml' := evaluate_batch b ml in evaluate_loop bs' ml'
  end.

(** [evaluate(data_loader, model, device)], under [@torch.no_grad()] *)
Definition evaluate (data_loader : list batch)
    : M world (gmap string pyfloat) :=
  emit EvEvaluate >>
  no_grad (
    model_eval >>
    let! ml := evaluate_loop data_loader ∅ in
    let ml := synchronize_between_processes ml in
    print_summary ml >>
    global_avgs ml).

(** The evaluation/checkpoint phase of [main]: the body of
    [if it != 0 and it % args.save_freq == 0]. *)
Definition eval_phase (a : args) (e : env) (i : Z) : M world unit :=
  emit (EvPrint MsgEvaluating) >>
  let! test_stats := evaluate (val_loader e) in
  let! acc1 := dict_get "acc1" test_stats in
  let! best := gets best_eval_acc1 in
  (if float_gt acc1 best then
     emit (EvPrint MsgSaving) >>
     let! save_dict := gets (make_save_dict i) in
     emit (EvSave (checkpoint_path a) acc1) >>
     save_on_master (is_main_process e) save_dict (checkpoint_path a) >>
     let! acc1' := dict_get "acc1" test_stats in
     modify (set_best_eval_acc1 acc1')
   else ret tt) >>
  modify (set_metric_logger synchronize_between_processes) >>
  let! ml := gets metric_logger in
  let! train_stats := global_avgs ml in
  let! eval_loss := dict_get "loss" test_stats in
  let log_stats := make_log_stats train_stats eval_loss i in
  (if is_main_process e
   then emit EvLog >> modify (set_log_file (fun l => l ++ [log_stats]))
   else ret tt) >>
  modify (set_metric_logger (fun _ => ∅)) >>
  model_train.

(** The body of the training loop of [main]. *)
Definition train_step (a : args) (e : env) (i : Z) (b : batch)
    : M world unit :=
  modify (set_it (Some i)) >>
  let samples := {| data := samples b; leaves := [] |} in
  let! outputs := model_call samples in
  let loss := criterion_call outputs (targets b) in
  let loss_value := value loss in
  if negb (isfinite loss_value) then
    emit (EvPrint (MsgLossStopping loss_value)) >>
    sys_exit 1
  else
    let loss := loss_div loss (accum_iter a) in
    let! r := py_mod (i + 1) (accum_iter a) in
    loss_scaler_call loss (r =? 0) >>
    let! r' := py_mod (i + 1) (accum_iter a) in
    (if r' =? 0 then optimizer_zero_grad else ret tt) >>
    emit (EvMetricUpdate loss_value) >>
    modify (set_metric_logger (logger_update "loss" loss_value)) >>
    if negb (i =? 0) then
      let! s := py_mod i (save_freq a) in
      if s =? 0 then eval_phase a e i else ret tt
    else ret tt.

(** [main(args)], run on a finite prefix of the training stream. *)
Definition main (a : args) (e : env) (train_loader : list batch)
    : M world unit :=
  modify (set_model (fun _ => fresh_module)) >>
  modify (set_param_groups [ModelId]) >>
  modify (set_opt_steps (fun _ => 0)) >>
  modify (set_scaler_state (fun _ => 0)) >>
  load_model (resume a) ModelId true >>
  model_train >>
  modify (set_metric_logger (fun _ => ∅)) >>
  optimizer_zero_grad >>
  modify (set_best_eval_acc1 (Fin 0)) >>
  for_enumerate (train_step a e) 0 train_loader.

End Driver.
End Cached.

(** ** [train_recognition_noncached.py] *)

Module Noncached.

Record args := {
  accum_iter : Z;
  save_freq : Z;
  save_prefix : string;
  output_dir : string;
  model_ckpt : string;
  encoder_ckpt : string
}.

Record env := { val_loader : list batch; is_main_process : bool }.

Definition checkpoint_path (a : args) : string :=
  os_path_join (output_dir a) (save_prefix a +:+ "_checkpoint.pth").

Section Driver.
Context `{K : Kernels}.

(** One turn of the loop of [evaluate]: the forward pass and the loss are
    computed twice. *)
Definition evaluate_batch (b : batch) (ml : gmap string meter)
    : M world (gmap string meter) :=
  let samples := {| data := samples b; leaves := [] |} in
  let! samples := encoder_call samples in
  let! outputs := model_call samples in
  let loss := criterion_call outputs (targets b) in
  let! outputs := model_call samples in
  let loss := criterion_call outputs (targets b) in
  let (acc1, acc5) := accuracy (data outputs) (targets b) in
  let bsize := Z.of_nat (length (data samples)) in
  let ml := logger_update "loss" (value loss) ml in
  let ml := meters_update "acc1" acc1 bsize ml in
  let ml := meters_update "acc5" acc5 bsize ml in
  ret ml.

Fixpoint evaluate_loop (bs : list batch) (ml : gmap string meter)
    : M world (gmap string meter) :=
  match bs with
  | [] => ret ml
  | b :: bs' => let! ml' := evaluate_batch b ml in evaluate_loop bs' ml'
  end.

(** [evaluate(val_loader, model, encoder, device_model, device_encoder)],
    under [@torch.no_grad()] *)
Definition evaluate (val_loader : list batch)
    : M world (gmap string pyfloat) :=
  emit EvEvaluate >>
  no_grad (
    model_eval >>
    let! ml := evaluate_loop val_loader ∅ in
    let ml := synchronize_between_processes ml in
    print_summary ml >>
    global_avgs ml).

(** The evaluation function as the specification wants it written: the
    forward pass and the loss are computed once per batch. *)
Definition evaluate_batch_once (b : batch) (ml : gmap string meter)
    : M world (gmap string meter) :=
  let samples := {| data := samples b; leaves := [] |} in
  let! samples := encoder_call samples in
  let! outputs := model_call samples in
  let loss := criterion_call outputs (targets b) in
  let (acc1, acc5) := accuracy (data outputs) (targets b) in
  let bsize := Z.of_nat (length (data samples)) in
  let ml := logger_update "loss" (value loss) ml in
  let ml := meters_update "acc1" acc1 bsize ml in
  let ml := meters_update "acc5" acc5 bsize ml in
  ret ml.

Fixpoint evaluate_loop_once (bs : list batch) (ml : gmap string meter)
    : M world (gmap string meter) :=
  match bs with
  | [] => ret ml
  | b :: bs' =>
      let! ml' := evaluate_batch_once b ml in evaluate_loop_once bs' ml'
  end.

Definition evaluate_once (val_loader : list batch)
    : M world (gmap string pyfloat) :=
  emit EvEvaluate >>
  no_grad (
    model_eval >>
    let! ml := evaluate_loop_once val_loader ∅ in
    let ml := synchronize_between_processes ml in
    print_summary ml >>
    global_avgs ml).

(** The evaluation/checkpoint phase of [main]. *)
Definition eval_phase (a : args) (e : env) (i : Z) : M world unit :=
  emit (EvPrint MsgEvaluating) >>
  let! test_stats := evaluate (val_loader e) in
  let! acc1 := dict_get "acc1" test_stats in
  let! best := gets best_eval_acc1 in
  (if float_gt acc1 best then
     emit (EvPrint MsgSaving) >>
     let! save_dict := gets (make_save_dict i) in
     emit (EvSave (checkpoint_path a) acc1) >>
     save_on_master (is_main_process e) save_dict (checkpoint_path a) >>
     let! acc1' := dict_get "acc1" test_stats in
     modify (set_best_eval_acc1 acc1')
   else ret tt) >>
  modify (set_metric_logger synchronize_between_processes) >>
  let! ml := gets metric_logger in
  let! train_stats := global_avgs ml in
  let! eval_loss := dict_get "loss" test_stats in
  let log_stats := make_log_stats train_stats eval_loss i in
  (if is_main_process e
   then emit EvLog >> modify (set_log_file (fun l => l ++ [log_stats]))
   else ret tt) >>
  modify (set_metric_logger (fun _ => ∅)) >>
  model_train.

(** The body of the training loop of [main]; its last statement,
    [it += 1], is overwritten by the next turn of [enumerate]. *)
Definition train_step (a : args) (e : env) (i : Z) (b : batch)
    : M world unit :=
  modify (set_it (Some i)) >>
  let samples := {| data := samples b; leaves := [] |} in
  let! samples := no_grad (encoder_call samples) in
  let! outputs := model_call samples in
  let loss := criterion_call outputs (targets b) in
  let loss_value := value loss in
  if negb (isfinite loss_value) then
    emit (EvPrint (MsgLossStopping loss_value)) >>
    sys_exit 1
  else
    let loss := loss_div loss (accum_iter a) in
    let! r := py_mod (i + 1) (accum_iter a) in
    loss_scaler_call loss (r =? 0) >>
    let! r' := py_mod (i + 1) (accum_iter a) in
    (if r' =? 0 then optimizer_zero_grad else ret tt) >>
    emit (EvMetricUpdate loss_value) >>
    modify (set_metric_logger (logger_update "loss" loss_value)) >>
    (if negb (i =? 0) then
       let! s := py_mod i (save_freq a) in
       if s =? 0 then eval_phase a e i else ret tt
     else ret tt) >>
    modify (set_it (Some (i + 1))).

(** [main(args)], run on a finite prefix of the training stream. *)
Definition main (a : args) (e : env) (train_loader : list batch)
    : M world unit :=
  modify (set_model (fun _ => fresh_module)) >>
  modify (set_encoder (fun _ => Some (set_training false fresh_module))) >>
  modify (set_param_groups [ModelId]) >>
  modify (set_opt_steps (fun _ => 0)) >>
  modify (set_scaler_state (fun _ => 0)) >>
  load_model (model_ckpt a) ModelId true >>
  load_model (encoder_ckpt a) EncoderId false >>
  model_train >>
  modify (set_metric_logger (fun _ => ∅)) >>
  optimizer_zero_grad >>
  modify (set_best_eval_acc1 (Fin 0)) >>
  modify (set_it (Some 0)) >>
  for_enumerate (train_step a e) 0 train_loader.

End Driver.
End Noncached.

(** ** Reading traces *)

(** Forward passes and printed lines: calls that change no training state. *)
Definition quiet (e : event) : bool :=
  match e with EvForward _ _ _ | EvPrint _ => true | _ => false end.

Definition is_backward (e : event) : bool :=
  match e with EvBackward => true | _ => false end.
Definition is_opt_step (e : event) : bool :=
  match e with EvOptStep => true | _ => false end.
Definition is_zero_grad (e : event) : bool :=
  match e with EvZeroGrad => true | _ => false end.
Definition is_metric_update (e : event) : bool :=
  match e with EvMetricUpdate _ => true | _ => false end.
Definition is_evaluate (e : event) : bool :=
  match e with EvEvaluate => true | _ => false end.
Definition is_save (e : event) : bool :=
  match e with EvSave _ _ => true | _ => false end.

(** The values of [it] at which the calls selected by [p] were made. *)
Definition stamps (p : event -> bool) (tr : list (option Z * event))
    : list (option Z) :=
  List.map fst (List.filter (fun se => p (snd se)) tr).

(** The batch indices [start, start + n). *)
Fixpoint indices (start : Z) (n : nat) : list Z :=
  match n with
  | O => []
  | S n' => start :: indices (start + 1) n'
  end.

(** [(it + 1) % accum_iter == 0] *)
Definition boundary (accum i : Z) : bool := (i + 1) `mod` accum =? 0.

(** [it != 0 and it % save_freq == 0] *)
Definition cadence (sf i : Z) : bool := negb (i =? 0) && (i `mod` sf =? 0).

Definition stamp_eqb (a b : option Z) : bool :=
  match a, b with
  | Some x, Some y => x =? y
  | None, None => true
  | _, _ => false
  end.

(** Every optimizer step in the trace is directly followed by a
    [zero_grad] made at the same value of [it]. *)
Fixpoint cleared_after_update (tr : list (option Z * event)) : bool :=
  match tr with
  | [] => true
  | (i, EvOptStep) :: rest =>
      match rest with
      | (j, EvZeroGrad) :: _ => stamp_eqb i j && cleared_after_update rest
      | _ => false
      end
  | _ :: rest => cleared_after_update rest
  end.

(** The calls of one turn of the training loop that runs to its end. *)
Definition phase_events (path : string) (is_main : bool) (q : list event)
    (saved : bool) (acc1 : pyfloat) : list event :=
  [EvPrint MsgEvaluating; EvEvaluate] ++ q ++
  (if saved then [EvPrint MsgSaving; EvSave path acc1] else []) ++
  (if is_main then [EvLog] else []) ++ [EvTrainMode].

Definition step_events (pre : list event) (bdry : bool) (v : pyfloat)
    (tail : list event) : list event :=
  pre ++ [EvBackward] ++
  (if bdry then [EvOptStep; EvZeroGrad] else []) ++
  [EvMetricUpdate v] ++ tail.

(** The cadence parameters of a run, common to the two drivers. *)
Record params := {
  p_accum : Z;
  p_save_freq : Z;
  p_path : string;
  p_main : bool
}.

Definition cached_params (a : Cached.args) (e : Cached.env) : params :=
  {| p_accum := Cached.accum_iter a; p_save_freq := Cached.save_freq a;
     p_path := Cached.checkpoint_path a;
     p_main := Cached.is_main_process e |}.

Definition noncached_params (a : Noncached.args) (e : Noncached.env)
    : params :=
  {| p_accum := Noncached.accum_iter a;
     p_save_freq := Noncached.save_freq a;
     p_path := Noncached.checkpoint_path a;
     p_main := Noncached.is_main_process e |}.

(** Same mode, parameters and gradients; only the buffers may differ. *)
Definition frozen (m m' : nn_module) : Prop :=
  training m' = training m /\ weights m' = weights m /\ grad m' = grad m.

Definition frozen_opt (o o' : option nn_module) : Prop :=
  match o, o' with
  | Some m, Some m' => frozen m m'
  | None, None => True
  | _, _ => False
  end.

(** What a computation that only runs forward passes and prints may
    change: buffers, the mode of the model, the autograd switch, and the
    trace, extended by [q]. *)
Record quiet_rel (w w' : world) (q : list event) : Prop := {
  qr_weights : weights (model w') = weights (model w);
  qr_grad : grad (model w') = grad (model w);
  qr_encoder : frozen_opt (encoder w) (encoder w');
  qr_pg : param_groups w' = param_groups w;
  qr_opt : opt_steps w' = opt_steps w;
  qr_scaler : scaler_state w' = scaler_state w;
  qr_ml : metric_logger w' = metric_logger w;
  qr_best : best_eval_acc1 w' = best_eval_acc1 w;
  qr_it : it w' = it w;
  qr_ck : checkpoints w' = checkpoints w;
  qr_log : log_file w' = log_file w;
  qr_trace : trace w' = trace w ++ List.map (pair (it w)) q
}.

(** The contribution of batch [i] to the gradient buffers. *)
Definition contribution_of (P : params) (i : Z) : contribution :=
  {| c_it := Some i; c_div := p_accum P |}.

(** The evaluation/checkpoint phase run at index [i], from [w] to [w'],
    in which [evaluate] returned the top-1 accuracy [acc1]. *)
Inductive phase_rel (P : params) (i : Z) (acc1 : pyfloat) (w w' : world)
    : list event -> Prop :=
| phase_run (q : list event) (acc5 loss : pyfloat) :
    forallb quiet q = true ->
    In (EvPrint (MsgAcc acc1 acc5 loss)) q ->
    best_eval_acc1 w' =
      (if float_gt acc1 (best_eval_acc1 w) then acc1
       else best_eval_acc1 w) ->
    checkpoints w' =
      (if float_gt acc1 (best_eval_acc1 w) && p_main P
       then <[p_path P := make_save_dict i w']> (checkpoints w)
       else checkpoints w) ->
    training (model w') = true ->
    metric_logger w' = ∅ ->
    phase_rel P i acc1 w w'
      (phase_events (p_path P) (p_main P) q
         (float_gt acc1 (best_eval_acc1 w)) acc1).

(** One turn of the training loop that runs to its end, at index [i]. *)
Inductive step_rel (P : params) (i : Z) (w w' : world) : Prop :=
| step_run (pre : list event) (v : pyfloat) (tail : list event) :
    forallb quiet pre = true ->
    isfinite v = true ->
    p_accum P <> 0 ->
    trace w' = trace w ++
      List.map (pair (Some i))
        (step_events pre (boundary (p_accum P) i) v tail) ->
    (if cadence (p_save_freq P) i
     then exists acc1, phase_rel P i acc1 w w' tail
     else tail = [] /\
          best_eval_acc1 w' = best_eval_acc1 w /\
          checkpoints w' = checkpoints w /\
          training (model w') = training (model w)) ->
    grad (model w') =
      (if boundary (p_accum P) i then None
       else Some (default [] (grad (model w)) ++ [contribution_of P i])) ->
    weights (model w') =
      (if boundary (p_accum P) i
       then weights (model w) ++
            [default [] (grad (model w)) ++ [contribution_of P i]]
       else weights (model w)) ->
    opt_steps w' =
      (if boundary (p_accum P) i then 1 + opt_steps w else opt_steps w) ->
    param_groups w' = param_groups w ->
    frozen_opt (encoder w) (encoder w') ->
    step_rel P i w w'.

(** A chain of [n] turns starting at index [i]. *)
Inductive chain (R : Z -> world -> world -> Prop)
    : Z -> nat -> world -> world -> Prop :=
| chain_nil i w : chain R i 0 w w
| chain_cons i n w w1 w2 :
    R i w w1 -> chain R (i + 1) n w1 w2 -> chain R i (S n) w w2.

(** The state in which a driver enters its training loop, given the files
    it started from and the path it resumes the model from. *)
Record start_ok (fs : gmap string checkpoint) (path : string) (w0 : world)
    : Prop := {
  so_pg : param_groups w0 = [ModelId];
  so_best : best_eval_acc1 w0 = Fin 0;
  so_trace : trace w0 = [(None, EvTrainMode); (None, EvZeroGrad)];
  so_grad : grad (model w0) = None;
  so_train : training (model w0) = true;
  so_ck : checkpoints w0 = fs;
  so_log : log_file w0 = [];
  so_fresh :
    path = "" ->
    weights (model w0) = [] /\ opt_steps w0 = 0 /\ scaler_state w0 = 0;
  so_resumed :
    path <> "" ->
    exists ck, fs !! path = Some ck /\
      weights (model w0) = (ck_model ck).1 /\
      buffers (model w0) = (ck_model ck).2 /\
      opt_steps w0 = ck_optimizer ck /\
      scaler_state w0 = ck_scaler ck
}.

(** The stamps of the calls selected by [p] that fall in the window of
    [n] batches starting at [start]. *)
Definition in_window (start : Z) (n : nat) (s : option Z) : bool :=
  match s with
  | Some i => (start <=? i) && (i <? start + Z.of_nat n)
  | None => false
  end.

Definition window_stamps (p : event -> bool) (tr : list (option Z * event))
    (start : Z) (n : nat) : list (option Z) :=
  List.filter (in_window start n) (stamps p tr).

(** Gradient accumulation, read off the trace of a run over [n] batches:
    every window of [accum] consecutive batches holds exactly one
    optimizer step; in the k-th accumulation window it is made on the last
    batch; the batches with an optimizer step, and those with a
    [zero_grad], are the ones with [(it + 1) % accum == 0]; and every
    optimizer step is directly followed by [zero_grad]. *)
Definition accumulation_ok (accum : Z) (n : nat)
    (tr : list (option Z * event)) : Prop :=
  (forall s, 0 <= s -> s + accum <= Z.of_nat n ->
     length (window_stamps is_opt_step tr s (Z.to_nat accum)) = 1%nat) /\
  (forall k, 0 <= k -> (k + 1) * accum <= Z.of_nat n ->
     window_stamps is_opt_step tr (k * accum) (Z.to_nat accum) =
     [Some (k * accum + accum - 1)]) /\
  (forall i, In (Some i, EvOptStep) tr <->
     0 <= i < Z.of_nat n /\ (i + 1) `mod` accum = 0) /\
  cleared_after_update tr = true /\
  (forall i, In (Some i, EvZeroGrad) tr <->
     0 <= i < Z.of_nat n /\ (i + 1) `mod` accum = 0).

(** ** A concrete instance *)

Module Demo.

Definition zsum (l : list Z) : Z := fold_right Z.add 0 l.

Definition matches (out tg : list Z) : Z :=
  Z.of_nat (length (List.filter (fun p => fst p =? snd p)
                      (List.combine out tg))).

(** A model that shifts its input by the number of updates applied, and
    counts its training-mode forward passes in its buffers; an encoder
    that doubles its input; a loss that is infinite on a negative first
    label; top-1 accuracy as the number of exact hits. *)
#[export] Instance kernels : Kernels := {|
  forward := fun mode wt bf x =>
    (List.map (Z.add (Z.of_nat (length wt))) x,
     if mode then bf + 1 else bf);
  forward_encoder := fun mode wt bf x => (List.map (Z.mul 2) x, bf);
  criterion := fun out tg =>
    match tg with
    | [] => NaN
    | t :: _ => if t <? 0 then PInf else Fin (inject_Z (zsum out))
    end;
  accuracy := fun out tg => (Fin (inject_Z (matches out tg)), Fin 100)
|}.

Definition good : batch := {| samples := [1; 2]; targets := [1; 0] |}.
Definition diverged : batch := {| samples := [1; 2]; targets := [-1; 0] |}.

Definition val_small : batch := {| samples := [1]; targets := [3] |}.
Definition val_large : batch :=
  {| samples := [2; 2; 2]; targets := [0; 0; 0] |}.

Definition cached_args : Cached.args :=
  {| Cached.accum_iter := 2; Cached.save_freq := 2;
     Cached.save_prefix := "run"; Cached.output_dir := "./output_dir";
     Cached.resume := "" |}.

Definition cached_env : Cached.env :=
  {| Cached.val_loader := [val_small; val_large];
     Cached.is_main_process := true |}.

Definition noncached_args : Noncached.args :=
  {| Noncached.accum_iter := 2; Noncached.save_freq := 2;
     Noncached.save_prefix := "run"; Noncached.output_dir := "out/";
     Noncached.model_ckpt := ""; Noncached.encoder_ckpt := "" |}.

Definition noncached_env : Noncached.env :=
  {| Noncached.val_loader := [val_small; val_large];
     Noncached.is_main_process := true |}.

(** The end-to-end driver run on five batches, then resumed from the
    checkpoint it left. *)
Definition first_run : result unit * world :=
  Cached.main cached_args cached_env (repeat good 5) (init_world ∅).

Definition resumed_args : Cached.args :=
  {| Cached.accum_iter := 2; Cached.save_freq := 2;
     Cached.save_prefix := "run"; Cached.output_dir := "./output_dir";
     Cached.resume := Cached.checkpoint_path cached_args |}.

Definition resumed_run : result unit * world :=
  Cached.main resumed_args cached_env (repeat good 2)
    (init_world (checkpoints (snd first_run))).

Definition noncached_run : result unit * world :=
  Noncached.main noncached_args noncached_env (repeat good 5)
    (init_world ∅).

Definition noncached_resumed_args : Noncached.args :=
  {| Noncached.accum_iter := 2; Noncached.save_freq := 2;
     Noncached.save_prefix := "run"; Noncached.output_dir := "out/";
     Noncached.model_ckpt := Noncached.checkpoint_path noncached_args;
     Noncached.encoder_ckpt := "" |}.

Definition noncached_resumed_run : result unit * world :=
  Noncached.main noncached_resumed_args noncached_env (repeat good 2)
    (init_world (checkpoints (snd noncached_run))).

(** A state inside the training loop of the two-stage driver. *)
Definition loop_state : world :=
  set_encoder (fun _ => Some (set_training false fresh_module))
    (set_param_groups [ModelId] (init_world ∅)).

(** What [evaluate] of the end-to-end driver returns in that state. *)
Definition eval_stats : gmap string pyfloat :=
  match fst (Cached.evaluate [val_small; val_large] loop_state) with
  | Val s => s
  | _ => ∅
  end.

Definition noncached_eval_stats : gmap string pyfloat :=
  match fst (Noncached.evaluate [val_small; val_large] loop_state) with
  | Val s => s
  | _ => ∅
  end.

End Demo.

(** The evaluation cadence, read off the trace of a run over [n] batches:
    [evaluate] is called after batch [i] exactly when
    [i % save_freq == 0] and [i != 0]. *)
Definition cadence_ok (sf : Z) (n : nat) (tr : list (option Z * event))
    : Prop :=
  (forall i, In (Some i, EvEvaluate) tr <->
     0 <= i < Z.of_nat n /\ i `mod` sf = 0 /\ i <> 0) /\
  ~ In (Some 0, EvEvaluate) tr /\
  ~ In (None, EvEvaluate) tr.

(** The values of [it] at which the turns of the training loop ran. *)
Definition batch_indices (tr : list (option Z * event)) : list (option Z) :=
  stamps is_backward tr.

(** The claim on resumption: the loop goes on from the iteration stored in
    the checkpoint. *)
Definition continues_counter (ck : checkpoint) (n : nat)
    (tr : list (option Z * event)) : Prop :=
  batch_indices tr = List.map Some (indices (ck_iteration ck + 1) n).

(** The loss a turn of the training loop computes for batch [b] in state
    [w]: end-to-end, and with the encoder [m] in front. *)
Definition cached_loss_value `{K : Kernels} (w : world) (b : batch)
    : pyfloat :=
  criterion
    (forward (training (model w)) (weights (model w)) (buffers (model w))
       (samples b)).1
    (targets b).

Definition noncached_loss_value `{K : Kernels} (w : world) (m : nn_module)
    (b : batch) : pyfloat :=
  criterion
    (forward (training (model w)) (weights (model w)) (buffers (model w))
       (forward_encoder (training m) (weights m) (buffers m) (samples b)).1).1
    (targets b).

(** What the evaluation/checkpoint phase at index [i] decides, when
    [evaluate] returned the top-1 accuracy [acc1]: [save_on_master] is
    called, with the per-run path, exactly when [acc1] exceeds the best
    value so far; the best value and the file follow; and afterwards
    [acc1] no longer exceeds the best value. *)
Definition checkpoint_decision (P : params) (i : Z) (acc1 : pyfloat)
    (w w' : world) : Prop :=
  exists tail,
    trace w' = trace w ++ List.map (pair (Some i)) tail /\
    (In (EvSave (p_path P) acc1) tail <->
     float_gt acc1 (best_eval_acc1 w) = true) /\
    (forall p x, In (EvSave p x) tail -> p = p_path P /\ x = acc1) /\
    best_eval_acc1 w' =
      (if float_gt acc1 (best_eval_acc1 w) then acc1
       else best_eval_acc1 w) /\
    checkpoints w' =
      (if float_gt acc1 (best_eval_acc1 w) && p_main P
       then <[p_path P := make_save_dict i w']> (checkpoints w)
       else checkpoints w) /\
    float_gt acc1 (best_eval_acc1 w') = false.

(** Checkpoints and a best score of 0.0, read off a run that started from
    the files [fs]: every call of [save_on_master] was for an accuracy above
    0.0; and if no evaluation scored above 0.0, no call was made and the
    files are as they were. *)
Definition zero_score_ok (fs : gmap string checkpoint) (w : world) : Prop :=
  (forall s p acc, In (s, EvSave p acc) (trace w) ->
     float_gt acc (Fin 0) = true) /\
  ((forall s a1 a5 l, In (s, EvPrint (MsgAcc a1 a5 l)) (trace w) ->
      float_le a1 (Fin 0) = true) ->
   stamps is_save (trace w) = [] /\ checkpoints w = fs).

(** The claim on [evaluate]: it hands the model back in training mode. *)
Definition restores_training_mode {A} (ev : M world A) : Prop :=
  forall w r w', ev w = (r, w') -> training (model w') = true.

(** ** What [evaluate] records *)

(** What one validation batch contributes: its loss, its two accuracies
    and the weight given to the accuracies. *)
Record observation := {
  o_loss : pyfloat;
  o_acc1 : pyfloat;
  o_acc5 : pyfloat;
  o_size : Z
}.

(** The three updates made for a batch in [evaluate]. *)
Definition record_observation (ml : gmap string meter) (o : observation)
    : gmap string meter :=
  meters_update "acc5" (o_acc5 o) (o_size o)
    (meters_update "acc1" (o_acc1 o) (o_size o)
       (logger_update "loss" (o_loss o) ml)).

Section Observations.
Context `{K : Kernels}.

(** The observations of [evaluate] of the end-to-end driver over a
    stream, for the model [m]. *)
Fixpoint cached_observations (m : nn_module) (bs : list batch)
    : list observation :=
  match bs with
  | [] => []
  | b :: bs' =>
      let r := forward (training m) (weights m) (buffers m) (samples b) in
      {| o_loss := criterion r.1 (targets b);
         o_acc1 := (accuracy r.1 (targets b)).1;
         o_acc5 := (accuracy r.1 (targets b)).2;
         o_size := Z.of_nat (length (samples b)) |}
      :: cached_observations (set_buffers r.2 m) bs'
  end.

(** The same for the two-stage driver, for the encoder [enc] and the
    model [m]: the values recorded are those of the second of the two
    forward passes, and the weight is the leading dimension of the
    encoder's output. *)
Fixpoint noncached_observations (enc m : nn_module) (bs : list batch)
    : list observation :=
  match bs with
  | [] => []
  | b :: bs' =>
      let f := forward_encoder (training enc) (weights enc) (buffers enc)
                 (samples b) in
      let r1 := forward (training m) (weights m) (buffers m) f.1 in
      let r2 := forward (training m) (weights m) r1.2 f.1 in
      {| o_loss := criterion r2.1 (targets b);
         o_acc1 := (accuracy r2.1 (targets b)).1;
         o_acc5 := (accuracy r2.1 (targets b)).2;
         o_size := Z.of_nat (length f.1) |}
      :: noncached_observations (set_buffers f.2 enc)
           (set_buffers r2.2 m) bs'
  end.

End Observations.

Definition batch_sizes (bs : list batch) : list Z :=
  List.map (fun b => Z.of_nat (length (samples b))) bs.

(** The claim on the loss returned by [evaluate]: a mean weighted by the
    batch sizes. *)
Definition loss_weighted_by_batch_size (stats : gmap string pyfloat)
    (obs : list observation) : Prop :=
  exists x y,
    stats !! "loss" = Some x /\
    weighted_mean (List.map (fun o => (o_loss o, o_size o)) obs) = Some y /\
    float_eq x y.

(** What [evaluate] returns, from the observations [obs] it made over the
    stream [bs]: the accuracies are means weighted by the batch sizes, the
    loss is the plain mean over the batches. *)
Definition evaluate_weighting (stats : gmap string pyfloat)
    (obs : list observation) (bs : list batch) : Prop :=
  List.map o_size obs = batch_sizes bs /\
  stats !! "acc1" =
    weighted_mean (List.map (fun o => (o_acc1 o, o_size o)) obs) /\
  stats !! "acc5" =
    weighted_mean (List.map (fun o => (o_acc5 o, o_size o)) obs) /\
  stats !! "loss" =
    weighted_mean (List.map (fun o => (o_loss o, 1)) obs).

(** The state without the record of the calls made. *)
Definition erase_trace (w : world) : world := set_trace (fun _ => []) w.

(** Two states that differ at most in their traces, the model being in
    evaluation mode. *)
Definition sim (w1 w2 : world) : Prop :=
  erase_trace w1 = erase_trace w2 /\ training (model w1) = false.

(** Two computations that, from such states, give the same result and
    lead to such states. *)
Definition agree {A} (m1 m2 : M world A) : Prop :=
  forall w1 w2, sim w1 w2 ->
    fst (m1 w1) = fst (m2 w2) /\ sim (snd (m1 w1)) (snd (m2 w2)).

(** ** The encoder of the two-stage driver *)

(** A forward pass of the encoder is made in evaluation mode, without
    gradient tracking. *)
Definition frozen_forward (e : event) : bool :=
  match e with
  | EvForward EncoderId mode g => negb mode && negb g
  | _ => true
  end.

(** The encoder exists, is in evaluation mode, has the parameters [W] and
    no gradient; the optimizer was built over the model only; every
    forward pass of the encoder so far was a frozen one. *)
Definition encoder_frozen (W : list (list contribution)) (w : world)
    : Prop :=
  exists enc,
    encoder w = Some enc /\ training enc = false /\ weights enc = W /\
    grad enc = None /\ param_groups w = [ModelId] /\
    forallb frozen_forward (List.map snd (trace w)) = true.

(** The same, inside a [no_grad] block when [ng]. *)
Definition encoder_inv (ng : bool) (W : list (list contribution))
    (w : world) : Prop :=
  encoder_frozen W w /\ (ng = true -> grad_enabled w = false).

(** The parameters the encoder starts with: those it is constructed with,
    or those read from the encoder checkpoint. *)
Definition startup_weights (fs : gmap string checkpoint) (path : string)
    (W : list (list contribution)) : Prop :=
  W = weights fresh_module \/
  exists ck, fs !! path = Some ck /\ W = fst (ck_model ck).

(** Whatever the outcome of [m], it keeps [I]; a value it returns
    satisfies [Q]. *)
Definition triple {A} (I : world -> Prop) (m : M world A) (Q : A -> Prop)
    : Prop :=
  forall w r w', I w -> m w = (r, w') ->
    I w' /\ match r with Val a => Q a | _ => True end.

(** A graph whose only leaves are parameters of the model. *)
Definition only_model (ids : list module_id) : Prop :=
  forall id, In id ids -> id = ModelId.

(** ** Relations between states *)

(** A relation between the state before and after, whatever the result. *)
Definition preserves {A} (R : world -> world -> Prop) (m : M world A)
    : Prop :=
  forall w r w', m w = (r, w') -> R w w'.

(** Quiet computations whose calls all satisfy [ok]. *)
Definition qrel (ok : event -> bool) (w w' : world) : Prop :=
  exists q, quiet_rel w w' q /\ forallb ok q = true.

(** Quiet, and the mode of the model and the autograd switch are kept. *)
Definition keeps (w w' : world) : Prop :=
  qrel quiet w w' /\
  training (model w') = training (model w) /\
  grad_enabled w' = grad_enabled w.

(** What [evaluate] does to the state, whatever its result: it leaves the
    model in evaluation mode. *)
Definition evaluate_rel (w w' : world) : Prop :=
  exists q,
    quiet_rel w w' (EvEvaluate :: q) /\ forallb quiet q = true /\
    training (model w') = false /\ grad_enabled w' = grad_enabled w.

(** What the phase keeps besides what [phase_rel] says. *)
Definition phase_frame (i : Z) (w w' : world) (tail : list event) : Prop :=
  trace w' = trace w ++ List.map (pair (Some i)) tail /\
  weights (model w') = weights (model w) /\
  grad (model w') = grad (model w) /\
  opt_steps w' = opt_steps w /\
  scaler_state w' = scaler_state w /\
  param_groups w' = param_groups w /\
  it w' = it w /\
  grad_enabled w' = grad_enabled w /\
  frozen_opt (encoder w) (encoder w').

Definition loud (p : event -> bool) : Prop :=
  forall e, p e = true -> quiet e = false.

(** ** The states a turn of the training loop goes through *)

(** The state after [model(x)]. *)
Definition forward_state `{K : Kernels} (x : list Z) (w : world) : world :=
  set_model
    (set_buffers
       (forward (training (model w)) (weights (model w))
          (buffers (model w)) x).2)
    (set_trace
       (fun t => t ++ [(it w, EvForward ModelId (training (model w))
                                (grad_enabled w))]) w).

(** The state after [encoder.forward_encoder(x)] under [torch.no_grad()],
    for the encoder [m]. *)
Definition encoder_state `{K : Kernels} (m : nn_module) (x : list Z)
    (w : world) : world :=
  set_encoder
    (fmap (set_buffers
             (forward_encoder (training m) (weights m) (buffers m) x).2))
    (set_trace
       (fun t => t ++ [(it w, EvForward EncoderId (training m) false)]) w).

(** The state after the scaler call, the clearing of the gradients and
    the update of the metric logger, in the turn at index [i] with the
    loss value [v]: from [loss = loss / args.accum_iter] to
    [metric_logger.update(loss=loss_value)]. *)
Definition backward_state (accum : Z) (w : world) : world :=
  set_model (accumulate {| c_it := it w; c_div := accum |})
    (set_trace (fun t => t ++ [(it w, EvBackward)]) w).

Definition update_state (w : world) : world :=
  set_model (set_grad None)
    (set_trace (fun t => t ++ [(it w, EvZeroGrad)])
       (set_scaler_state (Z.add 1)
          (set_opt_steps (Z.add 1)
             (set_model apply_step
                (set_trace (fun t => t ++ [(it w, EvOptStep)]) w))))).

Definition core_state (accum i : Z) (v : pyfloat) (w : world) : world :=
  let w1 := backward_state accum w in
  let w2 := if boundary accum i then update_state w1 else w1 in
  set_metric_logger (logger_update "loss" v)
    (set_trace (fun t => t ++ [(it w, EvMetricUpdate v)]) w2).

(** The state after the evaluation/checkpoint phase at index [i], from the
    state [w] in which [evaluate] returned the top-1 accuracy [acc1] and
    the loss [l]. *)
Definition save_state (path : string) (is_main : bool) (i : Z)
    (acc1 : pyfloat) (w : world) : world :=
  let w1 :=
    set_trace (fun t => t ++ [(it w, EvSave path acc1)])
      (set_trace (fun t => t ++ [(it w, EvPrint MsgSaving)]) w) in
  set_best_eval_acc1 acc1
    (if is_main
     then set_checkpoints (insert path (make_save_dict i w)) w1
     else w1).

Definition log_state (is_main : bool) (i : Z) (l : pyfloat) (w : world)
    : world :=
  if is_main
  then set_log_file
         (fun f => f ++ [make_log_stats
                           (omap global_avg (metric_logger w)) l i])
         (set_trace (fun t => t ++ [(it w, EvLog)]) w)
  else w.

Definition phase_state (path : string) (is_main : bool) (i : Z)
    (acc1 l : pyfloat) (w : world) : world :=
  let w1 :=
    if float_gt acc1 (best_eval_acc1 w)
    then save_state path is_main i acc1 w else w in
  let w2 := log_state is_main i l w1 in
  set_trace (fun t => t ++ [(it w, EvTrainMode)])
    (set_model (set_training true)
       (set_metric_logger (fun _ => ∅) w2)).

(** ** The calls of [evaluate] *)

(** The calls of a run of [evaluate] of the end-to-end driver that
    returns, over [n] batches: one forward pass of the model per batch, in
    evaluation mode with gradient tracking off, then the summary line. *)
Definition cached_eval_calls (n : nat) (a1 a5 l : pyfloat) : list event :=
  EvEvaluate :: repeat (EvForward ModelId false false) n ++
  [EvPrint (MsgAcc a1 a5 l)].

(** The same for the two-stage driver, whose encoder is in the mode
    [mode]: per batch, one pass of the encoder and two of the model. *)
Definition noncached_eval_calls (mode : bool) (n : nat)
    (a1 a5 l : pyfloat) : list event :=
  EvEvaluate ::
  concat (repeat [EvForward EncoderId mode false;
                  EvForward ModelId false false;
                  EvForward ModelId false false] n) ++
  [EvPrint (MsgAcc a1 a5 l)].

(** ** Further concrete inputs *)

Module Edge.

Definition cached_no_freq : Cached.args :=
  {| Cached.accum_iter := 2; Cached.save_freq := 0;
     Cached.save_prefix := "run"; Cached.output_dir := "out";
     Cached.resume := "" |}.

Definition noncached_no_freq : Noncached.args :=
  {| Noncached.accum_iter := 2; Noncached.save_freq := 0;
     Noncached.save_prefix := "run"; Noncached.output_dir := "out";
     Noncached.model_ckpt := ""; Noncached.encoder_ckpt := "" |}.

Definition cached_no_accum : Cached.args :=
  {| Cached.accum_iter := 0; Cached.save_freq := 2;
     Cached.save_prefix := "run"; Cached.output_dir := "out";
     Cached.resume := "" |}.

Definition noncached_no_accum : Noncached.args :=
  {| Noncached.accum_iter := 0; Noncached.save_freq := 2;
     Noncached.save_prefix := "run"; Noncached.output_dir := "out";
     Noncached.model_ckpt := ""; Noncached.encoder_ckpt := "" |}.

(** The frozen encoder of the two-stage driver at start-up. *)
Definition encoder0 : nn_module := set_training false fresh_module.

End Edge.

(** ** What a turn of a run that goes on has done *)

(** A forward pass made inside [evaluate]: in evaluation mode, with
    gradient tracking off. *)
Definition eval_call (e : event) : bool :=
  match e with
  | EvForward _ mode g => negb mode && negb g
  | _ => false
  end.

(** What a call of [evaluate] that returned the top-1 accuracy [acc1] and
    the loss [l] did, from [w] to [w']: the forward passes [fwd], then the
    summary line. *)
Definition eval_effect (w w' : world) (fwd : list event)
    (acc1 a5 l : pyfloat) : Prop :=
  quiet_rel w w' (EvEvaluate :: fwd ++ [EvPrint (MsgAcc acc1 a5 l)]) /\
  forallb eval_call fwd = true /\
  training (model w') = false /\ grad_enabled w' = grad_enabled w.

(** How a turn at index [i] that runs to its end goes on from the state
    [wc] reached after the update of the metric logger: either no
    evaluation is due, or the evaluation/checkpoint phase runs. *)
Definition turn_end (P : params) (i : Z) (wc w' : world) : Prop :=
  (cadence (p_save_freq P) i = false /\ w' = wc) \/
  (cadence (p_save_freq P) i = true /\
   exists fwd acc1 a5 l w1,
     eval_effect
       (set_trace (fun t => t ++ [(it wc, EvPrint MsgEvaluating)]) wc)
       w1 fwd acc1 a5 l /\
     map_Forall (fun _ m => count m <> 0) (metric_logger w1) /\
     w' = phase_state (p_path P) (p_main P) i acc1 l w1).

(** What holds whenever a driver is at the top of its training loop. *)
Definition loop_top (w : world) : Prop :=
  grad_enabled w = true /\ param_groups w = [ModelId] /\
  training (model w) = true.

(** The same, with the frozen encoder of the two-stage driver. *)
Definition loop_top_encoder (w : world) : Prop :=
  loop_top w /\ exists m, encoder w = Some m /\ training m = false.

(** A forward pass made by a turn of the training loop: of the model in
    training mode with gradient tracking on, or of the encoder in
    evaluation mode with gradient tracking off. *)
Definition train_call (e : event) : bool :=
  match e with
  | EvForward ModelId mode g => mode && g
  | EvForward EncoderId mode g => negb mode && negb g
  | _ => false
  end.

(** The forward passes [pre] of the turn at index [i] lead from [w] to
    [wf]. *)
Definition after_forward (i : Z) (w wf : world) (pre : list event) : Prop :=
  quiet_rel (set_it (Some i) w) wf pre /\
  forallb train_call pre = true /\
  grad_enabled wf = grad_enabled w /\
  training (model wf) = training (model w).

(** A turn at index [i] that runs to its end, in either driver: forward
    passes, then the backward pass, the update if one is due and the
    metric logger, then the evaluation/checkpoint phase if one is due;
    the two-stage driver then adds one to its loop variable. *)
Definition turn_rel (P : params) (i : Z) (w w' : world) : Prop :=
  exists pre wf v wt,
    after_forward i w wf pre /\
    isfinite v = true /\ p_accum P <> 0 /\
    turn_end P i (core_state (p_accum P) i v wf) wt /\
    (w' = wt \/ w' = set_it (Some (i + 1)) wt).

(** What an evaluation/checkpoint phase produced: the forward passes of
    [evaluate], the three values it printed and returned. *)
Record phase_out := {
  po_fwd : list event;
  po_acc1 : pyfloat;
  po_acc5 : pyfloat;
  po_loss : pyfloat
}.

(** The calls of the phase, given the best score [best] before it. *)
Definition turn_tail (P : params) (best : pyfloat) (o : option phase_out)
    : list event :=
  match o with
  | None => []
  | Some d =>
      phase_events (p_path P) (p_main P)
        (po_fwd d ++ [EvPrint (MsgAcc (po_acc1 d) (po_acc5 d) (po_loss d))])
        (float_gt (po_acc1 d) best) (po_acc1 d)
  end.

(** Whether the phase [o] saved, given the best score before it. *)
Definition improved (best : pyfloat) (o : option phase_out) : bool :=
  match o with
  | None => false
  | Some d => float_gt (po_acc1 d) best
  end.

(** The record the phase [o] of the turn at index [i] writes to the log:
    the averages of the training logger, to which the turn has just added
    its loss [v], the loss [evaluate] returned, and the index. *)
Definition turn_log (P : params) (i : Z) (v : pyfloat)
    (ml : gmap string meter) (o : option phase_out) : list log_record :=
  match o with
  | None => []
  | Some d =>
      if p_main P
      then [make_log_stats
              (omap global_avg (logger_update "loss" v ml)) (po_loss d) i]
      else []
  end.

(** Everything a turn at index [i] that runs to its end does, in either
    driver, from [w] to [w']: its calls, and what becomes of the
    gradients, the parameters, the optimizer, the metric logger, the best
    score, the checkpoint files and the log. *)
Inductive turn_facts (P : params) (i : Z) (w w' : world) : Prop :=
| turn_done (pre : list event) (v : pyfloat) (o : option phase_out) :
    forallb train_call pre = true ->
    isfinite v = true ->
    p_accum P <> 0 ->
    (if cadence (p_save_freq P) i then o <> None else o = None) ->
    (forall d, o = Some d -> forallb eval_call (po_fwd d) = true) ->
    trace w' =
      trace w ++
      List.map (pair (Some i))
        (step_events pre (boundary (p_accum P) i) v
           (turn_tail P (best_eval_acc1 w) o)) ->
    grad (model w') =
      (if boundary (p_accum P) i then None
       else Some (default [] (grad (model w)) ++ [contribution_of P i])) ->
    weights (model w') =
      (if boundary (p_accum P) i
       then weights (model w) ++
            [default [] (grad (model w)) ++ [contribution_of P i]]
       else weights (model w)) ->
    opt_steps w' =
      (if boundary (p_accum P) i then 1 + opt_steps w else opt_steps w) ->
    metric_logger w' =
      (match o with
       | Some _ => ∅
       | None => logger_update "loss" v (metric_logger w)
       end) ->
    best_eval_acc1 w' =
      (match o with
       | Some d =>
           if float_gt (po_acc1 d) (best_eval_acc1 w) then po_acc1 d
           else best_eval_acc1 w
       | None => best_eval_acc1 w
       end) ->
    checkpoints w' =
      (if improved (best_eval_acc1 w) o && p_main P
       then <[p_path P := make_save_dict i w']> (checkpoints w)
       else checkpoints w) ->
    log_file w' = log_file w ++ turn_log P i v (metric_logger w) o ->
    turn_facts P i w w'.

(** ** What the parameters are made of *)

(** The contributions of the [n] batches from index [start] on, each
    scaled by [1 / accum]. *)
Definition contributions (accum start : Z) (n : nat) : list contribution :=
  List.map (fun j => {| c_it := Some j; c_div := accum |})
    (indices start n).

(** The optimizer updates made in [n] turns: one per completed window of
    [accum] batches, made of the contributions of the batches of its
    window. *)
Definition expected_updates (accum n : Z) : list (list contribution) :=
  List.map (fun k => contributions accum (k * accum) (Z.to_nat accum))
    (indices 0 (Z.to_nat (n / accum))).

(** The gradient buffers after [n] turns: the contributions of the
    batches of the window that is not yet complete. *)
Definition pending_gradient (accum n : Z) : option (list contribution) :=
  if n `mod` accum =? 0 then None
  else Some (contributions accum (n - n `mod` accum)
               (Z.to_nat (n `mod` accum))).

(** The parameters a driver enters its loop with: those of the checkpoint
    it resumes from, if any. *)
Definition initial_weights (fs : gmap string checkpoint) (path : string)
    : list (list contribution) :=
  if String.eqb path "" then []
  else match fs !! path with
       | Some ck => (ck_model ck).1
       | None => []
       end.

(** Gradient accumulation, read off the state after [k] batches of a run
    that entered its loop with the parameters [W0]: the parameters are
    [W0] followed by one update per completed window of [accum] batches,
    the update of a window being made of the contributions of the batches
    of that window; the gradient buffers are empty when [k] ends a
    window, and hold the contributions of the batches of the open window
    otherwise. *)
Definition accumulation_state (accum : Z) (W0 : list (list contribution))
    (k : nat) (m : nn_module) : Prop :=
  weights m = W0 ++ expected_updates accum (Z.of_nat k) /\
  grad m = pending_gradient accum (Z.of_nat k).

(** ** Saves and scores of a run *)

(** The saves of a run, in order: the value of [it] and the accuracy of
    each call of [save_on_master]. *)
Definition save_of (se : option Z * event) : list (option Z * pyfloat) :=
  match snd se with
  | EvSave _ acc => [(fst se, acc)]
  | _ => []
  end.

Definition saves (tr : list (option Z * event))
    : list (option Z * pyfloat) :=
  flat_map save_of tr.

Definition saved_scores (tr : list (option Z * event)) : list pyfloat :=
  List.map snd (saves tr).

(** The top-1 accuracies the evaluations of a run printed, in order. *)
Definition score_of (se : option Z * event) : list pyfloat :=
  match snd se with
  | EvPrint (MsgAcc a1 _ _) => [a1]
  | _ => []
  end.

Definition evaluated_scores (tr : list (option Z * event)) : list pyfloat :=
  flat_map score_of tr.

(** Each value of the list is above the one before it, the first above
    [b]. *)
Fixpoint increasing_from (b : pyfloat) (l : list pyfloat) : bool :=
  match l with
  | [] => true
  | x :: r => float_gt x b && increasing_from x r
  end.

(** The scores of a run: the saved ones increase, the best is the last
    one saved, and no evaluation scored above it. *)
Definition scores_ok (w : world) : Prop :=
  increasing_from (Fin 0) (saved_scores (trace w)) = true /\
  best_eval_acc1 w = default (Fin 0) (last (saved_scores (trace w))) /\
  Forall (fun a => float_gt a (best_eval_acc1 w) = false)
    (evaluated_scores (trace w)).

(** The checkpoint files at the end of a run of a driver that started
    from the files [fs], on the process that writes them: untouched when
    the run saved nothing; otherwise only the file at the run's path
    differs, and it holds the bundle of the last save, made at the index
    [i] with the parameters as they were after the turn [i]. *)
Definition final_checkpoint (P : params) (fs : gmap string checkpoint)
    (W0 : list (list contribution)) (w : world) : Prop :=
  match last (saves (trace w)) with
  | None => checkpoints w = fs
  | Some (s, acc) =>
      exists ck,
        checkpoints w = <[p_path P := ck]> fs /\
        s = Some (ck_iteration ck) /\
        acc = best_eval_acc1 w /\
        cadence (p_save_freq P) (ck_iteration ck) = true /\
        (ck_model ck).1 =
          W0 ++ expected_updates (p_accum P) (ck_iteration ck + 1)
  end.

(** ** The log of a run *)

(** The evaluations of a run that returned, in order: the value of [it]
    and the loss [evaluate] printed and returned. *)
Definition evaluation_of (se : option Z * event)
    : list (option Z * pyfloat) :=
  match snd se with
  | EvPrint (MsgAcc _ _ l) => [(fst se, l)]
  | _ => []
  end.

Definition evaluations (tr : list (option Z * event))
    : list (option Z * pyfloat) :=
  flat_map evaluation_of tr.

(** The iteration and the evaluation loss of a log record. *)
Definition record_key (r : log_record) : option Z * pyfloat :=
  (Some (lr_iteration r), lr_eval_loss r).

(** ** Training mode and evaluation mode *)

(** Reading a sequence of calls from a model in evaluation mode
    ([in_eval]) or in training mode: [evaluate] is entered from training
    mode only and [model.train()] leaves it; a forward pass of the model
    has the mode of the moment, with gradient tracking on exactly in
    training mode; a forward pass of the encoder is in evaluation mode
    with gradient tracking off; the backward pass, the optimizer step,
    [zero_grad] and the update of the training logger happen in training
    mode only.  The result is the mode at the end, or [None] if a call
    broke one of these rules. *)
Fixpoint mode_after (in_eval : bool) (tr : list event) : option bool :=
  match tr with
  | [] => Some in_eval
  | e :: r =>
      match e with
      | EvEvaluate => if in_eval then None else mode_after true r
      | EvTrainMode => mode_after false r
      | EvForward ModelId mode g =>
          if Bool.eqb mode (negb in_eval) && Bool.eqb g (negb in_eval)
          then mode_after in_eval r else None
      | EvForward EncoderId mode g =>
          if negb mode && negb g then mode_after in_eval r else None
      | EvBackward | EvOptStep | EvZeroGrad | EvMetricUpdate _ =>
          if in_eval then None else mode_after in_eval r
      | EvPrint _ | EvSave _ _ | EvLog => mode_after in_eval r
      end
  end.

(** ** What the training logger holds *)

(** The updates of the training logger in a run, in order: the value of
    [it] and the loss recorded. *)
Definition metric_of (se : option Z * event) : list (option Z * pyfloat) :=
  match snd se with
  | EvMetricUpdate v => [(fst se, v)]
  | _ => []
  end.

Definition metrics (tr : list (option Z * event))
    : list (option Z * pyfloat) :=
  flat_map metric_of tr.

Definition stamp_in (lo hi : Z) (s : option Z) : bool :=
  match s with
  | Some k => (lo <=? k) && (k <=? hi)
  | None => false
  end.

(** The losses recorded in the turns with index from [lo] to [hi]. *)
Definition losses_between (lo hi : Z) (tr : list (option Z * event))
    : list pyfloat :=
  List.map snd (List.filter (fun sv => stamp_in lo hi (fst sv)) (metrics tr)).

(** The index of the first turn after the last evaluation/checkpoint
    phase among the first [n] turns; 0 if there was none. *)
Fixpoint interval_start (sf : Z) (n : nat) : Z :=
  match n with
  | O => 0
  | S m => if cadence sf (Z.of_nat m) then Z.of_nat (S m)
           else interval_start sf m
  end.

(** A logger created empty and updated with the losses [vs]. *)
Definition logger_of (vs : list pyfloat) : gmap string meter :=
  fold_left (fun ml v => logger_update "loss" v ml) vs ∅.

(** The training statistics written to the log by the phase at index [j]:
    the averages of a logger holding the losses of the turns from the
    first one after the previous phase to [j] itself. *)
Definition logged_train_stats (sf : Z) (tr : list (option Z * event))
    (j : Z) : gmap string pyfloat :=
  kmap (String.append "train_")
    (omap global_avg
       (logger_of (losses_between (interval_start sf (Z.to_nat j)) j tr))).

(** What the training logger and the log hold after [k] turns. *)
Definition logger_ok (sf : Z) (k : nat) (w : world) : Prop :=
  List.map fst (metrics (trace w)) = List.map Some (indices 0 k) /\
  metric_logger w =
    logger_of (losses_between (interval_start sf k) (Z.of_nat k - 1)
                 (trace w)) /\
  Forall (fun r => 0 <= lr_iteration r < Z.of_nat k /\
                   lr_train r =
                   logged_train_stats sf (trace w) (lr_iteration r))
    (log_file w).

(** ** The files of a run *)

(** What a run whose checkpoint path is [path] may do to the files
    between [w] and [w']: no checkpoint file other than the one at [path]
    changes; the log is only appended to; and off the main process
    neither the checkpoint files nor the log change. *)
Definition files_rel (path : string) (is_main : bool) (w w' : world)
    : Prop :=
  (forall p, p <> path -> checkpoints w' !! p = checkpoints w !! p) /\
  (exists ext, log_file w' = log_file w ++ ext) /\
  (is_main = false ->
   checkpoints w' = checkpoints w /\ log_file w' = log_file w).

(** ** The length of the validation epoch *)

(** [a // b] on Python ints: floor division, [ZeroDivisionError] when
    [b = 0]. *)
Definition py_floordiv {S} (a b : Z) : M S Z :=
  if b =? 0 then raise ZeroDivisionError else ret (a / b).

(** [50000 // args.batch_size_per_gpu + 1]: the number of batches that
    [main] of [train_recognition.py] passes to [with_epoch] for the
    validation loader. *)
Definition val_epoch_batches {S} (batch_size_per_gpu : Z) : M S Z :=
  let! q := py_floordiv 50000 batch_size_per_gpu in
  ret (q + 1).

(** * Properties *)

(** * Facts *)

(** ** The monad *)

Lemma bind_Val {S A B} (m : M S A) (f : A -> M S B) s b s' :
  bind m f s = (Val b, s') ->
  exists a s1, m s = (Val a, s1) /\ f a s1 = (Val b, s').
Proof.
  unfold bind. destruct (m s) as [[a|c|e] s1]; intros H;
    [eauto | discriminate H ..].
Qed.

Lemma bind_eq {S A B} (m : M S A) (f : A -> M S B) s a s1 :
  m s = (Val a, s1) -> bind m f s = f a s1.
Proof. intros H. unfold bind. now rewrite H. Qed.

Section Preserves.
Context (R : world -> world -> Prop).
Hypothesis R_refl : forall w, R w w.
Hypothesis R_trans : forall w1 w2 w3, R w1 w2 -> R w2 w3 -> R w1 w3.

Lemma preserves_ret {A} (a : A) : preserves R (ret a).
Proof. intros w r w' H. inversion H. apply R_refl. Qed.

Lemma preserves_raise {A} e : preserves R (@raise world A e).
Proof. intros w r w' H. inversion H. apply R_refl. Qed.

Lemma preserves_sys_exit {A} c : preserves R (@sys_exit world A c).
Proof. intros w r w' H. inversion H. apply R_refl. Qed.

Lemma preserves_gets {A} (f : world -> A) : preserves R (gets f).
Proof. intros w r w' H. inversion H. apply R_refl. Qed.

Lemma preserves_modify (f : world -> world) :
  (forall w, R w (f w)) -> preserves R (modify f).
Proof. intros Hf w r w' H. inversion H. apply Hf. Qed.

Lemma preserves_bind {A B} (m : M world A) (f : A -> M world B) :
  preserves R m -> (forall a, preserves R (f a)) -> preserves R (bind m f).
Proof.
  intros Hm Hf w r w' H. unfold bind in H.
  destruct (m w) as [[a|c|e] w1] eqn:E.
  - eapply R_trans; [eapply Hm, E | eapply Hf, H].
  - inversion H; subst. eapply Hm, E.
  - inversion H; subst. eapply Hm, E.
Qed.

Lemma preserves_py_mod a b : preserves R (py_mod a b).
Proof.
  unfold py_mod. destruct (b =? 0);
    [apply preserves_raise | apply preserves_ret].
Qed.

Lemma preserves_dict_get {A} k (d : gmap string A) :
  preserves R (dict_get k d).
Proof.
  unfold dict_get. destruct (d !! k);
    [apply preserves_ret | apply preserves_raise].
Qed.

Lemma preserves_logger_attr k ml : preserves R (logger_attr k ml).
Proof.
  unfold logger_attr. destruct (ml !! k);
    [apply preserves_ret | apply preserves_raise].
Qed.

Lemma preserves_read_global_avg m : preserves R (read_global_avg m).
Proof.
  unfold read_global_avg. destruct (global_avg m);
    [apply preserves_ret | apply preserves_raise].
Qed.

Lemma preserves_global_avgs ml : preserves R (global_avgs ml).
Proof.
  unfold global_avgs. destruct (decide _);
    [apply preserves_ret | apply preserves_raise].
Qed.

Lemma preserves_for_enumerate {A} (body : Z -> A -> M world unit) :
  (forall i x, preserves R (body i x)) ->
  forall xs i, preserves R (for_enumerate body i xs).
Proof.
  intros Hb xs. induction xs as [|x xs IH]; intros i; simpl.
  - apply preserves_ret.
  - apply preserves_bind; [apply Hb | intros _; apply IH].
Qed.

End Preserves.

(** ** Quiet computations *)

Lemma frozen_opt_refl o : frozen_opt o o.
Proof. destruct o; simpl; [repeat split | exact I]. Qed.

Lemma frozen_opt_trans o1 o2 o3 :
  frozen_opt o1 o2 -> frozen_opt o2 o3 -> frozen_opt o1 o3.
Proof.
  destruct o1, o2, o3; simpl; try tauto.
  unfold frozen. intros (?&?&?) (?&?&?). repeat split; congruence.
Qed.

Lemma frozen_opt_set_buffers o b : frozen_opt o (set_buffers b <$> o).
Proof. destruct o; simpl; [repeat split | exact I]. Qed.

Lemma quiet_rel_refl w : quiet_rel w w [].
Proof.
  split; try reflexivity; [apply frozen_opt_refl | simpl; now rewrite app_nil_r].
Qed.

Lemma quiet_rel_trans w1 w2 w3 q1 q2 :
  quiet_rel w1 w2 q1 -> quiet_rel w2 w3 q2 -> quiet_rel w1 w3 (q1 ++ q2).
Proof.
  intros H1 H2. split;
    try (etransitivity; [apply H2 | apply H1]).
  - eapply frozen_opt_trans; [apply H1 | apply H2].
  - rewrite (qr_trace _ _ _ H2), (qr_trace _ _ _ H1), (qr_it _ _ _ H1),
      List.map_app, app_assoc. reflexivity.
Qed.

Lemma qrel_refl ok w : qrel ok w w.
Proof. exists []. split; [apply quiet_rel_refl | reflexivity]. Qed.

Lemma qrel_trans ok w1 w2 w3 : qrel ok w1 w2 -> qrel ok w2 w3 -> qrel ok w1 w3.
Proof.
  intros (q1 & H1 & F1) (q2 & H2 & F2). exists (q1 ++ q2). split.
  - eapply quiet_rel_trans; eassumption.
  - rewrite forallb_app, F1, F2. reflexivity.
Qed.

Lemma qrel_emit ok e : ok e = true -> preserves (qrel ok) (emit e).
Proof.
  intros He w r w' H. inversion H; subst. exists [e]. split.
  - split; try reflexivity. apply frozen_opt_refl.
  - simpl. now rewrite He.
Qed.

Lemma qrel_set_grad_enabled ok b w : qrel ok w (set_grad_enabled b w).
Proof.
  exists []. split; [|reflexivity].
  split; try reflexivity; [apply frozen_opt_refl | simpl; now rewrite app_nil_r].
Qed.

Lemma qrel_set_model_buffers ok b w : qrel ok w (set_model (set_buffers b) w).
Proof.
  exists []. split; [|reflexivity].
  split; try reflexivity; [apply frozen_opt_refl | simpl; now rewrite app_nil_r].
Qed.

Lemma qrel_set_model_training ok b w :
  qrel ok w (set_model (set_training b) w).
Proof.
  exists []. split; [|reflexivity].
  split; try reflexivity; [apply frozen_opt_refl | simpl; now rewrite app_nil_r].
Qed.

Lemma qrel_set_encoder_buffers ok b w :
  qrel ok w (set_encoder (fmap (set_buffers b)) w).
Proof.
  exists []. split; [|reflexivity].
  split; try reflexivity;
    [apply frozen_opt_set_buffers | simpl; now rewrite app_nil_r].
Qed.

Lemma qrel_no_grad {A} ok (body : M world A) :
  preserves (qrel ok) body -> preserves (qrel ok) (no_grad body).
Proof.
  intros Hb w r w' H. unfold no_grad in H.
  destruct (body (set_grad_enabled false w)) as [r1 w1] eqn:E.
  inversion H; subst.
  eapply qrel_trans; [apply qrel_set_grad_enabled |].
  eapply qrel_trans; [eapply Hb, E | apply qrel_set_grad_enabled].
Qed.

#[local] Hint Resolve qrel_refl qrel_trans : core.

(** ** Forward passes *)

Section ForwardFacts.
Context `{K : Kernels}.

Lemma model_call_eq x w :
  model_call x w =
  (Val {| data :=
            fst (forward (training (model w)) (weights (model w))
                   (buffers (model w)) (data x));
          leaves := (if grad_enabled w then [ModelId] else []) ++ leaves x |},
   set_model
     (set_buffers
        (snd (forward (training (model w)) (weights (model w))
                (buffers (model w)) (data x))))
     (set_trace
        (fun t => t ++ [(it w, EvForward ModelId (training (model w))
                                 (grad_enabled w))]) w)).
Proof.
  unfold model_call, bind, gets, emit, modify, ret. simpl.
  destruct (forward _ _ _ _) as [y b]. reflexivity.
Qed.

Lemma encoder_call_eq x w m :
  encoder w = Some m ->
  encoder_call x w =
  (Val {| data :=
            fst (forward_encoder (training m) (weights m) (buffers m)
                   (data x));
          leaves := (if grad_enabled w then [EncoderId] else []) ++ leaves x |},
   set_encoder
     (fmap (set_buffers
        (snd (forward_encoder (training m) (weights m) (buffers m)
                (data x)))))
     (set_trace
        (fun t => t ++ [(it w, EvForward EncoderId (training m)
                                 (grad_enabled w))]) w)).
Proof.
  intros E. unfold encoder_call, bind, gets, emit, modify, ret, raise.
  simpl. rewrite E. destruct (forward_encoder _ _ _ _) as [y b]. reflexivity.
Qed.

Lemma encoder_call_none x w :
  encoder w = None ->
  encoder_call x w = (Raised (AttributeError "encoder"), w).
Proof.
  intros E. unfold encoder_call, bind, gets, raise. simpl. now rewrite E.
Qed.

Lemma keeps_refl w : keeps w w.
Proof. repeat split. apply qrel_refl. Qed.

Lemma keeps_trans w1 w2 w3 : keeps w1 w2 -> keeps w2 w3 -> keeps w1 w3.
Proof.
  intros (H1 & T1 & G1) (H2 & T2 & G2). repeat split; try congruence.
  eapply qrel_trans; eassumption.
Qed.

Lemma keeps_emit e : quiet e = true -> preserves keeps (emit e).
Proof.
  intros He w r w' H. split; [eapply qrel_emit; eassumption |].
  inversion H; subst. split; reflexivity.
Qed.

Lemma keeps_model_call x : preserves keeps (model_call x).
Proof.
  intros w r w' H. rewrite model_call_eq in H. inversion H; subst; clear H.
  repeat split.
  eapply qrel_trans; [| apply qrel_set_model_buffers].
  eapply (qrel_emit quiet (EvForward ModelId _ _)); reflexivity.
Qed.

Lemma keeps_encoder_call x : preserves keeps (encoder_call x).
Proof.
  intros w r w' H. destruct (encoder w) as [m|] eqn:E.
  - rewrite (encoder_call_eq _ _ _ E) in H. inversion H; subst; clear H.
    repeat split.
    eapply qrel_trans; [| apply qrel_set_encoder_buffers].
    eapply (qrel_emit quiet (EvForward EncoderId _ _)); reflexivity.
  - rewrite (encoder_call_none _ _ E) in H. inversion H; subst.
    apply keeps_refl.
Qed.

Lemma keeps_print_summary ml : preserves keeps (print_summary ml).
Proof.
  unfold print_summary.
  repeat (apply preserves_bind; [apply keeps_trans | | intros ?]);
    try (apply preserves_logger_attr; apply keeps_refl);
    try (apply preserves_read_global_avg; apply keeps_refl).
  apply keeps_emit. reflexivity.
Qed.

Lemma keeps_cached_evaluate_loop bs :
  forall ml, preserves keeps (Cached.evaluate_loop bs ml).
Proof.
  induction bs as [|b bs IH]; intros ml; simpl.
  - apply preserves_ret, keeps_refl.
  - apply preserves_bind; [apply keeps_trans | | apply IH].
    unfold Cached.evaluate_batch.
    apply preserves_bind; [apply keeps_trans | apply keeps_model_call |].
    intros y. destruct (accuracy _ _). apply preserves_ret, keeps_refl.
Qed.

Lemma keeps_noncached_evaluate_loop bs :
  forall ml, preserves keeps (Noncached.evaluate_loop bs ml).
Proof.
  induction bs as [|b bs IH]; intros ml; simpl.
  - apply preserves_ret, keeps_refl.
  - apply preserves_bind; [apply keeps_trans | | apply IH].
    unfold Noncached.evaluate_batch.
    apply preserves_bind; [apply keeps_trans | apply keeps_encoder_call |].
    intros f.
    apply preserves_bind; [apply keeps_trans | apply keeps_model_call |].
    intros y1.
    apply preserves_bind; [apply keeps_trans | apply keeps_model_call |].
    intros y. destruct (accuracy _ _). apply preserves_ret, keeps_refl.
Qed.

Lemma evaluate_shape {A} (rest : M world A) w r w' :
  preserves keeps rest ->
  (emit EvEvaluate >> no_grad (model_eval >> rest)) w = (r, w') ->
  evaluate_rel w w'.
Proof.
  intros Hrest H. unfold bind at 1 in H. unfold emit, modify in H.
  unfold no_grad in H.
  match type of H with
  | context [(model_eval >> rest) ?w0] =>
      destruct ((model_eval >> rest) w0) as [r1 w1] eqn:E
  end.
  inversion H; subst; clear H.
  unfold bind, model_eval, modify in E.
  match type of E with
  | rest ?w0 = _ => destruct (Hrest w0 _ _ E) as ((q & Hq & Fq) & T & G)
  end.
  exists q. split; [|split; [exact Fq|split]].
  - destruct Hq as [H1 H2 H3 H4 H5 H6 H7 H8 H9 H10 H11 H12].
    split; simpl in *; try assumption.
    rewrite H12. rewrite <- app_assoc. reflexivity.
  - simpl in T |- *. exact T.
  - reflexivity.
Qed.

(** When [evaluate] returns, the line it printed carries the averages it
    returns. *)
Lemma evaluate_shape_Val (loop : M world (gmap string meter)) w stats w' :
  preserves keeps loop ->
  (emit EvEvaluate >>
   no_grad (model_eval >>
            let! ml := loop in
            let ml := synchronize_between_processes ml in
            print_summary ml >> global_avgs ml)) w = (Val stats, w') ->
  exists q a1 a5 l,
    quiet_rel w w' (EvEvaluate :: q) /\ forallb quiet q = true /\
    In (EvPrint (MsgAcc a1 a5 l)) q /\
    stats !! "acc1" = Some a1 /\ stats !! "acc5" = Some a5 /\
    stats !! "loss" = Some l /\
    training (model w') = false /\ grad_enabled w' = grad_enabled w.
Proof.
  intros Hloop H. unfold bind at 1 in H. unfold emit, modify in H.
  unfold no_grad in H.
  match type of H with
  | context [bind model_eval ?k ?w0] =>
      destruct (bind model_eval k w0) as [r1 w1] eqn:E
  end.
  inversion H; subst; clear H.
  apply bind_Val in E as ([] & u0 & E0 & E).
  unfold model_eval, modify in E0. inversion E0; subst; clear E0.
  apply bind_Val in E as (ml & u1 & E1 & E).
  apply Hloop in E1 as ((q & Hq & Fq) & T & G).
  unfold synchronize_between_processes in E.
  apply bind_Val in E as ([] & u2 & E2 & E).
  unfold global_avgs in E. destruct (decide _); [| discriminate E].
  unfold ret in E. inversion E; subst; clear E.
  unfold print_summary in E2.
  apply bind_Val in E2 as (top1 & v1 & G1 & E2).
  apply bind_Val in E2 as (top5 & v2 & G2 & E2).
  apply bind_Val in E2 as (losses & v3 & G3 & E2).
  apply bind_Val in E2 as (a1 & v4 & G4 & E2).
  apply bind_Val in E2 as (a5 & v5 & G5 & E2).
  apply bind_Val in E2 as (l & v6 & G6 & E2).
  unfold logger_attr in G1, G2, G3.
  destruct (ml !! "acc1") eqn:M1; [| discriminate G1].
  destruct (ml !! "acc5") eqn:M5; [| discriminate G2].
  destruct (ml !! "loss") eqn:ML; [| discriminate G3].
  unfold ret in G1, G2, G3.
  inversion G1; inversion G2; inversion G3; subst; clear G1 G2 G3.
  unfold read_global_avg in G4, G5, G6.
  destruct (global_avg top1) eqn:A1; [| discriminate G4].
  destruct (global_avg top5) eqn:A5; [| discriminate G5].
  destruct (global_avg losses) eqn:AL; [| discriminate G6].
  unfold ret in G4, G5, G6.
  inversion G4; inversion G5; inversion G6; subst; clear G4 G5 G6.
  unfold emit, modify in E2. inversion E2; subst; clear E2.
  exists (q ++ [EvPrint (MsgAcc a1 a5 l)]), a1, a5, l.
  destruct Hq as [H1 H2 H3 H4 H5 H6 H7 H8 H9 H10 H11 H12].
  simpl in *.
  split; [split; simpl; try assumption |].
  { rewrite H12, H9. simpl. rewrite List.map_app. simpl.
    rewrite <- !app_assoc. reflexivity. }
  split. { rewrite forallb_app, Fq. reflexivity. }
  split. { apply List.in_or_app. right. left. reflexivity. }
  rewrite !lookup_omap, M1, M5, ML. simpl.
  repeat split; assumption.
Qed.

Lemma cached_evaluate_Val bs w stats w' :
  Cached.evaluate bs w = (Val stats, w') ->
  exists q a1 a5 l,
    quiet_rel w w' (EvEvaluate :: q) /\ forallb quiet q = true /\
    In (EvPrint (MsgAcc a1 a5 l)) q /\
    stats !! "acc1" = Some a1 /\ stats !! "acc5" = Some a5 /\
    stats !! "loss" = Some l /\
    training (model w') = false /\ grad_enabled w' = grad_enabled w.
Proof. apply evaluate_shape_Val, keeps_cached_evaluate_loop. Qed.

Lemma noncached_evaluate_Val bs w stats w' :
  Noncached.evaluate bs w = (Val stats, w') ->
  exists q a1 a5 l,
    quiet_rel w w' (EvEvaluate :: q) /\ forallb quiet q = true /\
    In (EvPrint (MsgAcc a1 a5 l)) q /\
    stats !! "acc1" = Some a1 /\ stats !! "acc5" = Some a5 /\
    stats !! "loss" = Some l /\
    training (model w') = false /\ grad_enabled w' = grad_enabled w.
Proof. apply evaluate_shape_Val, keeps_noncached_evaluate_loop. Qed.

Lemma cached_evaluate_rel bs w r w' :
  Cached.evaluate bs w = (r, w') -> evaluate_rel w w'.
Proof.
  apply evaluate_shape.
  apply preserves_bind;
    [apply keeps_trans | apply keeps_cached_evaluate_loop |].
  intros ml. apply preserves_bind;
    [apply keeps_trans | apply keeps_print_summary |].
  intros _. apply preserves_global_avgs, keeps_refl.
Qed.

Lemma noncached_evaluate_rel bs w r w' :
  Noncached.evaluate bs w = (r, w') -> evaluate_rel w w'.
Proof.
  apply evaluate_shape.
  apply preserves_bind;
    [apply keeps_trans | apply keeps_noncached_evaluate_loop |].
  intros ml. apply preserves_bind;
    [apply keeps_trans | apply keeps_print_summary |].
  intros _. apply preserves_global_avgs, keeps_refl.
Qed.

End ForwardFacts.

(** ** The evaluation/checkpoint phase *)

Ltac bind_step H x s Hx :=
  apply bind_Val in H as (x & s & Hx & H).

Ltac prim H :=
  unfold emit, modify, gets, ret in H; inversion H; subst; clear H.

Lemma dict_get_Val {S A} k (d : gmap string A) (s s' : S) v :
  dict_get k d s = (Val v, s') -> d !! k = Some v /\ s' = s.
Proof.
  unfold dict_get. destruct (d !! k); intros H; inversion H. auto.
Qed.

Lemma global_avgs_Val {S} ml (s s' : S) v :
  global_avgs ml s = (Val v, s') -> v = omap global_avg ml /\ s' = s.
Proof.
  unfold global_avgs. destruct (decide _); intros H; inversion H. auto.
Qed.

Lemma py_mod_Val {S} a b (s s' : S) v :
  py_mod a b s = (Val v, s') -> b <> 0 /\ v = a `mod` b /\ s' = s.
Proof.
  unfold py_mod. destruct (b =? 0) eqn:E; intros H; inversion H.
  apply Z.eqb_neq in E. auto.
Qed.

Lemma phase_rel_intro P i w w' q acc1 acc5 loss tail :
  tail = phase_events (p_path P) (p_main P) q
           (float_gt acc1 (best_eval_acc1 w)) acc1 ->
  forallb quiet q = true ->
  In (EvPrint (MsgAcc acc1 acc5 loss)) q ->
  best_eval_acc1 w' =
    (if float_gt acc1 (best_eval_acc1 w) then acc1 else best_eval_acc1 w) ->
  checkpoints w' =
    (if float_gt acc1 (best_eval_acc1 w) && p_main P
     then <[p_path P := make_save_dict i w']> (checkpoints w)
     else checkpoints w) ->
  training (model w') = true ->
  metric_logger w' = ∅ ->
  phase_rel P i acc1 w w' tail.
Proof. intros ->. apply phase_run. Qed.

Section PhaseFacts.
Context `{K : Kernels}.

Ltac phase_case P q acc1 Egt Emain Q9 Q10 Q12 Hit :=
  split;
  [ eapply (phase_rel_intro P) with (q := q) (acc1 := acc1);
    simpl; rewrite ?Egt, ?Emain; simpl;
    try reflexivity; try eassumption; try congruence;
    rewrite Q10; reflexivity
  | unfold phase_frame, phase_events; simpl;
    rewrite Q12, Q9, Hit; simpl; rewrite <- !app_assoc; simpl;
    rewrite List.map_app; simpl;
    repeat split; assumption ].

Ltac phase_proof H Hit lem P path main :=
  let x0 := fresh in let w0 := fresh in let H0 := fresh in
  bind_step H x0 w0 H0; prim H0;
  let stats := fresh "stats" in let w1 := fresh in let H1 := fresh in
  bind_step H stats w1 H1;
  let q := fresh "q" in let Hq := fresh in let Fq := fresh in
  let Tq := fresh in let Gq := fresh in
  let a1 := fresh "a1" in let a5 := fresh "a5" in let l := fresh "l" in
  let Hin := fresh "Hin" in let S1 := fresh in let S5 := fresh in
  let SL := fresh in
  pose proof H1 as Hev;
  apply lem in H1 as (q & a1 & a5 & l & Hq & Fq & Hin & S1 & S5 & SL & Tq & Gq);
  let acc1 := fresh "acc1" in let w2 := fresh in let H2 := fresh in
  let Hacc := fresh in
  bind_step H acc1 w2 H2; apply dict_get_Val in H2 as (Hacc & ->);
  assert (a1 = acc1) by congruence; subst a1;
  let best := fresh in let w2' := fresh in let H2' := fresh in
  bind_step H best w2' H2'; prim H2';
  let x3 := fresh in let w3 := fresh in let H3 := fresh "Hsave" in
  bind_step H x3 w3 H3;
  let x4 := fresh in let w4 := fresh in let H4 := fresh in
  bind_step H x4 w4 H4; prim H4;
  let ml := fresh in let w4a := fresh in let H4a := fresh in
  bind_step H ml w4a H4a; prim H4a;
  let ts := fresh in let w4b := fresh in let H4b := fresh in
  bind_step H ts w4b H4b; apply global_avgs_Val in H4b as (-> & ->);
  let el := fresh in let w4c := fresh in let H4c := fresh in
  let Hloss := fresh in
  bind_step H el w4c H4c; apply dict_get_Val in H4c as (Hloss & ->);
  let x5 := fresh in let w5 := fresh in let H5 := fresh "Hlog" in
  bind_step H x5 w5 H5;
  let x6 := fresh in let w6 := fresh in let H6 := fresh in
  bind_step H x6 w6 H6; prim H6;
  unfold model_train in H;
  let x7 := fresh in let w7 := fresh in let H7 := fresh in
  bind_step H x7 w7 H7; prim H7; prim H;
  let Q1 := fresh in let Q2 := fresh in let Q3 := fresh in
  let Q4 := fresh in let Q5 := fresh in let Q6 := fresh in
  let Q7 := fresh in let Q8 := fresh in let Q9 := fresh in
  let Q10 := fresh in let Q11 := fresh in let Q12 := fresh in
  destruct Hq as [Q1 Q2 Q3 Q4 Q5 Q6 Q7 Q8 Q9 Q10 Q11 Q12];
  simpl in Q1, Q2, Q3, Q4, Q5, Q6, Q7, Q8, Q9, Q10, Q11, Q12, Gq;
  rewrite Hit in Q12;
  match goal with
  | w : world |- _ =>
      match type of Hit with it w = _ =>
        exists (phase_events path main q
                  (float_gt acc1 (best_eval_acc1 w)) acc1), stats, acc1;
        split; [exact Hacc |]; split; [eexists; exact Hev |];
        rewrite Q8 in H3;
        let Egt := fresh "Egt" in let Emain := fresh "Emain" in
        destruct (float_gt acc1 (best_eval_acc1 w)) eqn:Egt;
        [ let y := fresh in let v := fresh in let G := fresh in
          bind_step H3 y v G; prim G;
          let y := fresh in let v := fresh in let G := fresh in
          bind_step H3 y v G; prim G;
          let y := fresh in let v := fresh in let G := fresh in
          bind_step H3 y v G; prim G;
          let y3 := fresh in let v3 := fresh in let G3 := fresh in
          bind_step H3 y3 v3 G3;
          let y := fresh in let v := fresh in let G := fresh in
          let G' := fresh in
          bind_step H3 y v G; apply dict_get_Val in G as (G' & ->);
          prim H3;
          destruct main eqn:Emain;
          [ unfold save_on_master in G3; prim G3;
            let z := fresh in let u := fresh in let J := fresh in
            bind_step H5 z u J; prim J; prim H5
          | unfold save_on_master in G3; prim G3; prim H5 ]
        | prim H3;
          destruct main eqn:Emain;
          [ let z := fresh in let u := fresh in let J := fresh in
            bind_step H5 z u J; prim J; prim H5
          | prim H5 ] ];
        phase_case P q acc1 Egt Emain Q9 Q10 Q12 Hit
      end
  end.

Lemma cached_eval_phase_rel a e i w w' :
  it w = Some i ->
  Cached.eval_phase a e i w = (Val tt, w') ->
  exists tail stats acc1,
    stats !! "acc1" = Some acc1 /\
    (exists w1,
       Cached.evaluate (Cached.val_loader e)
         (snd (emit (EvPrint MsgEvaluating) w)) = (Val stats, w1)) /\
    phase_rel (cached_params a e) i acc1 w w' tail /\
    phase_frame i w w' tail.
Proof.
  intros Hit H. unfold Cached.eval_phase in H.
  phase_proof H Hit cached_evaluate_Val (cached_params a e)
    (Cached.checkpoint_path a) (Cached.is_main_process e).
Qed.

Lemma noncached_eval_phase_rel a e i w w' :
  it w = Some i ->
  Noncached.eval_phase a e i w = (Val tt, w') ->
  exists tail stats acc1,
    stats !! "acc1" = Some acc1 /\
    (exists w1,
       Noncached.evaluate (Noncached.val_loader e)
         (snd (emit (EvPrint MsgEvaluating) w)) = (Val stats, w1)) /\
    phase_rel (noncached_params a e) i acc1 w w' tail /\
    phase_frame i w w' tail.
Proof.
  intros Hit H. unfold Noncached.eval_phase in H.
  phase_proof H Hit noncached_evaluate_Val (noncached_params a e)
    (Noncached.checkpoint_path a) (Noncached.is_main_process e).
Qed.

End PhaseFacts.

(** ** One turn of the training loop *)

Lemma phase_rel_start P i acc1 w0 w w' tail :
  best_eval_acc1 w0 = best_eval_acc1 w ->
  checkpoints w0 = checkpoints w ->
  phase_rel P i acc1 w0 w' tail -> phase_rel P i acc1 w w' tail.
Proof.
  intros Hb Hc H. destruct H as [q a5 l Fq Hin B C T L].
  rewrite Hb in *. rewrite Hc in C.
  eapply phase_rel_intro; eauto.
Qed.

Lemma phase_rel_set_it P i acc1 w w' tail x :
  phase_rel P i acc1 w w' tail -> phase_rel P i acc1 w (set_it x w') tail.
Proof.
  intros H. destruct H as [q a5 l Fq Hin B C T L].
  eapply phase_rel_intro; eauto.
Qed.

Lemma tail_cases (phase : M world unit) sf i w w' :
  (if negb (i =? 0)
   then let! s := py_mod i sf in if s =? 0 then phase else ret tt
   else ret tt) w = (Val tt, w') ->
  (cadence sf i = true /\ phase w = (Val tt, w')) \/
  (cadence sf i = false /\ w' = w).
Proof.
  unfold cadence. destruct (i =? 0); simpl; intros H.
  - right. inversion H. auto.
  - apply bind_Val in H as (s & w1 & H1 & H).
    apply py_mod_Val in H1 as (_ & -> & ->).
    destruct (i `mod` sf =? 0).
    + left. auto.
    + right. inversion H. auto.
Qed.

Section StepFacts.
Context `{K : Kernels}.

Ltac step_tail H phase_lem Eb pre0 v0 :=
  let Hcad := fresh "Hcad" in
  let tail := fresh "tail" in
  let Hrel := fresh "Hrel" in
  let F1 := fresh in let F2 := fresh in let F3 := fresh in
  let F4 := fresh in let F5 := fresh in let F6 := fresh in
  let F7 := fresh in let F8 := fresh in let F9 := fresh in
  apply tail_cases in H as [(Hcad & H) | (Hcad & ->)];
  [ let stats := fresh "stats" in let acc1 := fresh "acc1" in
    let Hs := fresh in let Hev := fresh in
    apply phase_lem in H as (tail & stats & acc1 & Hs & Hev & Hrel & F1);
      [| reflexivity];
    destruct F1 as (F1 & F2 & F3 & F4 & F5 & F6 & F7 & F8 & F9);
    simpl in F1, F2, F3, F4, F5, F6, F7, F8, F9;
    eapply step_run with (pre := pre0) (v := v0) (tail := tail);
    unfold boundary; simpl; rewrite ?Hcad, ?Eb;
    try (exists acc1; eapply phase_rel_start; [| | exact Hrel]; reflexivity);
    try (exists acc1; apply phase_rel_set_it;
         eapply phase_rel_start; [| | exact Hrel]; reflexivity);
    try (rewrite F1; rewrite <- ?app_assoc; simpl; reflexivity)
  | eapply step_run with (pre := pre0) (v := v0) (tail := []);
    unfold boundary; simpl; rewrite ?Hcad, ?Eb;
    try (rewrite <- ?app_assoc; simpl; reflexivity) ];
  try match goal with |- _ <> _ => assumption end;
  try reflexivity; try assumption; try (repeat split; reflexivity);
  try apply frozen_opt_refl; try apply frozen_opt_set_buffers;
  try (eapply frozen_opt_trans; [apply frozen_opt_set_buffers | eassumption]).

Ltac step_core H Hpg Hne Eb accum :=
  let r := fresh in let w1 := fresh in let H1 := fresh in
  bind_step H r w1 H1; apply py_mod_Val in H1 as (Hne & -> & ->);
  let x2 := fresh in let w2 := fresh in let H2 := fresh in
  bind_step H x2 w2 H2;
  let r' := fresh in let w3 := fresh in let H3 := fresh in
  bind_step H r' w3 H3; apply py_mod_Val in H3 as (_ & -> & ->);
  let x4 := fresh in let w4 := fresh in let H4 := fresh in
  bind_step H x4 w4 H4;
  let x5 := fresh in let w5 := fresh in let H5 := fresh in
  bind_step H x5 w5 H5; prim H5;
  let x6 := fresh in let w6 := fresh in let H6 := fresh in
  bind_step H x6 w6 H6; prim H6;
  unfold loss_scaler_call in H2;
  let y0 := fresh in let v0 := fresh in let G0 := fresh in
  bind_step H2 y0 v0 G0;
  unfold backward in G0; simpl in G0;
  match type of G0 with
  | context [grad_enabled ?w] =>
      let Eg := fresh "Eg" in
      destruct (grad_enabled w) eqn:Eg; simpl in G0; [| discriminate G0]
  end;
  let y1 := fresh in let v1 := fresh in let G1 := fresh in
  bind_step G0 y1 v1 G1; prim G1; prim G0; simpl in H2;
  destruct ((_ + 1) `mod` accum =? 0) eqn:Eb;
  [ unfold optimizer_step in H2;
    let z0 := fresh in let u0 := fresh in let J0 := fresh in
    bind_step H2 z0 u0 J0; prim J0;
    let z1 := fresh in let u1 := fresh in let J1 := fresh in
    bind_step H2 z1 u1 J1; prim J1;
    let z2 := fresh in let u2 := fresh in let J2 := fresh in
    bind_step H2 z2 u2 J2; prim J2; prim H2;
    unfold optimizer_zero_grad in H4;
    let z3 := fresh in let u3 := fresh in let J3 := fresh in
    bind_step H4 z3 u3 J3; prim J3; prim H4
  | prim H2; prim H4 ];
  simpl in H; repeat (rewrite Hpg in H; simpl in H).

Lemma cached_train_step_rel a e i b w w' :
  param_groups w = [ModelId] ->
  Cached.train_step a e i b w = (Val tt, w') ->
  step_rel (cached_params a e) i w w'.
Proof.
  intros Hpg H. unfold Cached.train_step in H.
  bind_step H x0 w0 H0. prim H0.
  bind_step H out w1 H1. rewrite model_call_eq in H1. prim H1.
  simpl in H.
  match type of H with
  | context [isfinite ?v] => destruct (isfinite v) eqn:Efin
  end; simpl in H.
  2:{ bind_step H x1 w1 H1. discriminate H. }
  step_core H Hpg Hne Eb (Cached.accum_iter a);
    step_tail H cached_eval_phase_rel Eb
      [EvForward ModelId (training (model w)) true]
      (criterion
         (forward (training (model w)) (weights (model w))
            (buffers (model w)) (samples b)).1 (targets b)).
Qed.

Lemma noncached_train_step_rel a e i b w w' :
  param_groups w = [ModelId] ->
  Noncached.train_step a e i b w = (Val tt, w') ->
  step_rel (noncached_params a e) i w w'.
Proof.
  intros Hpg H. unfold Noncached.train_step in H.
  bind_step H x0 w0 H0. prim H0.
  bind_step H feats w1 H1. unfold no_grad in H1.
  destruct (encoder w) as [m|] eqn:Eenc.
  2:{ rewrite encoder_call_none in H1 by exact Eenc. discriminate H1. }
  rewrite (encoder_call_eq _ _ m) in H1 by exact Eenc. prim H1.
  bind_step H out w1 H1. rewrite model_call_eq in H1. prim H1.
  simpl in H.
  match type of H with
  | context [isfinite ?v] => destruct (isfinite v) eqn:Efin
  end; simpl in H.
  2:{ bind_step H x1 w1 H1. discriminate H. }
  step_core H Hpg Hne Eb (Noncached.accum_iter a);
    bind_step H xt wt Ht; destruct xt; prim H;
    step_tail Ht noncached_eval_phase_rel Eb
      [EvForward EncoderId (training m) false;
       EvForward ModelId (training (model w)) true]
      (criterion
         (forward (training (model w)) (weights (model w))
            (buffers (model w))
            (forward_encoder (training m) (weights m) (buffers m)
               (samples b)).1).1 (targets b)).
Qed.
End StepFacts.

(** ** Traces *)

Lemma loud_is_backward : loud is_backward.
Proof. intros []; simpl; congruence. Qed.
Lemma loud_is_opt_step : loud is_opt_step.
Proof. intros []; simpl; congruence. Qed.
Lemma loud_is_zero_grad : loud is_zero_grad.
Proof. intros []; simpl; congruence. Qed.
Lemma loud_is_metric_update : loud is_metric_update.
Proof. intros []; simpl; congruence. Qed.
Lemma loud_is_evaluate : loud is_evaluate.
Proof. intros []; simpl; congruence. Qed.
Lemma loud_is_save : loud is_save.
Proof. intros []; simpl; congruence. Qed.

Lemma filter_quiet p q :
  loud p -> forallb quiet q = true -> List.filter p q = [].
Proof.
  intros Hp. induction q as [|e q IH]; simpl; [reflexivity|].
  intros H. apply andb_prop in H as [He Hq].
  destruct (p e) eqn:E; [apply Hp in E; congruence | auto].
Qed.

Lemma stamps_app p t1 t2 : stamps p (t1 ++ t2) = stamps p t1 ++ stamps p t2.
Proof. unfold stamps. now rewrite List.filter_app, List.map_app. Qed.

Lemma stamps_stamped p s evs :
  stamps p (List.map (pair s) evs) =
  List.map (fun _ => s) (List.filter p evs).
Proof.
  unfold stamps. induction evs as [|e evs IH]; simpl; [reflexivity|].
  destruct (p e); simpl; now rewrite IH.
Qed.

Lemma in_stamps p s tr :
  In s (stamps p tr) <-> exists e, In (s, e) tr /\ p e = true.
Proof.
  unfold stamps. rewrite List.in_map_iff. split.
  - intros ([s' e] & <- & H). apply List.filter_In in H as [H1 H2]. eauto.
  - intros (e & H1 & H2). exists (s, e). split; [reflexivity|].
    apply List.filter_In. auto.
Qed.

Lemma filter_step_events p pre b v tail :
  loud p -> forallb quiet pre = true ->
  List.filter p (step_events pre b v tail) =
  List.filter p
    ([EvBackward] ++ (if b then [EvOptStep; EvZeroGrad] else []) ++
     [EvMetricUpdate v]) ++ List.filter p tail.
Proof.
  intros Hp Hq. unfold step_events.
  rewrite !List.filter_app, (filter_quiet p pre Hp Hq), <- !app_assoc.
  reflexivity.
Qed.

Lemma filter_phase_events p path main q saved acc1 :
  loud p -> forallb quiet q = true ->
  List.filter p (phase_events path main q saved acc1) =
  List.filter p
    ([EvEvaluate] ++ (if saved then [EvSave path acc1] else []) ++
     (if main then [EvLog] else []) ++ [EvTrainMode]).
Proof.
  intros Hp Hq. unfold phase_events.
  rewrite !List.filter_app, (filter_quiet p q Hp Hq).
  assert (Hpr : forall m, p (EvPrint m) = false).
  { intros m. destruct (p (EvPrint m)) eqn:E; [| reflexivity].
    apply Hp in E. discriminate E. }
  destruct saved; simpl; rewrite !Hpr; reflexivity.
Qed.

(** What one turn adds to the stamps of the calls of each kind. *)
Lemma step_rel_tail_filter P i w w' p tail :
  loud p ->
  (if cadence (p_save_freq P) i
   then exists acc1, phase_rel P i acc1 w w' tail
   else tail = [] /\
        best_eval_acc1 w' = best_eval_acc1 w /\
        checkpoints w' = checkpoints w /\
        training (model w') = training (model w)) ->
  exists (saved : bool) (acc1 : pyfloat),
    List.filter p tail =
    (if cadence (p_save_freq P) i
     then List.filter p
            ([EvEvaluate] ++
             (if saved then [EvSave (p_path P) acc1] else []) ++
             (if p_main P then [EvLog] else []) ++ [EvTrainMode])
     else []).
Proof.
  intros Hp H. destruct (cadence (p_save_freq P) i).
  - destruct H as (acc1 & [q a5 l Fq _ _ _ _ _]).
    exists (float_gt acc1 (best_eval_acc1 w)), acc1.
    now apply filter_phase_events.
  - destruct H as (-> & _). exists false, NaN. reflexivity.
Qed.

Lemma step_stamps_opt P i w w' :
  step_rel P i w w' ->
  stamps is_opt_step (trace w') =
  stamps is_opt_step (trace w) ++
  (if boundary (p_accum P) i then [Some i] else []).
Proof.
  intros [pre v tail Fq Fin Hne Ht Hph _ _ _ _ _].
  destruct (step_rel_tail_filter P i w w' is_opt_step tail
              loud_is_opt_step Hph) as (saved & acc1 & Htl).
  rewrite Ht, stamps_app, stamps_stamped,
    (filter_step_events _ _ _ _ _ loud_is_opt_step Fq), Htl.
  destruct (boundary _ _), (cadence _ _), saved, (p_main P); reflexivity.
Qed.

Lemma step_stamps_zero P i w w' :
  step_rel P i w w' ->
  stamps is_zero_grad (trace w') =
  stamps is_zero_grad (trace w) ++
  (if boundary (p_accum P) i then [Some i] else []).
Proof.
  intros [pre v tail Fq Fin Hne Ht Hph _ _ _ _ _].
  destruct (step_rel_tail_filter P i w w' is_zero_grad tail
              loud_is_zero_grad Hph) as (saved & acc1 & Htl).
  rewrite Ht, stamps_app, stamps_stamped,
    (filter_step_events _ _ _ _ _ loud_is_zero_grad Fq), Htl.
  destruct (boundary _ _), (cadence _ _), saved, (p_main P); reflexivity.
Qed.

Lemma step_stamps_evaluate P i w w' :
  step_rel P i w w' ->
  stamps is_evaluate (trace w') =
  stamps is_evaluate (trace w) ++
  (if cadence (p_save_freq P) i then [Some i] else []).
Proof.
  intros [pre v tail Fq Fin Hne Ht Hph _ _ _ _ _].
  destruct (step_rel_tail_filter P i w w' is_evaluate tail
              loud_is_evaluate Hph) as (saved & acc1 & Htl).
  rewrite Ht, stamps_app, stamps_stamped,
    (filter_step_events _ _ _ _ _ loud_is_evaluate Fq), Htl.
  destruct (boundary _ _), (cadence _ _), saved, (p_main P); reflexivity.
Qed.

Lemma step_stamps_backward P i w w' :
  step_rel P i w w' ->
  stamps is_backward (trace w') = stamps is_backward (trace w) ++ [Some i].
Proof.
  intros [pre v tail Fq Fin Hne Ht Hph _ _ _ _ _].
  destruct (step_rel_tail_filter P i w w' is_backward tail
              loud_is_backward Hph) as (saved & acc1 & Htl).
  rewrite Ht, stamps_app, stamps_stamped,
    (filter_step_events _ _ _ _ _ loud_is_backward Fq), Htl.
  destruct (boundary _ _), (cadence _ _), saved, (p_main P); reflexivity.
Qed.

(** ** Chains of turns *)

Lemma chain_stamps (R : Z -> world -> world -> Prop) p (sel : Z -> bool) :
  (forall i w w', R i w w' ->
     stamps p (trace w') =
     stamps p (trace w) ++ (if sel i then [Some i] else [])) ->
  forall i n w w', chain R i n w w' ->
    stamps p (trace w') =
    stamps p (trace w) ++ List.map Some (List.filter sel (indices i n)).
Proof.
  intros Hstep i n w w' H. induction H as [i w | i n w w1 w2 H1 H2 IH].
  - simpl. now rewrite app_nil_r.
  - rewrite IH, (Hstep _ _ _ H1). simpl.
    destruct (sel i); simpl; rewrite <- app_assoc; reflexivity.
Qed.

Lemma for_enumerate_chain {A} (body : Z -> A -> M world unit)
    (R : Z -> world -> world -> Prop) (Inv : world -> Prop) :
  (forall i x w w', Inv w -> body i x w = (Val tt, w') ->
     R i w w' /\ Inv w') ->
  forall xs i w w', Inv w ->
    for_enumerate body i xs w = (Val tt, w') ->
    chain R i (length xs) w w' /\ Inv w'.
Proof.
  intros Hb xs. induction xs as [|x xs IH]; intros i w w' HI H; simpl in *.
  - inversion H; subst. split; [constructor | assumption].
  - apply bind_Val in H as ([] & w1 & H1 & H).
    destruct (Hb _ _ _ _ HI H1) as [HR HI1].
    destruct (IH _ _ _ HI1 H) as [HC HI2].
    split; [econstructor; eassumption | assumption].
Qed.

(** ** Start-up *)

Section MainFacts.
Context `{K : Kernels}.

Lemma load_model_Val path id with_opt w r w' :
  load_model path id with_opt w = (Val r, w') ->
  (path = "" /\ w' = w /\ r = None) \/
  (path <> "" /\ exists ck, checkpoints w !! path = Some ck /\ r = Some ck /\
     w' = (if with_opt
           then set_scaler_state (fun _ => ck_scaler ck)
                  (set_opt_steps (fun _ => ck_optimizer ck)
                     (update_module id (load_state_dict (ck_model ck)) w))
           else update_module id (load_state_dict (ck_model ck)) w)).
Proof.
  unfold load_model. destruct (String.eqb path "") eqn:E.
  - apply String.eqb_eq in E. intros H. inversion H. auto.
  - apply String.eqb_neq in E. intros H. right. split; [exact E|].
    apply bind_Val in H as (fs & w1 & H1 & H).
    unfold gets in H1. inversion H1; subst; clear H1.
    destruct (checkpoints w1 !! path) as [ck|]; [| discriminate H].
    exists ck. split; [reflexivity|].
    apply bind_Val in H as ([] & w2 & H2 & H).
    unfold modify in H2. inversion H2; subst; clear H2.
    apply bind_Val in H as ([] & w3 & H3 & H).
    unfold ret in H. inversion H; subst; clear H.
    destruct with_opt.
    + apply bind_Val in H3 as ([] & w4 & H4 & H3).
      unfold modify in H3, H4. inversion H3; inversion H4; subst. auto.
    + unfold ret in H3. inversion H3; subst. auto.
Qed.

Lemma cached_main_chain a e bs fs w :
  Cached.main a e bs (init_world fs) = (Val tt, w) ->
  exists w0,
    start_ok fs (Cached.resume a) w0 /\ it w0 = None /\
    encoder w0 = None /\
    chain (step_rel (cached_params a e)) 0 (length bs) w0 w.
Proof.
  intros H. unfold Cached.main in H.
  bind_step H x0 w0 H0. prim H0.
  bind_step H x1 w1 H1. prim H1.
  bind_step H x2 w2 H2. prim H2.
  bind_step H x3 w3 H3. prim H3.
  bind_step H r w4 H4.
  bind_step H x5 w5 H5. unfold model_train in H5.
  bind_step H5 y5 v5 G5. prim G5. prim H5.
  bind_step H x6 w6 H6. prim H6.
  bind_step H x7 w7 H7. unfold optimizer_zero_grad in H7.
  bind_step H7 y7 v7 G7. prim G7. prim H7.
  bind_step H x8 w8 H8. prim H8.
  apply load_model_Val in H4 as [(Hp & -> & ->) | (Hp & ck & Hck & -> & ->)];
    simpl in H |- *.
  - match type of H with
    | for_enumerate _ _ _ ?w0 = _ => exists w0
    end.
    repeat split; try reflexivity; try (intros; congruence).
    eapply (for_enumerate_chain _ _ (fun w => param_groups w = [ModelId]));
      [| | exact H]; [| reflexivity].
    intros i x u u' Hu Hs. pose proof (cached_train_step_rel _ _ _ _ _ _ Hu Hs) as HR.
    split; [exact HR|]. destruct HR. congruence.
  - match type of H with
    | for_enumerate _ _ _ ?w0 = _ => exists w0
    end.
    repeat split; try reflexivity; try (intros; congruence).
    + intros _. exists ck. simpl in Hck. repeat split; try assumption.
    + eapply (for_enumerate_chain _ _ (fun w => param_groups w = [ModelId]));
        [| | exact H]; [| reflexivity].
      intros i x u u' Hu Hs.
      pose proof (cached_train_step_rel _ _ _ _ _ _ Hu Hs) as HR.
      split; [exact HR|]. destruct HR. congruence.
Qed.

Lemma noncached_main_chain a e bs fs w :
  Noncached.main a e bs (init_world fs) = (Val tt, w) ->
  exists w0 enc0,
    start_ok fs (Noncached.model_ckpt a) w0 /\ it w0 = Some 0 /\
    encoder w0 = Some enc0 /\ training enc0 = false /\ grad enc0 = None /\
    chain (step_rel (noncached_params a e)) 0 (length bs) w0 w.
Proof.
  intros H. unfold Noncached.main in H.
  bind_step H x0 w0 H0. prim H0.
  bind_step H x0' w0' H0'. prim H0'.
  bind_step H x1 w1 H1. prim H1.
  bind_step H x2 w2 H2. prim H2.
  bind_step H x3 w3 H3. prim H3.
  bind_step H r w4 H4.
  bind_step H r' w4' H4'.
  bind_step H x5 w5 H5. unfold model_train in H5.
  bind_step H5 y5 v5 G5. prim G5. prim H5.
  bind_step H x6 w6 H6. prim H6.
  bind_step H x7 w7 H7. unfold optimizer_zero_grad in H7.
  bind_step H7 y7 v7 G7. prim G7. prim H7.
  bind_step H x8 w8 H8. prim H8.
  bind_step H x9 w9 H9. prim H9.
  assert (Hstep : forall i x u u',
            param_groups u = [ModelId] ->
            Noncached.train_step a e i x u = (Val tt, u') ->
            step_rel (noncached_params a e) i u u' /\
            param_groups u' = [ModelId]).
  { intros i x u u' Hu Hs.
    pose proof (noncached_train_step_rel _ _ _ _ _ _ Hu Hs) as HR.
    split; [exact HR|]. destruct HR. congruence. }
  apply load_model_Val in H4 as [(Hp & -> & ->) | (Hp & ck & Hck & -> & ->)];
  apply load_model_Val in H4' as [(Hp' & -> & ->) | (Hp' & ck' & Hck' & -> & ->)];
    simpl in H |- *;
    match type of H with
    | for_enumerate _ _ _ ?w0 = _ => exists w0
    end; simpl; eexists;
    (split; [split; simpl; try reflexivity; try (intros; congruence);
             try (intros _; exists ck; simpl in Hck;
                  repeat split; assumption) |]);
    repeat split; try reflexivity;
    (eapply (for_enumerate_chain _ _ (fun w => param_groups w = [ModelId]));
      [exact Hstep | | exact H]; reflexivity).
Qed.

End MainFacts.

(** ** Counting boundaries *)

Lemma indices_app s m k :
  indices s (m + k) = indices s m ++ indices (s + Z.of_nat m) k.
Proof.
  revert s. induction m as [|m IH]; intros s; simpl.
  - f_equal. lia.
  - f_equal. rewrite IH. do 2 f_equal. lia.
Qed.

Lemma in_indices x s m : In x (indices s m) <-> s <= x < s + Z.of_nat m.
Proof.
  revert s. induction m as [|m IH]; intros s; simpl.
  - lia.
  - rewrite IH. lia.
Qed.

Lemma length_indices s m : length (indices s m) = m.
Proof. revert s. induction m; intros; simpl; auto. Qed.

Lemma div_succ a s :
  0 < a -> (s + 1) / a = s / a + (if (s + 1) `mod` a =? 0 then 1 else 0).
Proof.
  intros Ha.
  pose proof (Z.div_mod (s + 1) a ltac:(lia)) as E.
  pose proof (Z.mod_pos_bound (s + 1) a Ha) as B.
  destruct ((s + 1) `mod` a =? 0) eqn:Z0.
  - apply Z.eqb_eq in Z0.
    assert (s / a = (s + 1) / a - 1); [| lia].
    symmetry. apply (Z.div_unique_pos s a _ (a - 1)); lia.
  - apply Z.eqb_neq in Z0.
    assert (s / a = (s + 1) / a); [| lia].
    symmetry. apply (Z.div_unique_pos s a _ ((s + 1) `mod` a - 1)); lia.
Qed.

Lemma count_boundary a s m :
  0 < a ->
  Z.of_nat (length (List.filter (boundary a) (indices s m))) =
  (s + Z.of_nat m) / a - s / a.
Proof.
  intros Ha. revert s. induction m as [|m IH]; intros s.
  - simpl. replace (s + Z.of_nat 0) with s by lia. lia.
  - cbn [indices List.filter]. unfold boundary at 1.
    pose proof (div_succ a s Ha) as D.
    replace (s + Z.of_nat (S m)) with (s + 1 + Z.of_nat m) by lia.
    destruct ((s + 1) `mod` a =? 0); cbn [length]; rewrite ?Nat2Z.inj_succ, IH; lia.
Qed.

Lemma boundary_window a s :
  0 < a -> length (List.filter (boundary a) (indices s (Z.to_nat a))) = 1%nat.
Proof.
  intros Ha. apply Nat2Z.inj. rewrite count_boundary by exact Ha.
  rewrite Z2Nat.id by lia.
  replace (s + a) with (s + 1 * a) by lia. rewrite Z.div_add by lia. lia.
Qed.

Lemma filter_none {A} (f : A -> bool) l :
  (forall x, In x l -> f x = false) -> List.filter f l = [].
Proof.
  induction l as [|x l IH]; simpl; intros H; [reflexivity|].
  rewrite (H x) by auto. apply IH. auto.
Qed.

Lemma filter_all {A} (f : A -> bool) l :
  (forall x, In x l -> f x = true) -> List.filter f l = l.
Proof.
  induction l as [|x l IH]; simpl; intros H; [reflexivity|].
  rewrite (H x) by auto. f_equal. apply IH. auto.
Qed.

Lemma window_of_indices (sel : Z -> bool) s a N :
  0 <= s -> s + Z.of_nat a <= Z.of_nat N ->
  List.filter (in_window s a)
    (List.map Some (List.filter sel (indices 0 N))) =
  List.map Some (List.filter sel (indices s a)).
Proof.
  intros Hs Hn.
  replace N with (Z.to_nat s + (a + (N - Z.to_nat s - a)))%nat by lia.
  rewrite !indices_app, !List.filter_app, !List.map_app, !List.filter_app.
  rewrite Z2Nat.id by lia. simpl.
  rewrite (filter_none _ (List.map Some (List.filter sel (indices 0 _)))).
  2:{ intros x Hx. apply List.in_map_iff in Hx as (i & <- & Hi).
      apply List.filter_In in Hi as [Hi _]. apply in_indices in Hi.
      simpl. lia. }
  rewrite (filter_none _
             (List.map Some (List.filter sel (indices (s + Z.of_nat a) _)))).
  2:{ intros x Hx. apply List.in_map_iff in Hx as (i & <- & Hi).
      apply List.filter_In in Hi as [Hi _]. apply in_indices in Hi.
      simpl. lia. }
  rewrite filter_all.
  2:{ intros x Hx. apply List.in_map_iff in Hx as (i & <- & Hi).
      apply List.filter_In in Hi as [Hi _]. apply in_indices in Hi.
      simpl. lia. }
  simpl. now rewrite app_nil_r.
Qed.

Lemma boundary_aligned_window a k :
  0 < a -> 0 <= k ->
  List.filter (boundary a) (indices (k * a) (Z.to_nat a)) =
  [k * a + a - 1].
Proof.
  intros Ha Hk.
  pose proof (boundary_window a (k * a) Ha) as L.
  assert (Hin : In (k * a + a - 1)
                  (List.filter (boundary a) (indices (k * a) (Z.to_nat a)))).
  { apply List.filter_In. split.
    - apply in_indices. lia.
    - unfold boundary. apply Z.eqb_eq.
      replace (k * a + a - 1 + 1) with ((k + 1) * a) by lia.
      apply Z.mod_mul. lia. }
  destruct (List.filter _ _) as [|x [|y l]]; simpl in L; try discriminate.
  destruct Hin as [-> | []]. reflexivity.
Qed.

(** ** Clearing after the update *)

Lemma cleared_app a b :
  cleared_after_update a = true ->
  cleared_after_update (a ++ b) = cleared_after_update b.
Proof.
  induction a as [|[i e] a IH]; simpl; [reflexivity|].
  destruct e; try exact IH.
  destruct a as [|[j e'] a']; simpl; [discriminate|].
  destruct e'; try discriminate.
  intros H. apply andb_prop in H as [H1 H2]. rewrite H1. simpl.
  apply (IH H2).
Qed.

Lemma cleared_no_opt l :
  List.filter is_opt_step (List.map snd l) = [] ->
  cleared_after_update l = true.
Proof.
  induction l as [|[i e] l IH]; simpl; [reflexivity|].
  destruct e; simpl; try exact IH. discriminate.
Qed.

Lemma map_snd_stamped {A B} (s : A) (l : list B) :
  List.map snd (List.map (pair s) l) = l.
Proof. induction l; simpl; congruence. Qed.

Lemma stamp_eqb_refl s : stamp_eqb s s = true.
Proof. destruct s; simpl; [apply Z.eqb_refl | reflexivity]. Qed.

Lemma step_cleared P i w w' :
  step_rel P i w w' ->
  cleared_after_update (trace w) = true ->
  cleared_after_update (trace w') = true.
Proof.
  intros [pre v tail Fq Fin Hne Ht Hph _ _ _ _ _] Hc.
  destruct (step_rel_tail_filter P i w w' is_opt_step tail
              loud_is_opt_step Hph) as (saved & acc1 & Htl).
  assert (Htail : List.filter is_opt_step tail = []).
  { rewrite Htl. destruct (cadence _ _), saved, (p_main P); reflexivity. }
  rewrite Ht, (cleared_app _ _ Hc). unfold step_events.
  rewrite List.map_app, cleared_app.
  2:{ apply cleared_no_opt. rewrite map_snd_stamped.
      apply filter_quiet; [exact loud_is_opt_step | exact Fq]. }
  destruct (boundary _ _); simpl; rewrite ?Z.eqb_refl; simpl;
    apply cleared_no_opt; rewrite map_snd_stamped; exact Htail.
Qed.

Lemma chain_inv (R : Z -> world -> world -> Prop) (I : world -> Prop) :
  (forall i w w', R i w w' -> I w -> I w') ->
  forall i n w w', chain R i n w w' -> I w -> I w'.
Proof.
  intros Hs i n w w' H.
  induction H as [|i n w w1 w2 H1 H2 IH]; [auto|].
  intros HI. apply IH. eapply Hs; eassumption.
Qed.

(** ** Gradient accumulation over a run *)

Lemma in_event_stamps p e0 s tr :
  (forall e, p e = true <-> e = e0) ->
  In (s, e0) tr <-> In s (stamps p tr).
Proof.
  intros Hp. rewrite in_stamps. split.
  - intros H. exists e0. split; [exact H | now apply Hp].
  - intros (e & H1 & H2). apply Hp in H2. now subst.
Qed.

Lemma is_opt_step_iff e : is_opt_step e = true <-> e = EvOptStep.
Proof. destruct e; simpl; split; congruence. Qed.
Lemma is_zero_grad_iff e : is_zero_grad e = true <-> e = EvZeroGrad.
Proof. destruct e; simpl; split; congruence. Qed.
Lemma is_backward_iff e : is_backward e = true <-> e = EvBackward.
Proof. destruct e; simpl; split; congruence. Qed.
Lemma is_evaluate_iff e : is_evaluate e = true <-> e = EvEvaluate.
Proof. destruct e; simpl; split; congruence. Qed.

Lemma chain_accumulation P n w0 w :
  1 <= p_accum P ->
  trace w0 = [(None, EvTrainMode); (None, EvZeroGrad)] ->
  chain (step_rel P) 0 n w0 w ->
  accumulation_ok (p_accum P) n (trace w).
Proof.
  intros Ha Ht Hc.
  pose proof (chain_stamps _ is_opt_step (boundary (p_accum P))
                (step_stamps_opt P) _ _ _ _ Hc) as Hopt.
  pose proof (chain_stamps _ is_zero_grad (boundary (p_accum P))
                (step_stamps_zero P) _ _ _ _ Hc) as Hzero.
  rewrite Ht in Hopt, Hzero. simpl in Hopt, Hzero.
  assert (Hmem : forall i,
            In i (List.filter (boundary (p_accum P)) (indices 0 n)) <->
            0 <= i < Z.of_nat n /\ (i + 1) `mod` p_accum P = 0).
  { intros i. rewrite List.filter_In, in_indices. unfold boundary.
    rewrite Z.eqb_eq. lia. }
  assert (Hiff_opt : forall i, In (Some i, EvOptStep) (trace w) <->
            0 <= i < Z.of_nat n /\ (i + 1) `mod` p_accum P = 0).
  { intros i. rewrite (in_event_stamps _ _ _ _ is_opt_step_iff), Hopt.
    rewrite <- Hmem, List.in_map_iff. split.
    - intros (j & Hj & Hin). now inversion Hj; subst.
    - intros Hin. exists i. auto. }
  assert (Hiff_zero : forall i, In (Some i, EvZeroGrad) (trace w) <->
            0 <= i < Z.of_nat n /\ (i + 1) `mod` p_accum P = 0).
  { intros i. rewrite (in_event_stamps _ _ _ _ is_zero_grad_iff), Hzero.
    rewrite <- Hmem. simpl. rewrite List.in_map_iff. split.
    - intros [Hj | (j & Hj & Hin)]; [discriminate | now inversion Hj; subst].
    - intros Hin. right. exists i. auto. }
  unfold accumulation_ok, window_stamps.
  split; [| split; [| split; [| split]]].
  - intros s Hs Hn. rewrite Hopt.
    rewrite (window_of_indices _ s (Z.to_nat (p_accum P)) n) by lia.
    rewrite length_map. apply boundary_window. lia.
  - intros k Hk Hn. rewrite Hopt.
    rewrite (window_of_indices _ (k * p_accum P) (Z.to_nat (p_accum P)) n)
      by nia.
    rewrite boundary_aligned_window by lia. reflexivity.
  - exact Hiff_opt.
  - eapply (chain_inv _ (fun w => cleared_after_update (trace w) = true));
      [| exact Hc |].
    + intros j u u' HR. apply (step_cleared P j u u' HR).
    + rewrite Ht. reflexivity.
  - exact Hiff_zero.
Qed.

(** ** Claims on the training loop *)

Lemma chain_cadence P n w0 w :
  trace w0 = [(None, EvTrainMode); (None, EvZeroGrad)] ->
  chain (step_rel P) 0 n w0 w ->
  cadence_ok (p_save_freq P) n (trace w).
Proof.
  intros Ht Hc.
  pose proof (chain_stamps _ is_evaluate (cadence (p_save_freq P))
                (step_stamps_evaluate P) _ _ _ _ Hc) as Hev.
  rewrite Ht in Hev. simpl in Hev.
  assert (Hiff : forall s, In (s, EvEvaluate) (trace w) <->
            exists i, s = Some i /\ 0 <= i < Z.of_nat n /\
                      i `mod` p_save_freq P = 0 /\ i <> 0).
  { intros s. rewrite (in_event_stamps _ _ _ _ is_evaluate_iff), Hev.
    rewrite List.in_map_iff. split.
    - intros (i & <- & Hin). exists i. split; [reflexivity|].
      apply List.filter_In in Hin as [Hin Hcd]. apply in_indices in Hin.
      unfold cadence in Hcd. apply andb_prop in Hcd as [H1 H2].
      apply negb_true_iff, Z.eqb_neq in H1. apply Z.eqb_eq in H2. lia.
    - intros (i & -> & Hi & Hm & Hz). exists i. split; [reflexivity|].
      apply List.filter_In. split; [apply in_indices; lia|].
      unfold cadence. apply andb_true_intro. split.
      + apply negb_true_iff, Z.eqb_neq. exact Hz.
      + apply Z.eqb_eq. exact Hm. }
  split; [| split].
  - intros i. rewrite Hiff. split.
    + intros (j & Hj & H). inversion Hj; subst. exact H.
    + intros H. exists i. auto.
  - rewrite Hiff. intros (j & Hj & _ & _ & Hz). inversion Hj; subst. lia.
  - rewrite Hiff. intros (j & Hj & _). discriminate Hj.
Qed.

(** C2. For every [save_freq > 0], the loop enters the
    evaluation/checkpoint phase after batch [it] exactly when
    [it % save_freq == 0] and [it != 0]; never at iteration 0.  Both
    drivers. *)
Theorem evaluation_cadence
    `{K : Kernels}
    (a : Cached.args) (e : Cached.env) (bs : list batch)
    (fs : gmap string checkpoint) (w : world)
    (a' : Noncached.args) (e' : Noncached.env) (bs' : list batch)
    (fs' : gmap string checkpoint) (w' : world) :
  0 < Cached.save_freq a ->
  0 < Noncached.save_freq a' ->
  Cached.main a e bs (init_world fs) = (Val tt, w) ->
  Noncached.main a' e' bs' (init_world fs') = (Val tt, w') ->
  cadence_ok (Cached.save_freq a) (length bs) (trace w) /\
  cadence_ok (Noncached.save_freq a') (length bs') (trace w').
Proof.
  intros _ _ H H'. split.
  - apply cached_main_chain in H as (w0 & Hs & _ & _ & Hc).
    apply (chain_cadence (cached_params a e) _ w0 w); [apply Hs | exact Hc].
  - apply noncached_main_chain in H' as (w0 & enc0 & Hs & _ & _ & _ & _ & Hc).
    apply (chain_cadence (noncached_params a' e') _ w0 w');
      [apply Hs | exact Hc].
Qed.

Lemma evaluation_cadence_witness :
  cadence_ok 2 5 (trace (snd Demo.first_run)) /\
  cadence_ok 2 5 (trace (snd Demo.noncached_run)).
Proof.
  apply (evaluation_cadence (K := Demo.kernels)
           Demo.cached_args Demo.cached_env (repeat Demo.good 5) ∅
           (snd Demo.first_run)
           Demo.noncached_args Demo.noncached_env (repeat Demo.good 5) ∅
           (snd Demo.noncached_run)).
  - simpl. lia.
  - simpl. lia.
  - vm_compute. reflexivity.
  - vm_compute. reflexivity.
Defined.

Lemma chain_batch_indices P n w0 w :
  trace w0 = [(None, EvTrainMode); (None, EvZeroGrad)] ->
  chain (step_rel P) 0 n w0 w ->
  batch_indices (trace w) = List.map Some (indices 0 n).
Proof.
  intros Ht Hc. unfold batch_indices.
  pose proof (chain_stamps (step_rel P) is_backward (fun _ => true)) as H.
  rewrite (H (step_stamps_backward P) _ _ _ _ Hc), Ht. simpl.
  rewrite filter_all; auto.
Qed.

(** C5, as the code has it.  A run resumed from a checkpoint restores the
    model, optimizer and scaler state stored in it, and its loop counts
    the batches from 0 whatever iteration the checkpoint stores.  Both
    drivers. *)
Theorem resume_restarts_counter
    `{K : Kernels}
    (a : Cached.args) (e : Cached.env) (bs : list batch)
    (fs : gmap string checkpoint) (w : world)
    (a' : Noncached.args) (e' : Noncached.env) (bs' : list batch)
    (fs' : gmap string checkpoint) (w' : world) :
  Cached.resume a <> "" ->
  Noncached.model_ckpt a' <> "" ->
  Cached.main a e bs (init_world fs) = (Val tt, w) ->
  Noncached.main a' e' bs' (init_world fs') = (Val tt, w') ->
  (exists ck, fs !! Cached.resume a = Some ck /\
     batch_indices (trace w) = List.map Some (indices 0 (length bs)) /\
     (bs = [] ->
      weights (model w) = (ck_model ck).1 /\
      opt_steps w = ck_optimizer ck /\ scaler_state w = ck_scaler ck)) /\
  (exists ck, fs' !! Noncached.model_ckpt a' = Some ck /\
     batch_indices (trace w') = List.map Some (indices 0 (length bs')) /\
     (bs' = [] ->
      weights (model w') = (ck_model ck).1 /\
      opt_steps w' = ck_optimizer ck /\ scaler_state w' = ck_scaler ck)).
Proof.
  intros Hr Hr' H H'. split.
  - apply cached_main_chain in H as (w0 & Hs & _ & _ & Hc).
    destruct (so_resumed _ _ _ Hs Hr) as (ck & Hck & Hw & _ & Ho & Hsc).
    exists ck. split; [exact Hck|]. split.
    + apply (chain_batch_indices (cached_params a e) _ w0 w);
        [apply Hs | exact Hc].
    + intros ->. inversion Hc; subst. auto.
  - apply noncached_main_chain in H' as (w0 & enc0 & Hs & _ & _ & _ & _ & Hc).
    destruct (so_resumed _ _ _ Hs Hr') as (ck & Hck & Hw & _ & Ho & Hsc).
    exists ck. split; [exact Hck|]. split.
    + apply (chain_batch_indices (noncached_params a' e') _ w0 w');
        [apply Hs | exact Hc].
    + intros ->. inversion Hc; subst. auto.
Qed.

Lemma resume_restarts_counter_witness :
  (exists ck,
     checkpoints (snd Demo.first_run) !! Cached.resume Demo.resumed_args =
       Some ck /\
     batch_indices (trace (snd Demo.resumed_run)) =
       List.map Some (indices 0 (length (repeat Demo.good 2))) /\
     (repeat Demo.good 2 = [] ->
      weights (model (snd Demo.resumed_run)) = (ck_model ck).1 /\
      opt_steps (snd Demo.resumed_run) = ck_optimizer ck /\
      scaler_state (snd Demo.resumed_run) = ck_scaler ck)) /\
  (exists ck,
     checkpoints (snd Demo.noncached_run) !!
       Noncached.model_ckpt Demo.noncached_resumed_args = Some ck /\
     batch_indices (trace (snd Demo.noncached_resumed_run)) =
       List.map Some (indices 0 (length (repeat Demo.good 2))) /\
     (repeat Demo.good 2 = [] ->
      weights (model (snd Demo.noncached_resumed_run)) = (ck_model ck).1 /\
      opt_steps (snd Demo.noncached_resumed_run) = ck_optimizer ck /\
      scaler_state (snd Demo.noncached_resumed_run) = ck_scaler ck)).
Proof.
  apply (resume_restarts_counter (K := Demo.kernels)
           Demo.resumed_args Demo.cached_env (repeat Demo.good 2)
           (checkpoints (snd Demo.first_run)) (snd Demo.resumed_run)
           Demo.noncached_resumed_args Demo.noncached_env
           (repeat Demo.good 2)
           (checkpoints (snd Demo.noncached_run))
           (snd Demo.noncached_resumed_run)).
  - vm_compute. discriminate.
  - vm_compute. discriminate.
  - vm_compute. reflexivity.
  - vm_compute. reflexivity.
Defined.

(** C5, as stated, fails: the first run left a checkpoint that stores
    iteration 4; the run resumed from it processes its two batches at the
    indices 0 and 1, which the first run had already used, and not at 5
    and 6. *)
Lemma resume_continues_counter_fails :
  exists ck,
    checkpoints (snd Demo.first_run) !! Cached.resume Demo.resumed_args =
      Some ck /\
    ck_iteration ck = 4 /\
    fst Demo.resumed_run = Val tt /\
    batch_indices (trace (snd Demo.first_run)) =
      [Some 0; Some 1; Some 2; Some 3; Some 4] /\
    batch_indices (trace (snd Demo.resumed_run)) = [Some 0; Some 1] /\
    ~ continues_counter ck 2 (trace (snd Demo.resumed_run)).
Proof.
  eexists. split; [vm_compute; reflexivity|].
  split; [reflexivity|]. split; [vm_compute; reflexivity|].
  split; [vm_compute; reflexivity|]. split; [vm_compute; reflexivity|].
  unfold continues_counter. vm_compute. discriminate.
Qed.

(** ** Fail-fast on a non-finite loss *)

Lemma bind_exit {S A B} (m : M S A) (f : A -> M S B) s c s' :
  m s = (SysExit c, s') -> bind m f s = (SysExit c, s').
Proof. intros H. unfold bind. now rewrite H. Qed.

Section FailFast.
Context `{K : Kernels}.

Lemma cached_train_step_exit a e i b w :
  isfinite (cached_loss_value w b) = false ->
  exists w1 q,
    Cached.train_step a e i b w = (SysExit 1, w1) /\
    quiet_rel (set_it (Some i) w) w1 q /\ forallb quiet q = true.
Proof.
  intros Hf. unfold cached_loss_value in Hf.
  unfold Cached.train_step.
  unfold bind at 1. unfold modify at 1.
  rewrite (bind_eq _ _ _ _ _ (model_call_eq _ _)). simpl.
  rewrite Hf. simpl.
  unfold bind, emit, modify, sys_exit. simpl.
  eexists. eexists [_; _]. split; [reflexivity|]. split.
  - split; simpl; try reflexivity; [apply frozen_opt_refl|].
    rewrite <- app_assoc. reflexivity.
  - reflexivity.
Qed.

Lemma noncached_train_step_exit a e i b w m :
  encoder w = Some m ->
  isfinite (noncached_loss_value w m b) = false ->
  exists w1 q,
    Noncached.train_step a e i b w = (SysExit 1, w1) /\
    quiet_rel (set_it (Some i) w) w1 q /\ forallb quiet q = true.
Proof.
  intros He Hf. unfold noncached_loss_value in Hf.
  unfold Noncached.train_step.
  unfold bind at 1. unfold modify at 1.
  assert (Henc : no_grad
            (encoder_call {| data := samples b; leaves := [] |})
            (set_it (Some i) w) =
          (Val {| data :=
                    (forward_encoder (training m) (weights m) (buffers m)
                       (samples b)).1;
                  leaves := [] |},
           set_grad_enabled (grad_enabled w)
             (set_encoder
                (fmap (set_buffers
                   (forward_encoder (training m) (weights m) (buffers m)
                      (samples b)).2))
                (set_trace
                   (fun t => t ++ [(Some i,
                                    EvForward EncoderId (training m) false)])
                   (set_grad_enabled false (set_it (Some i) w)))))).
  { unfold no_grad. rewrite (encoder_call_eq _ _ m) by exact He.
    reflexivity. }
  rewrite (bind_eq _ _ _ _ _ Henc).
  rewrite (bind_eq _ _ _ _ _ (model_call_eq _ _)). simpl.
  rewrite Hf. simpl.
  unfold bind, emit, modify, sys_exit. simpl.
  eexists. eexists [_; _; _]. split; [reflexivity|]. split.
  - split; simpl; try reflexivity.
    + rewrite He. simpl. repeat split.
    + rewrite <- !app_assoc. reflexivity.
  - reflexivity.
Qed.

End FailFast.

(** C3. A turn of the training loop whose loss is not finite ends the
    process at once with exit status 1: the loop does not go on to the
    next batch, and since the turn began only forward passes and a printed
    line have happened: no scaling, no backward pass, no optimizer step,
    no update of the metric aggregator.  Both drivers. *)
Theorem nonfinite_loss_aborts
    `{K : Kernels}
    (a : Cached.args) (e : Cached.env) (i : Z) (b : batch)
    (bs : list batch) (w : world)
    (a' : Noncached.args) (e' : Noncached.env) (i' : Z) (b' : batch)
    (bs' : list batch) (w' : world) (m : nn_module) :
  isfinite (cached_loss_value w b) = false ->
  encoder w' = Some m ->
  isfinite (noncached_loss_value w' m b') = false ->
  (exists w1 q,
     for_enumerate (Cached.train_step a e) i (b :: bs) w = (SysExit 1, w1) /\
     quiet_rel (set_it (Some i) w) w1 q /\ forallb quiet q = true) /\
  (exists w1 q,
     for_enumerate (Noncached.train_step a' e') i' (b' :: bs') w' =
       (SysExit 1, w1) /\
     quiet_rel (set_it (Some i') w') w1 q /\ forallb quiet q = true).
Proof.
  intros Hf He Hf'. split.
  - destruct (cached_train_step_exit a e i b w Hf) as (w1 & q & H1 & H2 & H3).
    exists w1, q. split; [| auto]. simpl. apply bind_exit. exact H1.
  - destruct (noncached_train_step_exit a' e' i' b' w' m He Hf')
      as (w1 & q & H1 & H2 & H3).
    exists w1, q. split; [| auto]. simpl. apply bind_exit. exact H1.
Qed.

Lemma nonfinite_loss_aborts_witness :
  (exists w1 q,
     for_enumerate
       (Cached.train_step (K := Demo.kernels) Demo.cached_args
          Demo.cached_env)
       3 (Demo.diverged :: [Demo.good]) Demo.loop_state = (SysExit 1, w1) /\
     quiet_rel (set_it (Some 3) Demo.loop_state) w1 q /\
     forallb quiet q = true) /\
  (exists w1 q,
     for_enumerate
       (Noncached.train_step (K := Demo.kernels) Demo.noncached_args
          Demo.noncached_env)
       3 (Demo.diverged :: [Demo.good]) Demo.loop_state = (SysExit 1, w1) /\
     quiet_rel (set_it (Some 3) Demo.loop_state) w1 q /\
     forallb quiet q = true).
Proof.
  apply (nonfinite_loss_aborts (K := Demo.kernels)
           Demo.cached_args Demo.cached_env 3 Demo.diverged [Demo.good]
           Demo.loop_state
           Demo.noncached_args Demo.noncached_env 3 Demo.diverged
           [Demo.good] Demo.loop_state
           (set_training false fresh_module)).
  - reflexivity.
  - reflexivity.
  - reflexivity.
Defined.

(** ** Floats *)

Lemma Qltb_lt a b : Qltb a b = true <-> (a < b)%Q.
Proof. unfold Qltb, Qlt. apply Z.ltb_lt. Qed.

Lemma Qltb_irrefl a : Qltb a a = false.
Proof.
  destruct (Qltb a a) eqn:E; [| reflexivity].
  apply Qltb_lt in E. exfalso. exact (Qlt_irrefl a E).
Qed.

Lemma float_gt_irrefl a : float_gt a a = false.
Proof. destruct a; simpl; auto using Qltb_irrefl. Qed.

(** Above a best score that is at least 0.0 means above 0.0. *)
Lemma float_gt_above_zero a b :
  float_le (Fin 0) b = true -> float_gt a b = true ->
  float_gt a (Fin 0) = true /\ float_le (Fin 0) a = true.
Proof.
  destruct a as [x| | |], b as [y| | |]; simpl; try discriminate;
    try (intros; split; reflexivity).
  rewrite negb_true_iff. intros Hy Hx.
  apply Qltb_lt in Hx.
  assert (Hy' : (0 <= y)%Q).
  { apply Qnot_lt_le. intros H. apply Qltb_lt in H. congruence. }
  assert (H0 : (0 < x)%Q) by (eapply Qle_lt_trans; eassumption).
  split.
  - apply Qltb_lt. exact H0.
  - apply negb_true_iff. destruct (Qltb x 0) eqn:E; [| reflexivity].
    apply Qltb_lt in E. exfalso.
    exact (Qlt_irrefl 0 (Qlt_trans _ _ _ H0 E)).
Qed.

(** At most 0.0 does not exceed a best score that is at least 0.0. *)
Lemma float_le_zero_not_gt a b :
  float_le a (Fin 0) = true -> float_le (Fin 0) b = true ->
  float_gt a b = false.
Proof.
  destruct a as [x| | |], b as [y| | |]; simpl; try discriminate;
    try reflexivity.
  rewrite !negb_true_iff. intros Hx Hy.
  destruct (Qltb y x) eqn:E; [| reflexivity].
  apply Qltb_lt in E.
  assert (Hx' : (x <= 0)%Q).
  { apply Qnot_lt_le. intros H. apply Qltb_lt in H. congruence. }
  assert (Hy' : (0 <= y)%Q).
  { apply Qnot_lt_le. intros H. apply Qltb_lt in H. congruence. }
  exfalso. apply (Qlt_irrefl y).
  eapply Qlt_le_trans; [exact E|]. eapply Qle_trans; eassumption.
Qed.

(** ** The checkpoint decision *)

Lemma in_phase_events_save path main q saved acc1 p x :
  forallb quiet q = true ->
  In (EvSave p x) (phase_events path main q saved acc1) <->
  saved = true /\ p = path /\ x = acc1.
Proof.
  intros Fq. unfold phase_events. split.
  - intros H. simpl in H. destruct H as [H | [H | H]]; try discriminate.
    apply List.in_app_or in H as [H | H].
    + rewrite forallb_forall in Fq. apply Fq in H. discriminate H.
    + destruct saved; simpl in H.
      * destruct H as [H | [H | H]]; try discriminate.
        { inversion H. auto. }
        destruct main; simpl in H; intuition discriminate.
      * destruct main; simpl in H; intuition discriminate.
  - intros (-> & -> & ->). simpl. right. right.
    apply List.in_or_app. right. simpl. auto.
Qed.

Lemma phase_rel_decision P i acc1 w w' tail :
  phase_rel P i acc1 w w' tail ->
  trace w' = trace w ++ List.map (pair (Some i)) tail ->
  checkpoint_decision P i acc1 w w'.
Proof.
  intros [q a5 l Fq Hin B C T L] Ht.
  eexists. split; [exact Ht|]. split; [| split; [| split; [| split]]].
  - rewrite (in_phase_events_save _ _ _ _ _ _ _ Fq). intuition.
  - intros p x H. apply (in_phase_events_save _ _ _ _ _ _ _ Fq) in H.
    tauto.
  - exact B.
  - exact C.
  - rewrite B. destruct (float_gt acc1 (best_eval_acc1 w)) eqn:E;
      [apply float_gt_irrefl | exact E].
Qed.

Section CheckpointFacts.
Context `{K : Kernels}.

Lemma cached_phase_decision a e i w w' :
  it w = Some i ->
  Cached.eval_phase a e i w = (Val tt, w') ->
  exists stats acc1 w1,
    Cached.evaluate (Cached.val_loader e)
      (snd (emit (EvPrint MsgEvaluating) w)) = (Val stats, w1) /\
    stats !! "acc1" = Some acc1 /\
    checkpoint_decision (cached_params a e) i acc1 w w'.
Proof.
  intros Hit H.
  destruct (cached_eval_phase_rel a e i w w' Hit H)
    as (tail & stats & acc1 & Hs & (w1 & Hev) & Hrel & Hfr).
  exists stats, acc1, w1. split; [exact Hev|]. split; [exact Hs|].
  eapply phase_rel_decision; [exact Hrel | apply Hfr].
Qed.

Lemma noncached_phase_decision a e i w w' :
  it w = Some i ->
  Noncached.eval_phase a e i w = (Val tt, w') ->
  exists stats acc1 w1,
    Noncached.evaluate (Noncached.val_loader e)
      (snd (emit (EvPrint MsgEvaluating) w)) = (Val stats, w1) /\
    stats !! "acc1" = Some acc1 /\
    checkpoint_decision (noncached_params a e) i acc1 w w'.
Proof.
  intros Hit H.
  destruct (noncached_eval_phase_rel a e i w w' Hit H)
    as (tail & stats & acc1 & Hs & (w1 & Hev) & Hrel & Hfr).
  exists stats, acc1, w1. split; [exact Hev|]. split; [exact Hs|].
  eapply phase_rel_decision; [exact Hrel | apply Hfr].
Qed.

Lemma cached_main_best a e fs w0 :
  Cached.main a e [] (init_world fs) = (Val tt, w0) ->
  best_eval_acc1 w0 = Fin 0.
Proof.
  intros H. apply cached_main_chain in H as (u & Hs & _ & _ & Hc).
  inversion Hc; subst. apply Hs.
Qed.

Lemma noncached_main_best a e fs w0 :
  Noncached.main a e [] (init_world fs) = (Val tt, w0) ->
  best_eval_acc1 w0 = Fin 0.
Proof.
  intros H.
  apply noncached_main_chain in H as (u & enc0 & Hs & _ & _ & _ & _ & Hc).
  inversion Hc; subst. apply Hs.
Qed.

End CheckpointFacts.

(** C4. In every evaluation/checkpoint phase that runs to its end, the
    checkpoint is written exactly when the top-1 accuracy returned by
    [evaluate] exceeds the best value recorded so far; it goes to the one
    per-run path, replacing what was there (on the coordinating process),
    and the best value becomes that accuracy, after which the same
    accuracy no longer exceeds it.  The best value starts at 0.0 in every
    run, resumed or not.  Both drivers. *)
Theorem checkpoint_iff_improved
    `{K : Kernels}
    (a : Cached.args) (e : Cached.env) (i : Z) (w w' : world)
    (a' : Noncached.args) (e' : Noncached.env) (i' : Z) (u u' : world) :
  it w = Some i ->
  it u = Some i' ->
  Cached.eval_phase a e i w = (Val tt, w') ->
  Noncached.eval_phase a' e' i' u = (Val tt, u') ->
  (exists stats acc1 w1,
     Cached.evaluate (Cached.val_loader e)
       (snd (emit (EvPrint MsgEvaluating) w)) = (Val stats, w1) /\
     stats !! "acc1" = Some acc1 /\
     checkpoint_decision (cached_params a e) i acc1 w w') /\
  (exists stats acc1 u1,
     Noncached.evaluate (Noncached.val_loader e')
       (snd (emit (EvPrint MsgEvaluating) u)) = (Val stats, u1) /\
     stats !! "acc1" = Some acc1 /\
     checkpoint_decision (noncached_params a' e') i' acc1 u u') /\
  (forall fs w0,
     Cached.main a e [] (init_world fs) = (Val tt, w0) ->
     best_eval_acc1 w0 = Fin 0) /\
  (forall fs u0,
     Noncached.main a' e' [] (init_world fs) = (Val tt, u0) ->
     best_eval_acc1 u0 = Fin 0).
Proof.
  intros Hw Hu H H'. split; [| split; [| split]].
  - apply cached_phase_decision; assumption.
  - apply noncached_phase_decision; assumption.
  - intros fs w0. apply cached_main_best.
  - intros fs u0. apply noncached_main_best.
Qed.

(** ** A best score that starts at 0.0 *)

Lemma phase_rel_inv P i acc1 w w' tail :
  phase_rel P i acc1 w w' tail ->
  exists q a5 l,
    tail = phase_events (p_path P) (p_main P) q
             (float_gt acc1 (best_eval_acc1 w)) acc1 /\
    forallb quiet q = true /\
    In (EvPrint (MsgAcc acc1 a5 l)) q /\
    best_eval_acc1 w' =
      (if float_gt acc1 (best_eval_acc1 w) then acc1
       else best_eval_acc1 w) /\
    checkpoints w' =
      (if float_gt acc1 (best_eval_acc1 w) && p_main P
       then <[p_path P := make_save_dict i w']> (checkpoints w)
       else checkpoints w).
Proof.
  intros [q a5 l Fq Hin B C T L]. exists q, a5, l. auto.
Qed.

Lemma in_step_events_save pre b v tail p x :
  forallb quiet pre = true ->
  In (EvSave p x) (step_events pre b v tail) -> In (EvSave p x) tail.
Proof.
  intros Fq H. unfold step_events in H.
  apply List.in_app_or in H as [H | H].
  { rewrite forallb_forall in Fq. apply Fq in H. discriminate H. }
  simpl in H. destruct H as [H | H]; [discriminate|].
  destruct b; simpl in H; intuition discriminate.
Qed.

Lemma in_step_events_tail pre b v tail x :
  In x tail -> In x (step_events pre b v tail).
Proof.
  intros H. unfold step_events. rewrite !List.in_app_iff. tauto.
Qed.

Lemma in_phase_events_quiet path main q saved acc1 x :
  In x q -> In x (phase_events path main q saved acc1).
Proof.
  intros H. unfold phase_events. rewrite !List.in_app_iff. tauto.
Qed.

Lemma in_stamped {A B} (s s' : A) (x : B) l :
  In (s', x) (List.map (pair s) l) <-> s' = s /\ In x l.
Proof.
  rewrite List.in_map_iff. split.
  - intros (y & Hy & Hin). inversion Hy; subst. auto.
  - intros (-> & Hin). exists x. auto.
Qed.

Lemma step_saves_above_zero P i w w' :
  step_rel P i w w' ->
  float_le (Fin 0) (best_eval_acc1 w) = true ->
  float_le (Fin 0) (best_eval_acc1 w') = true /\
  (forall s p acc, In (s, EvSave p acc) (trace w') ->
     In (s, EvSave p acc) (trace w) \/ float_gt acc (Fin 0) = true).
Proof.
  intros [pre v tail Fq Fin Hne Ht Hph _ _ _ _ _] Hb.
  destruct (cadence (p_save_freq P) i).
  - destruct Hph as (acc1 & Hph).
    apply phase_rel_inv in Hph as (q & a5 & l & -> & Fq' & Hin & B & C).
    destruct (float_gt acc1 (best_eval_acc1 w)) eqn:E.
    + destruct (float_gt_above_zero _ _ Hb E) as [G1 G2]. split.
      * rewrite B. exact G2.
      * intros s p acc H. rewrite Ht in H.
        apply List.in_app_or in H as [H | H]; [left; exact H|]. right.
        apply in_stamped in H as [_ H].
        apply (in_step_events_save _ _ _ _ _ _ Fq) in H.
        apply (in_phase_events_save _ _ _ _ _ _ _ Fq') in H
          as (_ & _ & ->).
        exact G1.
    + split; [rewrite B; exact Hb|].
      intros s p acc H. rewrite Ht in H.
      apply List.in_app_or in H as [H | H]; [left; exact H|]. exfalso.
      apply in_stamped in H as [_ H].
      apply (in_step_events_save _ _ _ _ _ _ Fq) in H.
      apply (in_phase_events_save _ _ _ _ _ _ _ Fq') in H as (H & _).
      discriminate H.
  - destruct Hph as (-> & B & _). split; [rewrite B; exact Hb|].
    intros s p acc H. rewrite Ht in H.
    apply List.in_app_or in H as [H | H]; [left; exact H|]. exfalso.
    apply in_stamped in H as [_ H].
    apply (in_step_events_save _ _ _ _ _ _ Fq) in H. destruct H.
Qed.

Lemma chain_saves_above_zero P i n w w' :
  chain (step_rel P) i n w w' ->
  float_le (Fin 0) (best_eval_acc1 w) = true ->
  float_le (Fin 0) (best_eval_acc1 w') = true /\
  (forall s p acc, In (s, EvSave p acc) (trace w') ->
     In (s, EvSave p acc) (trace w) \/ float_gt acc (Fin 0) = true).
Proof.
  intros H. induction H as [i w | i n w w1 w2 H1 H2 IH]; intros Hb.
  - auto.
  - destruct (step_saves_above_zero _ _ _ _ H1 Hb) as [Hb1 S1].
    destruct (IH Hb1) as [Hb2 S2]. split; [exact Hb2|].
    intros s p acc Hin. destruct (S2 _ _ _ Hin) as [Hin1 | G]; auto.
Qed.

Lemma chain_trace_ext (R : Z -> world -> world -> Prop) :
  (forall i w w', R i w w' -> exists ext, trace w' = trace w ++ ext) ->
  forall i n w w', chain R i n w w' ->
    exists ext, trace w' = trace w ++ ext.
Proof.
  intros Hs i n w w' H. induction H as [i w | i n w w1 w2 H1 H2 IH].
  - exists []. now rewrite app_nil_r.
  - destruct (Hs _ _ _ H1) as [e1 E1]. destruct IH as [e2 E2].
    exists (e1 ++ e2). rewrite E2, E1, app_assoc. reflexivity.
Qed.

Lemma step_trace_ext P i w w' :
  step_rel P i w w' -> exists ext, trace w' = trace w ++ ext.
Proof. intros [pre v tail _ _ _ Ht _ _ _ _ _ _]. eauto. Qed.

Lemma step_no_improvement P i w w' :
  step_rel P i w w' ->
  float_le (Fin 0) (best_eval_acc1 w) = true ->
  (forall a1 a5 l, In (Some i, EvPrint (MsgAcc a1 a5 l)) (trace w') ->
     float_le a1 (Fin 0) = true) ->
  stamps is_save (trace w') = stamps is_save (trace w) /\
  checkpoints w' = checkpoints w /\
  best_eval_acc1 w' = best_eval_acc1 w.
Proof.
  intros [pre v tail Fq Fin Hne Ht Hph _ _ _ _ _] Hb Hpr.
  rewrite Ht, stamps_app, stamps_stamped,
    (filter_step_events _ _ _ _ _ loud_is_save Fq).
  destruct (cadence (p_save_freq P) i).
  - destruct Hph as (acc1 & Hph).
    apply phase_rel_inv in Hph as (q & a5 & l & -> & Fq' & Hin & B & C).
    assert (E : float_gt acc1 (best_eval_acc1 w) = false).
    { apply float_le_zero_not_gt; [| exact Hb].
      apply (Hpr acc1 a5 l). rewrite Ht.
      apply List.in_or_app. right. apply in_stamped. split; [reflexivity|].
      apply in_step_events_tail, in_phase_events_quiet. exact Hin. }
    rewrite E in B, C |- *. simpl in C.
    rewrite (filter_phase_events _ _ _ _ _ _ loud_is_save Fq').
    split; [| auto].
    destruct (boundary _ _), (p_main P); simpl; now rewrite app_nil_r.
  - destruct Hph as (-> & B & C & _). split; [| auto].
    destruct (boundary _ _); simpl; now rewrite app_nil_r.
Qed.

Lemma chain_no_improvement P i n w w' :
  chain (step_rel P) i n w w' ->
  float_le (Fin 0) (best_eval_acc1 w) = true ->
  (forall s a1 a5 l, In (s, EvPrint (MsgAcc a1 a5 l)) (trace w') ->
     float_le a1 (Fin 0) = true) ->
  stamps is_save (trace w') = stamps is_save (trace w) /\
  checkpoints w' = checkpoints w.
Proof.
  intros H. induction H as [i w | i n w w1 w2 H1 H2 IH]; intros Hb Hpr.
  - auto.
  - destruct (chain_trace_ext _ (step_trace_ext P) _ _ _ _ H2) as [ext E].
    destruct (step_no_improvement _ _ _ _ H1 Hb) as (S1 & C1 & B1).
    { intros a1 a5 l Hin. apply (Hpr (Some i) a1 a5 l).
      rewrite E. apply List.in_or_app. left. exact Hin. }
    destruct IH as (S2 & C2); [rewrite B1; exact Hb | exact Hpr |].
    split; congruence.
Qed.

Lemma chain_zero_score P n fs w0 w :
  trace w0 = [(None, EvTrainMode); (None, EvZeroGrad)] ->
  best_eval_acc1 w0 = Fin 0 ->
  checkpoints w0 = fs ->
  chain (step_rel P) 0 n w0 w ->
  zero_score_ok fs w.
Proof.
  intros Ht Hb Hck Hc.
  assert (Hb0 : float_le (Fin 0) (best_eval_acc1 w0) = true)
    by (rewrite Hb; reflexivity).
  split.
  - intros s p acc Hin.
    destruct (chain_saves_above_zero _ _ _ _ _ Hc Hb0) as [_ S].
    destruct (S _ _ _ Hin) as [H | H]; [| exact H].
    rewrite Ht in H. simpl in H. intuition discriminate.
  - intros Hpr.
    destruct (chain_no_improvement _ _ _ _ _ Hc Hb0 Hpr) as [S C].
    rewrite S, C, Ht, Hck. auto.
Qed.

(** C10. The best score starts at 0.0 and the comparison is strict: in
    every run, [save_on_master] is only ever called for an accuracy above
    0.0, so an evaluation that scores 0.0 or less writes nothing, the
    first one included; and a run none of whose evaluations scores above
    0.0 makes no such call and leaves the checkpoint files as they were.
    Both drivers. *)
Theorem zero_score_never_checkpoints
    `{K : Kernels}
    (a : Cached.args) (e : Cached.env) (bs : list batch)
    (fs : gmap string checkpoint) (w : world)
    (a' : Noncached.args) (e' : Noncached.env) (bs' : list batch)
    (fs' : gmap string checkpoint) (w' : world) :
  Cached.main a e bs (init_world fs) = (Val tt, w) ->
  Noncached.main a' e' bs' (init_world fs') = (Val tt, w') ->
  zero_score_ok fs w /\ zero_score_ok fs' w'.
Proof.
  intros H H'. split.
  - apply cached_main_chain in H as (w0 & Hs & _ & _ & Hc).
    eapply chain_zero_score; [apply Hs | apply Hs | apply Hs | exact Hc].
  - apply noncached_main_chain in H' as (w0 & enc0 & Hs & _ & _ & _ & _ & Hc).
    eapply chain_zero_score; [apply Hs | apply Hs | apply Hs | exact Hc].
Qed.

Lemma checkpoint_iff_improved_witness :
  (exists stats acc1 w1,
     Cached.evaluate (K := Demo.kernels) (Cached.val_loader Demo.cached_env)
       (snd (emit (EvPrint MsgEvaluating) (snd Demo.first_run))) =
       (Val stats, w1) /\
     stats !! "acc1" = Some acc1 /\
     checkpoint_decision (cached_params Demo.cached_args Demo.cached_env) 4
       acc1 (snd Demo.first_run)
       (snd (Cached.eval_phase (K := Demo.kernels) Demo.cached_args
               Demo.cached_env 4 (snd Demo.first_run)))) /\
  (exists stats acc1 u1,
     Noncached.evaluate (K := Demo.kernels)
       (Noncached.val_loader Demo.noncached_env)
       (snd (emit (EvPrint MsgEvaluating) (snd Demo.noncached_run))) =
       (Val stats, u1) /\
     stats !! "acc1" = Some acc1 /\
     checkpoint_decision
       (noncached_params Demo.noncached_args Demo.noncached_env) 5
       acc1 (snd Demo.noncached_run)
       (snd (Noncached.eval_phase (K := Demo.kernels) Demo.noncached_args
               Demo.noncached_env 5 (snd Demo.noncached_run)))) /\
  (forall fs w0,
     Cached.main (K := Demo.kernels) Demo.cached_args Demo.cached_env []
       (init_world fs) = (Val tt, w0) ->
     best_eval_acc1 w0 = Fin 0) /\
  (forall fs u0,
     Noncached.main (K := Demo.kernels) Demo.noncached_args
       Demo.noncached_env [] (init_world fs) = (Val tt, u0) ->
     best_eval_acc1 u0 = Fin 0).
Proof.
  apply (checkpoint_iff_improved (K := Demo.kernels)
           Demo.cached_args Demo.cached_env 4 (snd Demo.first_run) _
           Demo.noncached_args Demo.noncached_env 5
           (snd Demo.noncached_run) _).
  - vm_compute. reflexivity.
  - vm_compute. reflexivity.
  - vm_compute. reflexivity.
  - vm_compute. reflexivity.
Defined.

Lemma zero_score_never_checkpoints_witness :
  zero_score_ok ∅ (snd Demo.first_run) /\
  zero_score_ok ∅ (snd Demo.noncached_run).
Proof.
  apply (zero_score_never_checkpoints (K := Demo.kernels)
           Demo.cached_args Demo.cached_env (repeat Demo.good 5) ∅
           (snd Demo.first_run)
           Demo.noncached_args Demo.noncached_env (repeat Demo.good 5) ∅
           (snd Demo.noncached_run)).
  - vm_compute. reflexivity.
  - vm_compute. reflexivity.
Defined.

(** ** The mode of the model around [evaluate] *)

(** C6, as stated, fails: [evaluate] returns with the model in evaluation
    mode. *)
Lemma evaluate_restores_training_mode_fails :
  ~ restores_training_mode
      (Cached.evaluate (K := Demo.kernels)
         (Cached.val_loader Demo.cached_env)).
Proof.
  intros H.
  pose (rw := Cached.evaluate (K := Demo.kernels)
                (Cached.val_loader Demo.cached_env) Demo.loop_state).
  specialize (H Demo.loop_state (fst rw) (snd rw)).
  assert (E : training (model (snd rw)) = false)
    by (vm_compute; reflexivity).
  rewrite H in E; [discriminate E|].
  subst rw. destruct (Cached.evaluate _ _). reflexivity.
Qed.

(** C6, as the code has it.  [evaluate] switches the model to evaluation
    mode and returns with it in that mode, however it ends; it is the
    caller that switches the model back to training mode, as the last
    step of the evaluation/checkpoint phase.  Both drivers. *)
Theorem evaluate_leaves_eval_mode
    `{K : Kernels}
    (bs : list batch) (w w1 : world) (r : result (gmap string pyfloat))
    (bs' : list batch) (u u1 : world) (r' : result (gmap string pyfloat))
    (a : Cached.args) (e : Cached.env) (i : Z) (v v' : world)
    (a' : Noncached.args) (e' : Noncached.env) (i' : Z) (x x' : world) :
  Cached.evaluate bs w = (r, w1) ->
  Noncached.evaluate bs' u = (r', u1) ->
  it v = Some i ->
  Cached.eval_phase a e i v = (Val tt, v') ->
  it x = Some i' ->
  Noncached.eval_phase a' e' i' x = (Val tt, x') ->
  training (model w1) = false /\ training (model u1) = false /\
  training (model v') = true /\ training (model x') = true.
Proof.
  intros H1 H2 Hv H3 Hx H4. split; [| split; [| split]].
  - apply cached_evaluate_rel in H1 as (q & _ & _ & T & _). exact T.
  - apply noncached_evaluate_rel in H2 as (q & _ & _ & T & _). exact T.
  - destruct (cached_eval_phase_rel a e i v v' Hv H3)
      as (tail & stats & acc1 & _ & _ & Hrel & _).
    destruct Hrel. assumption.
  - destruct (noncached_eval_phase_rel a' e' i' x x' Hx H4)
      as (tail & stats & acc1 & _ & _ & Hrel & _).
    destruct Hrel. assumption.
Qed.

Lemma evaluate_leaves_eval_mode_witness :
  training
    (model (snd (Cached.evaluate (K := Demo.kernels)
                   (Cached.val_loader Demo.cached_env) Demo.loop_state))) =
    false /\
  training
    (model (snd (Noncached.evaluate (K := Demo.kernels)
                   (Noncached.val_loader Demo.noncached_env)
                   Demo.loop_state))) = false /\
  training
    (model (snd (Cached.eval_phase (K := Demo.kernels) Demo.cached_args
                   Demo.cached_env 4 (snd Demo.first_run)))) = true /\
  training
    (model (snd (Noncached.eval_phase (K := Demo.kernels)
                   Demo.noncached_args Demo.noncached_env 5
                   (snd Demo.noncached_run)))) = true.
Proof.
  apply (evaluate_leaves_eval_mode (K := Demo.kernels)
           (Cached.val_loader Demo.cached_env) Demo.loop_state _
           (fst (Cached.evaluate (K := Demo.kernels)
                   (Cached.val_loader Demo.cached_env) Demo.loop_state))
           (Noncached.val_loader Demo.noncached_env) Demo.loop_state _
           (fst (Noncached.evaluate (K := Demo.kernels)
                   (Noncached.val_loader Demo.noncached_env)
                   Demo.loop_state))
           Demo.cached_args Demo.cached_env 4 (snd Demo.first_run) _
           Demo.noncached_args Demo.noncached_env 5
           (snd Demo.noncached_run) _).
  - vm_compute. reflexivity.
  - vm_compute. reflexivity.
  - vm_compute. reflexivity.
  - vm_compute. reflexivity.
  - vm_compute. reflexivity.
  - vm_compute. reflexivity.
Defined.

(** ** The weights of the evaluation metrics *)

Lemma fold_meter_update l c t :
  fold_left (fun m (o : pyfloat * Z) => meter_update o.1 o.2 m) l
    {| count := c; total := t |} =
  {| count := fold_left (fun acc o => acc + o.2) l c;
     total := fold_left
                (fun acc o => float_add acc (float_mul_int o.1 o.2)) l t |}.
Proof.
  revert c t. induction l as [|o l IH]; intros c t; simpl; [reflexivity|].
  unfold meter_update at 2. simpl. apply IH.
Qed.

Lemma global_avg_fold l :
  global_avg
    (fold_left (fun m (o : pyfloat * Z) => meter_update o.1 o.2 m) l
       new_meter) = weighted_mean l.
Proof.
  unfold new_meter. rewrite fold_meter_update.
  unfold global_avg, weighted_mean, weight_sum, weighted_sum. reflexivity.
Qed.

Lemma record_lookup_acc1 ml o :
  record_observation ml o !! "acc1" =
  Some (meter_update (o_acc1 o) (o_size o) (default new_meter (ml !! "acc1"))).
Proof.
  unfold record_observation, logger_update, meters_update.
  rewrite lookup_insert_ne by discriminate.
  rewrite lookup_insert_eq.
  rewrite lookup_insert_ne by discriminate. reflexivity.
Qed.

Lemma record_lookup_acc5 ml o :
  record_observation ml o !! "acc5" =
  Some (meter_update (o_acc5 o) (o_size o) (default new_meter (ml !! "acc5"))).
Proof.
  unfold record_observation, logger_update, meters_update.
  rewrite lookup_insert_eq.
  rewrite lookup_insert_ne by discriminate.
  rewrite lookup_insert_ne by discriminate. reflexivity.
Qed.

Lemma record_lookup_loss ml o :
  record_observation ml o !! "loss" =
  Some (meter_update (o_loss o) 1 (default new_meter (ml !! "loss"))).
Proof.
  unfold record_observation, logger_update, meters_update.
  rewrite lookup_insert_ne by discriminate.
  rewrite lookup_insert_ne by discriminate.
  rewrite lookup_insert_eq. reflexivity.
Qed.

(** A meter of a logger fed with observations holds the fold of its own
    updates. *)
Lemma fold_record_lookup (k : string) (proj : observation -> pyfloat * Z) :
  (forall ml o,
     record_observation ml o !! k =
     Some (meter_update (proj o).1 (proj o).2
             (default new_meter (ml !! k)))) ->
  forall obs ml,
    obs <> [] ->
    fold_left record_observation obs ml !! k =
    Some (fold_left (fun m (o : pyfloat * Z) => meter_update o.1 o.2 m)
            (List.map proj obs) (default new_meter (ml !! k))).
Proof.
  intros Hk obs. induction obs as [|o obs IH]; intros ml Hne;
    [congruence|].
  simpl. destruct obs as [|o' obs'].
  - simpl. apply Hk.
  - rewrite IH by discriminate. rewrite Hk. reflexivity.
Qed.

Lemma stats_of_observations obs (stats : gmap string pyfloat) :
  obs <> [] ->
  stats = omap global_avg (fold_left record_observation obs ∅) ->
  stats !! "acc1" =
    weighted_mean (List.map (fun o => (o_acc1 o, o_size o)) obs) /\
  stats !! "acc5" =
    weighted_mean (List.map (fun o => (o_acc5 o, o_size o)) obs) /\
  stats !! "loss" =
    weighted_mean (List.map (fun o => (o_loss o, 1)) obs).
Proof.
  intros Hne ->. rewrite !lookup_omap.
  rewrite (fold_record_lookup "acc1" (fun o => (o_acc1 o, o_size o))
             record_lookup_acc1 obs ∅ Hne).
  rewrite (fold_record_lookup "acc5" (fun o => (o_acc5 o, o_size o))
             record_lookup_acc5 obs ∅ Hne).
  rewrite (fold_record_lookup "loss" (fun o => (o_loss o, 1))
             record_lookup_loss obs ∅ Hne).
  rewrite !lookup_empty. simpl. rewrite !global_avg_fold. auto.
Qed.

Section WeightFacts.
Context `{K : Kernels}.

Lemma cached_evaluate_loop_obs bs :
  forall ml w, exists w',
    Cached.evaluate_loop bs ml w =
    (Val (fold_left record_observation (cached_observations (model w) bs)
            ml), w').
Proof.
  induction bs as [|b bs IH]; intros ml w; simpl.
  - eexists. reflexivity.
  - unfold Cached.evaluate_batch.
    unfold bind at 1. unfold bind at 1. rewrite model_call_eq. simpl.
    destruct (accuracy _ _) as [a1 a5] eqn:Ea. unfold ret at 1.
    match goal with
    | |- context [Cached.evaluate_loop bs ?ml1 ?w1] =>
        destruct (IH ml1 w1) as [w' E]; rewrite E
    end.
    exists w'. simpl. unfold record_observation. rewrite ?Ea. reflexivity.
Qed.

Lemma cached_sizes m bs :
  List.map o_size (cached_observations m bs) = batch_sizes bs.
Proof.
  revert m. induction bs as [|b bs IH]; intros m; simpl; [reflexivity|].
  now rewrite IH.
Qed.

Lemma noncached_evaluate_loop_obs bs :
  forall ml w enc, encoder w = Some enc ->
    exists w',
      Noncached.evaluate_loop bs ml w =
      (Val (fold_left record_observation
              (noncached_observations enc (model w) bs) ml), w').
Proof.
  induction bs as [|b bs IH]; intros ml w enc He; simpl.
  - eexists. reflexivity.
  - unfold Noncached.evaluate_batch.
    unfold bind at 1. unfold bind at 1.
    rewrite (encoder_call_eq _ _ enc He).
    unfold bind at 1. rewrite model_call_eq. simpl.
    unfold bind at 1. rewrite model_call_eq. simpl.
    destruct (accuracy _ _) as [a1 a5] eqn:Ea. unfold ret at 1.
    match goal with
    | |- context [Noncached.evaluate_loop bs ?ml1 ?w1] =>
        destruct (IH ml1 w1 (set_buffers
                    (forward_encoder (training enc) (weights enc)
                       (buffers enc) (samples b)).2 enc)) as [w' E];
          [simpl; rewrite He; reflexivity | rewrite E]
    end.
    exists w'. simpl. unfold record_observation. rewrite ?Ea. reflexivity.
Qed.

Lemma noncached_sizes enc m bs :
  (forall mode wt bf x, length (forward_encoder mode wt bf x).1 = length x) ->
  List.map o_size (noncached_observations enc m bs) = batch_sizes bs.
Proof.
  intros Hlen. revert enc m.
  induction bs as [|b bs IH]; intros enc m; simpl; [reflexivity|].
  now rewrite IH, Hlen.
Qed.

(** From a run of [evaluate] that returns, the logger its loop built. *)
Lemma evaluate_Val_loop (loop : M world (gmap string meter)) w stats w' :
  (emit EvEvaluate >>
   no_grad (model_eval >>
            let! ml := loop in
            let ml := synchronize_between_processes ml in
            print_summary ml >> global_avgs ml)) w = (Val stats, w') ->
  exists ml w1,
    loop (set_model (set_training false)
            (set_grad_enabled false
               (set_trace (fun t => t ++ [(it w, EvEvaluate)]) w))) =
      (Val ml, w1) /\
    ml !! "acc1" <> None /\
    stats = omap global_avg ml.
Proof.
  intros H. unfold bind at 1 in H. unfold emit, modify in H.
  unfold no_grad in H.
  match type of H with
  | context [bind model_eval ?k ?w0] =>
      destruct (bind model_eval k w0) as [r1 u] eqn:E
  end.
  inversion H; subst; clear H.
  apply bind_Val in E as ([] & u0 & E0 & E).
  unfold model_eval, modify in E0. inversion E0; subst; clear E0.
  apply bind_Val in E as (ml & u1 & E1 & E).
  exists ml, u1. split; [exact E1|].
  unfold synchronize_between_processes in E.
  apply bind_Val in E as ([] & u2 & E2 & E).
  apply global_avgs_Val in E as [-> _].
  split; [| reflexivity].
  unfold print_summary in E2.
  apply bind_Val in E2 as (top1 & v1 & G1 & _).
  unfold logger_attr in G1. destruct (ml !! "acc1"); [congruence|].
  discriminate G1.
Qed.

End WeightFacts.

(** C7, as stated, fails for the loss: on a stream of a batch of one
    sample with loss 1 and a batch of three samples with loss 6,
    [evaluate] returns the loss 7/2, the plain mean of the two batch
    losses; the mean weighted by the batch sizes is 19/4. *)
Lemma evaluate_loss_weighted_by_batch_size_fails :
  exists stats w',
    Cached.evaluate (K := Demo.kernels) [Demo.val_small; Demo.val_large]
      Demo.loop_state = (Val stats, w') /\
    ~ loss_weighted_by_batch_size stats
        (cached_observations (K := Demo.kernels)
           (set_training false (model Demo.loop_state))
           [Demo.val_small; Demo.val_large]).
Proof.
  eexists. eexists. split; [vm_compute; reflexivity|].
  intros (x & y & Hx & Hy & Hxy).
  vm_compute in Hx. vm_compute in Hy.
  inversion Hx; subst. inversion Hy; subst.
  vm_compute in Hxy. discriminate Hxy.
Qed.

(** C7, as the code has it.  Whenever [evaluate] returns, the top-1 and
    top-5 accuracies it returns are the means of the per-batch accuracies
    weighted by the batch sizes, and the loss it returns is the mean of
    the per-batch losses with weight 1 for each batch.  Both drivers; for
    the two-stage one the encoder is assumed to keep the leading
    dimension of a batch. *)
Theorem evaluate_weights
    `{K : Kernels}
    (bs : list batch) (w w' : world) (stats : gmap string pyfloat)
    (bs' : list batch) (u u' : world) (enc : nn_module)
    (stats' : gmap string pyfloat) :
  (forall mode wt bf x, length (forward_encoder mode wt bf x).1 = length x) ->
  encoder u = Some enc ->
  Cached.evaluate bs w = (Val stats, w') ->
  Noncached.evaluate bs' u = (Val stats', u') ->
  evaluate_weighting stats
    (cached_observations (set_training false (model w)) bs) bs /\
  evaluate_weighting stats'
    (noncached_observations enc (set_training false (model u)) bs') bs'.
Proof.
  intros Hlen He H H'. split.
  - apply evaluate_Val_loop in H as (ml & w1 & Hloop & Hne & ->).
    match type of Hloop with
    | Cached.evaluate_loop _ _ ?w0 = _ =>
        destruct (cached_evaluate_loop_obs bs ∅ w0) as [w2 E]
    end.
    rewrite E in Hloop. inversion Hloop; subst; clear Hloop. simpl in *.
    split; [apply cached_sizes|].
    apply stats_of_observations; [| reflexivity].
    intros Hnil. rewrite Hnil in Hne. simpl in Hne.
    rewrite lookup_empty in Hne. congruence.
  - apply evaluate_Val_loop in H' as (ml & w1 & Hloop & Hne & ->).
    match type of Hloop with
    | Noncached.evaluate_loop _ _ ?w0 = _ =>
        destruct (noncached_evaluate_loop_obs bs' ∅ w0 enc) as [w2 E];
          [exact He|]
    end.
    rewrite E in Hloop. inversion Hloop; subst; clear Hloop. simpl in *.
    split; [apply noncached_sizes; exact Hlen|].
    apply stats_of_observations; [| reflexivity].
    intros Hnil. rewrite Hnil in Hne. simpl in Hne.
    rewrite lookup_empty in Hne. congruence.
Qed.

Lemma evaluate_weights_witness :
  evaluate_weighting Demo.eval_stats
    (cached_observations (K := Demo.kernels)
       (set_training false (model Demo.loop_state))
       [Demo.val_small; Demo.val_large])
    [Demo.val_small; Demo.val_large] /\
  evaluate_weighting Demo.noncached_eval_stats
    (noncached_observations (K := Demo.kernels)
       (set_training false fresh_module)
       (set_training false (model Demo.loop_state))
       [Demo.val_small; Demo.val_large])
    [Demo.val_small; Demo.val_large].
Proof.
  apply (evaluate_weights (K := Demo.kernels)
           [Demo.val_small; Demo.val_large] Demo.loop_state
           (snd (Cached.evaluate (K := Demo.kernels)
                   [Demo.val_small; Demo.val_large] Demo.loop_state))
           Demo.eval_stats
           [Demo.val_small; Demo.val_large] Demo.loop_state
           (snd (Noncached.evaluate (K := Demo.kernels)
                   [Demo.val_small; Demo.val_large] Demo.loop_state))
           (set_training false fresh_module)
           Demo.noncached_eval_stats).
  - intros mode wt bf x. simpl. apply length_map.
  - reflexivity.
  - vm_compute. reflexivity.
  - vm_compute. reflexivity.
Defined.

(** ** The doubled forward pass *)

Lemma erase_eq w1 w2 :
  erase_trace w1 = erase_trace w2 ->
  exists t, w2 = set_trace (fun _ => t) w1.
Proof.
  destruct w1, w2. unfold erase_trace, set_trace. simpl.
  intros H. inversion H; subst. eexists. reflexivity.
Qed.

Lemma sim_refl w : training (model w) = false -> sim w w.
Proof. intros H. split; [reflexivity | exact H]. Qed.

Lemma agree_bind {A B} (m1 m2 : M world A) (f1 f2 : A -> M world B) :
  agree m1 m2 -> (forall a, agree (f1 a) (f2 a)) ->
  agree (bind m1 f1) (bind m2 f2).
Proof.
  intros Hm Hf w1 w2 Hs. destruct (Hm w1 w2 Hs) as [E S].
  unfold bind. destruct (m1 w1) as [r1 u1], (m2 w2) as [r2 u2].
  simpl in E, S. subst r2. destruct r1 as [a|c|e]; simpl.
  - apply Hf. exact S.
  - split; [reflexivity | exact S].
  - split; [reflexivity | exact S].
Qed.

Lemma agree_pure {A} (m : M world A) (r : result A) :
  (forall w, m w = (r, w)) -> agree m m.
Proof. intros H w1 w2 Hs. rewrite !H. simpl. auto. Qed.

Lemma agree_emit e : agree (emit e) (emit e).
Proof.
  intros w1 w2 [He Ht]. destruct (erase_eq _ _ He) as [t ->].
  simpl. split; [reflexivity|]. split; [reflexivity | exact Ht].
Qed.

Lemma agree_print_summary ml : agree (print_summary ml) (print_summary ml).
Proof.
  unfold print_summary, logger_attr, read_global_avg.
  repeat (apply agree_bind; [| intros ?]); try apply agree_emit;
    match goal with
    | |- agree match ?x with _ => _ end _ =>
        destruct x; eapply agree_pure; intros; reflexivity
    end.
Qed.

Lemma agree_global_avgs ml :
  agree (@global_avgs world ml) (@global_avgs world ml).
Proof.
  unfold global_avgs. destruct (decide _);
    eapply agree_pure; intros; reflexivity.
Qed.

Lemma no_grad_eval_agree {A} (k1 k2 : M world A) :
  agree k1 k2 ->
  forall w,
    fst (no_grad (model_eval >> k1) w) = fst (no_grad (model_eval >> k2) w) /\
    erase_trace (snd (no_grad (model_eval >> k1) w)) =
    erase_trace (snd (no_grad (model_eval >> k2) w)).
Proof.
  intros H w. unfold no_grad.
  rewrite !(bind_eq model_eval _ (set_grad_enabled false w) tt _ eq_refl).
  destruct (H _ _ (sim_refl
                     (set_model (set_training false)
                        (set_grad_enabled false w)) eq_refl)) as [E [S _]].
  destruct (k1 _) as [r1 u1], (k2 _) as [r2 u2]. simpl in E, S |- *.
  split; [exact E|].
  destruct (erase_eq _ _ S) as [t ->]. reflexivity.
Qed.

Section DoubleForward.
Context `{K : Kernels}.
Hypothesis forward_eval_pure :
  forall wt bf x, (forward false wt bf x).2 = bf.

Lemma second_forward_same wt bf x :
  forward false wt (forward false wt bf x).2 x = forward false wt bf x.
Proof. now rewrite forward_eval_pure. Qed.

Lemma agree_evaluate_batch b ml :
  agree (Noncached.evaluate_batch b ml) (Noncached.evaluate_batch_once b ml).
Proof.
  intros w1 w2 [He Ht]. destruct (erase_eq _ _ He) as [t ->].
  unfold Noncached.evaluate_batch, Noncached.evaluate_batch_once.
  destruct (encoder w1) as [enc|] eqn:Eenc.
  - rewrite (bind_eq _ _ _ _ _ (encoder_call_eq _ w1 enc Eenc)).
    rewrite (bind_eq _ _ _ _ _
               (encoder_call_eq _ (set_trace (fun _ => t) w1) enc Eenc)).
    rewrite (bind_eq _ _ _ _ _ (model_call_eq _ _)).
    rewrite (bind_eq _ _ _ _ _ (model_call_eq _ _)).
    rewrite (bind_eq _ _ _ _ _ (model_call_eq _ _)).
    simpl. rewrite !Ht, !second_forward_same, !forward_eval_pure.
    destruct (accuracy _ _) as [a1 a5]. unfold ret. simpl.
    split; [reflexivity|].
    split; [| exact Ht].
    unfold erase_trace, set_buffers. simpl. rewrite ?Ht.
    reflexivity.
  - unfold bind. rewrite (encoder_call_none _ w1 Eenc).
    rewrite (encoder_call_none _ (set_trace (fun _ => t) w1) Eenc). simpl.
    split; [reflexivity|]. split; [reflexivity | exact Ht].
Qed.

Lemma agree_evaluate_loop bs :
  forall ml,
    agree (Noncached.evaluate_loop bs ml) (Noncached.evaluate_loop_once bs ml).
Proof.
  induction bs as [|b bs IH]; intros ml; simpl.
  - eapply agree_pure. intros. reflexivity.
  - apply agree_bind; [apply agree_evaluate_batch | intros ml'; apply IH].
Qed.

Lemma evaluate_once_equiv bs w :
  fst (Noncached.evaluate bs w) = fst (Noncached.evaluate_once bs w) /\
  erase_trace (snd (Noncached.evaluate bs w)) =
  erase_trace (snd (Noncached.evaluate_once bs w)).
Proof.
  unfold Noncached.evaluate, Noncached.evaluate_once.
  rewrite !(bind_eq (emit EvEvaluate) _ w tt _ eq_refl).
  apply no_grad_eval_agree.
  apply agree_bind; [apply agree_evaluate_loop | intros ml].
  apply agree_bind; [apply agree_print_summary | intros _].
  apply agree_global_avgs.
Qed.

End DoubleForward.

(** C9. When a forward pass of the model in evaluation mode changes no
    state of the model, the second of the two forward-and-loss
    computations that [evaluate] of the two-stage driver makes on each
    batch gives what the first gave, and [evaluate] returns the same
    result and leaves the same state, up to the record of the calls made,
    as the version that computes them once per batch. *)
Theorem evaluate_double_forward_redundant
    `{K : Kernels} (bs : list batch) (w : world) :
  (forall wt bf x, (forward false wt bf x).2 = bf) ->
  (forall wt bf x,
     forward false wt (forward false wt bf x).2 x = forward false wt bf x) /\
  fst (Noncached.evaluate bs w) = fst (Noncached.evaluate_once bs w) /\
  erase_trace (snd (Noncached.evaluate bs w)) =
  erase_trace (snd (Noncached.evaluate_once bs w)).
Proof.
  intros Hpure. split.
  - intros wt bf x. apply second_forward_same. exact Hpure.
  - apply evaluate_once_equiv. exact Hpure.
Qed.

Lemma evaluate_double_forward_redundant_witness :
  (forall wt bf x,
     forward (Kernels := Demo.kernels) false wt
       (forward (Kernels := Demo.kernels) false wt bf x).2 x =
     forward (Kernels := Demo.kernels) false wt bf x) /\
  fst (Noncached.evaluate (K := Demo.kernels)
         [Demo.val_small; Demo.val_large] Demo.loop_state) =
  fst (Noncached.evaluate_once (K := Demo.kernels)
         [Demo.val_small; Demo.val_large] Demo.loop_state) /\
  erase_trace
    (snd (Noncached.evaluate (K := Demo.kernels)
            [Demo.val_small; Demo.val_large] Demo.loop_state)) =
  erase_trace
    (snd (Noncached.evaluate_once (K := Demo.kernels)
            [Demo.val_small; Demo.val_large] Demo.loop_state)).
Proof.
  apply (evaluate_double_forward_redundant (K := Demo.kernels)
           [Demo.val_small; Demo.val_large] Demo.loop_state).
  intros wt bf x. reflexivity.
Defined.

(** ** The encoder is never trained *)

Lemma triple_ret {A} (I : world -> Prop) (a : A) (Q : A -> Prop) :
  Q a -> triple I (ret a) Q.
Proof. intros HQ w r w' Hi H. inversion H; subst. auto. Qed.

Lemma triple_skip {A} (I : world -> Prop) (a : A) :
  triple I (ret a) (fun _ => True).
Proof. now apply triple_ret. Qed.

Lemma triple_raise {A} (I : world -> Prop) e (Q : A -> Prop) :
  triple I (@raise world A e) Q.
Proof. intros w r w' Hi H. inversion H; subst. auto. Qed.

Lemma triple_sys_exit {A} (I : world -> Prop) c (Q : A -> Prop) :
  triple I (@sys_exit world A c) Q.
Proof. intros w r w' Hi H. inversion H; subst. auto. Qed.

Lemma triple_gets {A} (I : world -> Prop) (f : world -> A) :
  triple I (gets f) (fun _ => True).
Proof. intros w r w' Hi H. inversion H; subst. auto. Qed.

Lemma triple_modify (I : world -> Prop) (f : world -> world) :
  (forall w, I w -> I (f w)) -> triple I (modify f) (fun _ => True).
Proof. intros Hf w r w' Hi H. inversion H; subst. auto. Qed.

Lemma triple_bind {A B} (I : world -> Prop) (m : M world A)
    (f : A -> M world B) (Q : A -> Prop) (Q' : B -> Prop) :
  triple I m Q -> (forall a, Q a -> triple I (f a) Q') ->
  triple I (bind m f) Q'.
Proof.
  intros Hm Hf w r w' Hi H. unfold bind in H.
  destruct (m w) as [[a|c|e] w1] eqn:E;
    destruct (Hm _ _ _ Hi E) as [I1 Q1].
  - eapply Hf; eassumption.
  - inversion H; subst. auto.
  - inversion H; subst. auto.
Qed.

Lemma triple_weaken {A} (I : world -> Prop) (m : M world A)
    (Q Q' : A -> Prop) :
  triple I m Q -> (forall a, Q a -> Q' a) -> triple I m Q'.
Proof.
  intros Hm HQ w r w' Hi H. destruct (Hm _ _ _ Hi H) as [I1 Q1].
  split; [exact I1|]. destruct r; auto.
Qed.

Lemma triple_seq {A B} (I : world -> Prop) (m : M world A)
    (k : M world B) (Q : A -> Prop) (Q' : B -> Prop) :
  triple I m Q -> triple I k Q' -> triple I (m >> k) Q'.
Proof. intros Hm Hk. eapply triple_bind; [exact Hm | intros _ _; exact Hk]. Qed.

Lemma triple_pure {A} (I : world -> Prop) (m : M world A) :
  (forall w, snd (m w) = w) -> triple I m (fun _ => True).
Proof.
  intros Hp w r w' Hi H. specialize (Hp w). rewrite H in Hp. simpl in Hp.
  subst. split; [exact Hi|]. destruct r; exact Logic.I.
Qed.

Lemma triple_py_mod (I : world -> Prop) a b :
  triple I (py_mod a b) (fun _ => True).
Proof. apply triple_pure. intros w. unfold py_mod. now destruct (b =? 0). Qed.

Lemma triple_dict_get {A} (I : world -> Prop) k (d : gmap string A) :
  triple I (dict_get k d) (fun _ => True).
Proof. apply triple_pure. intros w. unfold dict_get. now destruct (d !! k). Qed.

Lemma triple_logger_attr (I : world -> Prop) k ml :
  triple I (logger_attr k ml) (fun _ => True).
Proof.
  apply triple_pure. intros w. unfold logger_attr. now destruct (ml !! k).
Qed.

Lemma triple_read_global_avg (I : world -> Prop) m :
  triple I (read_global_avg m) (fun _ => True).
Proof.
  apply triple_pure. intros w. unfold read_global_avg.
  now destruct (global_avg m).
Qed.

Lemma triple_global_avgs (I : world -> Prop) ml :
  triple I (global_avgs ml) (fun _ => True).
Proof.
  apply triple_pure. intros w. unfold global_avgs. now destruct (decide _).
Qed.

Lemma triple_for_enumerate {A} (I : world -> Prop)
    (body : Z -> A -> M world unit) :
  (forall i x, triple I (body i x) (fun _ => True)) ->
  forall xs i, triple I (for_enumerate body i xs) (fun _ => True).
Proof.
  intros Hb xs. induction xs as [|x xs IH]; intros i; simpl.
  - apply triple_skip.
  - eapply triple_seq; [apply Hb | apply IH].
Qed.

Lemma inv_same ng W w w' :
  encoder w' = encoder w -> param_groups w' = param_groups w ->
  trace w' = trace w -> grad_enabled w' = grad_enabled w ->
  encoder_inv ng W w -> encoder_inv ng W w'.
Proof.
  intros E P T G [(enc & H1 & H2 & H3 & H4 & H5 & H6) Hg]. split.
  - exists enc. rewrite E, P, T. auto 10.
  - rewrite G. exact Hg.
Qed.

Lemma inv_emit ng W e w :
  frozen_forward e = true -> encoder_inv ng W w ->
  encoder_inv ng W (set_trace (fun t => t ++ [(it w, e)]) w).
Proof.
  intros He [(enc & H1 & H2 & H3 & H4 & H5 & H6) Hg]. split; [| exact Hg].
  exists enc. simpl. repeat (split; [assumption|]).
  rewrite List.map_app, forallb_app, H6. simpl. now rewrite He.
Qed.

Lemma triple_emit ng W e :
  frozen_forward e = true ->
  triple (encoder_inv ng W) (emit e) (fun _ => True).
Proof. intros He. apply triple_modify. intros w. now apply inv_emit. Qed.

Lemma triple_set ng W (f : world -> world) :
  (forall w, encoder (f w) = encoder w) ->
  (forall w, param_groups (f w) = param_groups w) ->
  (forall w, trace (f w) = trace w) ->
  (forall w, grad_enabled (f w) = grad_enabled w) ->
  triple (encoder_inv ng W) (modify f) (fun _ => True).
Proof.
  intros E P T G. apply triple_modify. intros w. now apply inv_same.
Qed.

Lemma fold_only_model (f : nn_module -> nn_module) ids :
  only_model ids ->
  forall w,
    let w' := fold_right (fun id => update_module id f) w ids in
    encoder w' = encoder w /\ param_groups w' = param_groups w /\
    trace w' = trace w /\ grad_enabled w' = grad_enabled w.
Proof.
  induction ids as [|id ids IH]; intros Ho w; simpl; [tauto|].
  assert (Hid : id = ModelId) by (apply Ho; now left). subst id.
  simpl. apply IH. intros id Hin. apply Ho. now right.
Qed.

Lemma inv_fold ng W (f : nn_module -> nn_module) ids w :
  only_model ids -> encoder_inv ng W w ->
  encoder_inv ng W (fold_right (fun id => update_module id f) w ids).
Proof.
  intros Ho. destruct (fold_only_model f ids Ho w) as (E & P & T & G).
  now apply inv_same.
Qed.

Lemma inv_param_groups ng W w :
  encoder_inv ng W w -> only_model (param_groups w).
Proof.
  intros [(enc & _ & _ & _ & _ & H5 & _) _] id Hin. rewrite H5 in Hin.
  destruct Hin as [<-|[]]. reflexivity.
Qed.

Lemma triple_model_train ng W :
  triple (encoder_inv ng W) model_train (fun _ => True).
Proof.
  unfold model_train. eapply triple_seq;
    [apply triple_set; reflexivity | now apply triple_emit].
Qed.

Lemma triple_optimizer_zero_grad ng W :
  triple (encoder_inv ng W) optimizer_zero_grad (fun _ => True).
Proof.
  unfold optimizer_zero_grad. eapply triple_seq; [now apply triple_emit|].
  apply triple_modify. intros w Hi.
  apply inv_fold; [eapply inv_param_groups; exact Hi | exact Hi].
Qed.

Lemma triple_optimizer_step ng W :
  triple (encoder_inv ng W) optimizer_step (fun _ => True).
Proof.
  unfold optimizer_step. eapply triple_seq; [now apply triple_emit|].
  eapply triple_seq.
  { apply triple_modify. intros w Hi.
    apply inv_fold; [eapply inv_param_groups; exact Hi | exact Hi]. }
  eapply triple_seq; apply triple_set; reflexivity.
Qed.

Lemma triple_backward ng W l :
  only_model (l_leaves l) ->
  triple (encoder_inv ng W) (backward l) (fun _ => True).
Proof.
  intros Ho. unfold backward. destruct (l_leaves l) as [|id ids] eqn:El.
  - apply triple_raise.
  - eapply triple_seq; [now apply triple_emit|].
    apply triple_modify. intros w Hi. now apply inv_fold.
Qed.

Lemma triple_loss_scaler_call ng W l b :
  only_model (l_leaves l) ->
  triple (encoder_inv ng W) (loss_scaler_call l b) (fun _ => True).
Proof.
  intros Ho. unfold loss_scaler_call.
  eapply triple_seq; [now apply triple_backward|].
  destruct b; [apply triple_optimizer_step | apply triple_skip].
Qed.

Lemma triple_save_on_master ng W b ck path :
  triple (encoder_inv ng W) (save_on_master b ck path) (fun _ => True).
Proof.
  unfold save_on_master. destruct b;
    [apply triple_set; reflexivity | apply triple_skip].
Qed.

Lemma triple_no_grad {A} ng W (body : M world A) (Q : A -> Prop) :
  triple (encoder_inv true W) body Q ->
  triple (encoder_inv ng W) (no_grad body) Q.
Proof.
  intros Hb w r w' Hi H. unfold no_grad in H.
  destruct (body (set_grad_enabled false w)) as [r1 w1] eqn:E.
  inversion H; subst. clear H.
  assert (Hs : encoder_inv true W (set_grad_enabled false w)).
  { destruct Hi as [Hf _]. split; [exact Hf | reflexivity]. }
  destruct (Hb _ _ _ Hs E) as [[I1 _] Q1]. split; [| exact Q1].
  split; [exact I1 | apply Hi].
Qed.

Section EncoderFacts.
Context `{K : Kernels}.

Lemma triple_model_call ng W x :
  triple (encoder_inv ng W) (model_call x)
    (fun y => only_model (leaves x) -> only_model (leaves y)).
Proof.
  intros w r w' Hi H. rewrite model_call_eq in H. inversion H; subst.
  split.
  - apply (inv_same ng W
             (set_trace
                (fun t => t ++ [(it w, EvForward ModelId
                                         (training (model w))
                                         (grad_enabled w))]) w));
      try reflexivity.
    now apply inv_emit.
  - simpl. intros Ho id Hin. apply List.in_app_iff in Hin.
    destruct Hin as [Hin|Hin]; [| now apply Ho].
    destruct (grad_enabled w); simpl in Hin; [| contradiction].
    destruct Hin as [<-|[]]. reflexivity.
Qed.

Lemma triple_encoder_call W x :
  triple (encoder_inv true W) (encoder_call x)
    (fun y => leaves y = leaves x).
Proof.
  intros w r w' Hi H.
  destruct Hi as [(enc & H1 & H2 & H3 & H4 & H5 & H6) Hg].
  rewrite (encoder_call_eq _ _ enc H1) in H. inversion H; subst.
  rewrite (Hg eq_refl). split; [| reflexivity].
  split; [| simpl; now apply Hg].
  eexists. simpl. rewrite H1. simpl.
  split; [reflexivity|]. simpl.
  repeat (split; [assumption || reflexivity|]).
  rewrite List.map_app, forallb_app, H6. simpl. rewrite H2. reflexivity.
Qed.

Lemma triple_print_summary ng W ml :
  triple (encoder_inv ng W) (print_summary ml) (fun _ => True).
Proof.
  unfold print_summary.
  repeat (eapply triple_bind; [| intros ? _]);
    first [ apply triple_logger_attr | apply triple_read_global_avg
          | now apply triple_emit ].
Qed.

Lemma triple_evaluate_batch W b ml :
  triple (encoder_inv true W) (Noncached.evaluate_batch b ml)
    (fun _ => True).
Proof.
  unfold Noncached.evaluate_batch.
  eapply triple_bind; [apply triple_encoder_call | intros y _].
  eapply triple_bind; [apply triple_model_call | intros o1 _].
  eapply triple_bind; [apply triple_model_call | intros o2 _].
  destruct (accuracy _ _). apply triple_skip.
Qed.

Lemma triple_evaluate_loop W bs :
  forall ml,
    triple (encoder_inv true W) (Noncached.evaluate_loop bs ml)
      (fun _ => True).
Proof.
  induction bs as [|b bs IH]; intros ml; simpl.
  - apply triple_skip.
  - eapply triple_bind; [apply triple_evaluate_batch | intros ml' _; apply IH].
Qed.

Lemma triple_evaluate ng W bs :
  triple (encoder_inv ng W) (Noncached.evaluate bs) (fun _ => True).
Proof.
  unfold Noncached.evaluate.
  eapply triple_seq; [now apply triple_emit|].
  apply triple_no_grad. unfold model_eval.
  eapply triple_seq; [apply triple_set; reflexivity|].
  eapply triple_bind; [apply triple_evaluate_loop | intros ml _].
  eapply triple_seq; [apply triple_print_summary | apply triple_global_avgs].
Qed.

Lemma triple_eval_phase ng W a e i :
  triple (encoder_inv ng W) (Noncached.eval_phase a e i) (fun _ => True).
Proof.
  unfold Noncached.eval_phase.
  eapply triple_seq; [now apply triple_emit|].
  eapply triple_bind; [apply triple_evaluate | intros stats _].
  eapply triple_bind; [apply triple_dict_get | intros acc1 _].
  eapply triple_bind; [apply triple_gets | intros best _].
  eapply triple_seq.
  { destruct (float_gt acc1 best); [| apply triple_skip].
    eapply triple_seq; [now apply triple_emit|].
    eapply triple_bind; [apply triple_gets | intros sd _].
    eapply triple_seq; [now apply triple_emit|].
    eapply triple_seq; [apply triple_save_on_master|].
    eapply triple_bind; [apply triple_dict_get | intros acc1' _].
    apply triple_set; reflexivity. }
  eapply triple_seq; [apply triple_set; reflexivity|].
  eapply triple_bind; [apply triple_gets | intros ml _].
  eapply triple_bind; [apply triple_global_avgs | intros ts _].
  eapply triple_bind; [apply triple_dict_get | intros el _].
  eapply triple_seq.
  { destruct (Noncached.is_main_process e); [| apply triple_skip].
    eapply triple_seq; [now apply triple_emit | apply triple_set; reflexivity]. }
  eapply triple_seq; [apply triple_set; reflexivity | apply triple_model_train].
Qed.

Lemma triple_train_step ng W a e i b :
  triple (encoder_inv ng W) (Noncached.train_step a e i b) (fun _ => True).
Proof.
  unfold Noncached.train_step.
  eapply triple_seq; [apply triple_set; reflexivity|].
  eapply triple_bind;
    [apply triple_no_grad, triple_encoder_call | intros y Hy].
  eapply triple_bind; [apply triple_model_call | intros o Ho].
  assert (Hl : only_model (leaves o)).
  { apply Ho. simpl in Hy. rewrite Hy. intros id []. }
  destruct (negb (isfinite _)).
  { eapply triple_seq; [now apply triple_emit | apply triple_sys_exit]. }
  eapply triple_bind; [apply triple_py_mod | intros r _].
  eapply triple_seq; [apply triple_loss_scaler_call; exact Hl|].
  eapply triple_bind; [apply triple_py_mod | intros r' _].
  eapply triple_seq.
  { destruct (r' =? 0);
      [apply triple_optimizer_zero_grad | apply triple_skip]. }
  eapply triple_seq; [now apply triple_emit|].
  eapply triple_seq; [apply triple_set; reflexivity|].
  eapply triple_seq.
  { destruct (negb (i =? 0)); [| apply triple_skip].
    eapply triple_bind; [apply triple_py_mod | intros s _].
    destruct (s =? 0); [apply triple_eval_phase | apply triple_skip]. }
  apply triple_set; reflexivity.
Qed.

Lemma triple_model_load ng W path :
  triple (fun w => encoder_inv ng W w)
    (load_model path ModelId true) (fun _ => True).
Proof.
  unfold load_model. destruct (String.eqb path _); [apply triple_skip|].
  intros w r w' Hi H. unfold bind, gets in H. simpl in H.
  destruct (checkpoints w !! path) as [ck|] eqn:E.
  - inversion H; subst. split; [| exact Logic.I].
    revert Hi. apply inv_same; reflexivity.
  - inversion H; subst. split; [exact Hi | exact Logic.I].
Qed.

Lemma encoder_load fs path w r w' :
  checkpoints w = fs ->
  encoder_inv false (weights fresh_module) w ->
  load_model path EncoderId false w = (r, w') ->
  exists W, startup_weights fs path W /\ encoder_inv false W w'.
Proof.
  intros Hfs Hi H. unfold load_model in H.
  destruct (String.eqb path _).
  { inversion H; subst. exists (weights fresh_module).
    split; [now left | exact Hi]. }
  unfold bind, gets in H. simpl in H.
  destruct (checkpoints w !! path) as [ck|] eqn:E.
  - inversion H; subst. exists (fst (ck_model ck)). split.
    + right. exists ck. split; [exact E | reflexivity].
    + destruct Hi as [(enc & H1 & H2 & H3 & H4 & H5 & H6) Hg].
      split; [| intros Hf; discriminate Hf].
      eexists. simpl. rewrite H1. simpl.
      split; [reflexivity|]. simpl. auto 10.
  - inversion H; subst. exists (weights fresh_module).
    split; [now left | exact Hi].
Qed.

End EncoderFacts.

(** C8. In the two-stage driver, whatever the outcome of a run on any
    finite prefix of the training stream: the encoder is in evaluation
    mode, its parameters are those it started with (the constructed ones,
    or those read from the encoder checkpoint), it holds no gradient, the
    optimizer is built over the model only, and every forward pass of the
    encoder, in training and in evaluation, was made in evaluation mode
    with gradient tracking off. *)
Theorem encoder_never_trained `{K : Kernels}
    (a : Noncached.args) (e : Noncached.env) (train_loader : list batch)
    (fs : gmap string checkpoint) :
  exists W,
    startup_weights fs (Noncached.encoder_ckpt a) W /\
    encoder_frozen W
      (snd (Noncached.main a e train_loader (init_world fs))).
Proof.
  unfold Noncached.main.
  rewrite !(bind_eq (modify _) _ _ tt _ eq_refl).
  match goal with
  | |- context [bind (load_model _ ModelId true) ?k ?w5] =>
      assert (H5 : encoder_inv false (weights fresh_module) w5 /\
                   checkpoints w5 = fs)
  end.
  { split; [| reflexivity]. split; [| intros Hf; discriminate Hf].
    eexists. simpl. split; [reflexivity|]. simpl. auto 10. }
  destruct H5 as [Hi5 Hc5].
  unfold bind at 1.
  destruct (load_model (Noncached.model_ckpt a) ModelId true _)
    as [r6 w6] eqn:E6.
  assert (Hc6 : checkpoints w6 = fs).
  { clear Hi5. unfold load_model in E6.
    destruct (String.eqb _ _); [inversion E6; subst; exact Hc5|].
    unfold bind, gets in E6. simpl in E6.
    destruct (fs !! Noncached.model_ckpt a);
      inversion E6; subst; reflexivity. }
  destruct (triple_model_load false _ _ _ _ _ Hi5 E6) as [Hi6 _].
  destruct r6 as [o6|c|x];
    [| exists (weights fresh_module); split; [now left | apply Hi6] ..].
  unfold bind at 1.
  destruct (load_model (Noncached.encoder_ckpt a) EncoderId false w6)
    as [r7 w7] eqn:E7.
  destruct (encoder_load _ _ _ _ _ Hc6 Hi6 E7) as (W & HW & Hi7).
  exists W. split; [exact HW|].
  destruct r7 as [o7|c|x]; [| apply Hi7 ..].
  match goal with
  | |- encoder_frozen W (snd (?m w7)) =>
      destruct (m w7) as [r8 w8] eqn:E8;
      assert (Ht : triple (encoder_inv false W) m (fun _ => True))
  end.
  { eapply triple_seq; [apply triple_model_train|].
    eapply triple_seq; [apply triple_set; reflexivity|].
    eapply triple_seq; [apply triple_optimizer_zero_grad|].
    eapply triple_seq; [apply triple_set; reflexivity|].
    eapply triple_seq; [apply triple_set; reflexivity|].
    apply triple_for_enumerate. intros i b. apply triple_train_step. }
  apply (Ht _ _ _ Hi7 E8).
Qed.

(** * Further properties of the drivers *)

(** ** The states of a turn *)

Lemma bind_raised {S A B} (m : M S A) (f : A -> M S B) s x s' :
  m s = (Raised x, s') -> bind m f s = (Raised x, s').
Proof. intros H. unfold bind. now rewrite H. Qed.

Lemma turn_core_eq {A} (accum i : Z) (l : loss_t) (v : pyfloat)
    (rest : M world A) (w : world) :
  accum <> 0 -> l_leaves l = [ModelId] -> param_groups w = [ModelId] ->
  (let! r := py_mod (i + 1) accum in
   loss_scaler_call (loss_div l accum) (r =? 0) >>
   let! r' := py_mod (i + 1) accum in
   (if r' =? 0 then optimizer_zero_grad else ret tt) >>
   emit (EvMetricUpdate v) >>
   modify (set_metric_logger (logger_update "loss" v)) >>
   rest) w = rest (core_state accum i v w).
Proof.
  intros Hne Hl Hpg. apply Z.eqb_neq in Hne.
  unfold core_state, boundary, py_mod. rewrite Hne.
  unfold loss_scaler_call, backward, loss_div. simpl. rewrite Hl.
  destruct ((i + 1) `mod` accum =? 0) eqn:Eb.
  - unfold bind, ret, emit, modify, optimizer_step, optimizer_zero_grad,
      bind, emit, modify. simpl. rewrite !Eb. simpl.
    repeat (rewrite Hpg; simpl). reflexivity.
  - unfold bind, ret, emit, modify. simpl. rewrite !Eb. reflexivity.
Qed.

Lemma turn_tail_eq (phase : M world unit) (sf i : Z) (w : world) :
  (cadence sf i = true ->
   (if negb (i =? 0)
    then let! s := py_mod i sf in if s =? 0 then phase else ret tt
    else ret tt) w = phase w) /\
  (cadence sf i = false -> i = 0 \/ sf <> 0 ->
   (if negb (i =? 0)
    then let! s := py_mod i sf in if s =? 0 then phase else ret tt
    else ret tt) w = (Val tt, w)) /\
  (i <> 0 -> sf = 0 ->
   (if negb (i =? 0)
    then let! s := py_mod i sf in if s =? 0 then phase else ret tt
    else ret tt) w = (Raised ZeroDivisionError, w)).
Proof.
  unfold cadence, py_mod, bind, ret, raise.
  destruct (i =? 0) eqn:Ei; simpl.
  - apply Z.eqb_eq in Ei. repeat split; try discriminate; try reflexivity.
    intros Hi. contradiction.
  - apply Z.eqb_neq in Ei. destruct (sf =? 0) eqn:Es.
    + apply Z.eqb_eq in Es. subst sf. rewrite Z.mod_0_r.
      repeat split; try reflexivity.
      * rewrite (proj2 (Z.eqb_neq i 0) Ei). discriminate.
      * intros _ [Hi|Hs]; contradiction.
    + apply Z.eqb_neq in Es. repeat split.
      * intros ->. reflexivity.
      * intros -> _. reflexivity.
      * intros _ Hs. contradiction.
Qed.

Section TurnFacts.
Context `{K : Kernels}.

Lemma cached_train_step_eq a e i b w :
  isfinite (cached_loss_value w b) = true ->
  Cached.accum_iter a <> 0 ->
  grad_enabled w = true ->
  param_groups w = [ModelId] ->
  Cached.train_step a e i b w =
  (if negb (i =? 0)
   then let! s := py_mod i (Cached.save_freq a) in
        if s =? 0 then Cached.eval_phase a e i else ret tt
   else ret tt)
    (core_state (Cached.accum_iter a) i (cached_loss_value w b)
       (forward_state (samples b) (set_it (Some i) w))).
Proof.
  intros Hf Hne Hg Hpg. unfold cached_loss_value in *.
  unfold Cached.train_step.
  unfold bind at 1. unfold modify at 1.
  rewrite (bind_eq _ _ _ _ _ (model_call_eq _ _)). simpl.
  rewrite Hf. simpl.
  apply (turn_core_eq (Cached.accum_iter a) i); [exact Hne | | exact Hpg].
  simpl. rewrite Hg. reflexivity.
Qed.

Lemma cached_train_step_zero_accum a e i b w :
  isfinite (cached_loss_value w b) = true ->
  Cached.accum_iter a = 0 ->
  Cached.train_step a e i b w =
  (Raised ZeroDivisionError, forward_state (samples b) (set_it (Some i) w)).
Proof.
  intros Hf Hz. unfold cached_loss_value in *.
  unfold Cached.train_step.
  unfold bind at 1. unfold modify at 1.
  rewrite (bind_eq _ _ _ _ _ (model_call_eq _ _)). simpl.
  rewrite Hf. simpl. rewrite Hz. reflexivity.
Qed.

Lemma no_grad_encoder_eq x w m :
  encoder w = Some m ->
  no_grad (encoder_call x) w =
  (Val {| data :=
            (forward_encoder (training m) (weights m) (buffers m)
               (data x)).1;
          leaves := leaves x |},
   encoder_state m (data x) w).
Proof.
  intros He. unfold no_grad.
  rewrite (encoder_call_eq _ _ m) by exact He. reflexivity.
Qed.

Lemma noncached_train_step_eq a e i b w m :
  encoder w = Some m ->
  isfinite (noncached_loss_value w m b) = true ->
  Noncached.accum_iter a <> 0 ->
  grad_enabled w = true ->
  param_groups w = [ModelId] ->
  Noncached.train_step a e i b w =
  ((if negb (i =? 0)
    then let! s := py_mod i (Noncached.save_freq a) in
         if s =? 0 then Noncached.eval_phase a e i else ret tt
    else ret tt) >> modify (set_it (Some (i + 1))))
    (core_state (Noncached.accum_iter a) i (noncached_loss_value w m b)
       (forward_state
          (forward_encoder (training m) (weights m) (buffers m)
             (samples b)).1
          (encoder_state m (samples b) (set_it (Some i) w)))).
Proof.
  intros He Hf Hne Hg Hpg. unfold noncached_loss_value in *.
  unfold Noncached.train_step.
  unfold bind at 1. unfold modify at 1.
  rewrite (bind_eq _ _ _ _ _
             (no_grad_encoder_eq _ (set_it (Some i) w) m He)).
  rewrite (bind_eq _ _ _ _ _ (model_call_eq _ _)). simpl.
  rewrite Hf. simpl.
  apply (turn_core_eq (Noncached.accum_iter a) i); [exact Hne | | exact Hpg].
  simpl. rewrite Hg. reflexivity.
Qed.

Lemma noncached_train_step_zero_accum a e i b w m :
  encoder w = Some m ->
  isfinite (noncached_loss_value w m b) = true ->
  Noncached.accum_iter a = 0 ->
  Noncached.train_step a e i b w =
  (Raised ZeroDivisionError,
   forward_state
     (forward_encoder (training m) (weights m) (buffers m) (samples b)).1
     (encoder_state m (samples b) (set_it (Some i) w))).
Proof.
  intros He Hf Hz. unfold noncached_loss_value in *.
  unfold Noncached.train_step.
  unfold bind at 1. unfold modify at 1.
  rewrite (bind_eq _ _ _ _ _
             (no_grad_encoder_eq _ (set_it (Some i) w) m He)).
  rewrite (bind_eq _ _ _ _ _ (model_call_eq _ _)). simpl.
  rewrite Hf. simpl. rewrite Hz. reflexivity.
Qed.

End TurnFacts.

(** ** What [evaluate] calls *)

Section EvaluateCalls.
Context `{K : Kernels}.

Lemma cached_evaluate_loop_calls bs :
  forall ml w, exists ml' w',
    Cached.evaluate_loop bs ml w = (Val ml', w') /\
    trace w' =
      trace w ++
      List.map (pair (it w))
        (repeat (EvForward ModelId (training (model w)) (grad_enabled w))
           (length bs)) /\
    training (model w') = training (model w) /\
    grad_enabled w' = grad_enabled w /\ it w' = it w.
Proof.
  induction bs as [|b bs IH]; intros ml w; simpl.
  - eexists _, _. split; [reflexivity|]. rewrite app_nil_r. auto.
  - unfold Cached.evaluate_batch.
    unfold bind at 1. unfold bind at 1. rewrite model_call_eq. simpl.
    destruct (accuracy _ _) as [a1 a5]. unfold ret at 1.
    match goal with
    | |- context [Cached.evaluate_loop bs ?ml1 ?w1] =>
        destruct (IH ml1 w1) as (ml' & w' & E & T & M & G & I)
    end.
    exists ml', w'. split; [exact E|]. simpl in T, M, G, I.
    rewrite T, <- app_assoc. auto.
Qed.

Lemma noncached_evaluate_loop_calls bs :
  forall ml w m, encoder w = Some m -> exists ml' w',
    Noncached.evaluate_loop bs ml w = (Val ml', w') /\
    trace w' =
      trace w ++
      List.map (pair (it w))
        (concat
           (repeat [EvForward EncoderId (training m) (grad_enabled w);
                    EvForward ModelId (training (model w)) (grad_enabled w);
                    EvForward ModelId (training (model w)) (grad_enabled w)]
              (length bs))) /\
    training (model w') = training (model w) /\
    grad_enabled w' = grad_enabled w /\ it w' = it w.
Proof.
  induction bs as [|b bs IH]; intros ml w m He; simpl.
  - eexists _, _. split; [reflexivity|]. rewrite app_nil_r. auto.
  - unfold Noncached.evaluate_batch.
    unfold bind at 1. unfold bind at 1.
    rewrite (encoder_call_eq _ _ m He).
    unfold bind at 1. rewrite model_call_eq. simpl.
    unfold bind at 1. rewrite model_call_eq. simpl.
    destruct (accuracy _ _) as [a1 a5]. unfold ret at 1.
    match goal with
    | |- context [Noncached.evaluate_loop bs ?ml1 ?w1] =>
        destruct (IH ml1 w1
                    (set_buffers
                       (forward_encoder (training m) (weights m)
                          (buffers m) (samples b)).2 m))
          as (ml' & w' & E & T & M & G & I);
          [simpl; rewrite He; reflexivity |]
    end.
    exists ml', w'. split; [exact E|]. simpl in T, M, G, I.
    rewrite T, <- !app_assoc. auto.
Qed.

(** From a run of [evaluate] that returns: what its loop did, and what it
    printed and returned. *)
Lemma evaluate_Val_calls (loop : M world (gmap string meter)) w stats w' :
  (emit EvEvaluate >>
   no_grad (model_eval >>
            let! ml := loop in
            let ml := synchronize_between_processes ml in
            print_summary ml >> global_avgs ml)) w = (Val stats, w') ->
  exists ml w1 a1 a5 l,
    loop (set_model (set_training false)
            (set_grad_enabled false
               (set_trace (fun t => t ++ [(it w, EvEvaluate)]) w))) =
      (Val ml, w1) /\
    stats !! "acc1" = Some a1 /\ stats !! "acc5" = Some a5 /\
    stats !! "loss" = Some l /\
    w' = set_grad_enabled (grad_enabled w)
           (set_trace (fun t => t ++ [(it w1, EvPrint (MsgAcc a1 a5 l))])
              w1).
Proof.
  intros H. unfold bind at 1 in H. unfold emit, modify in H.
  unfold no_grad in H.
  match type of H with
  | context [bind model_eval ?k ?w0] =>
      destruct (bind model_eval k w0) as [r1 u] eqn:E
  end.
  inversion H; subst; clear H.
  apply bind_Val in E as ([] & u0 & E0 & E).
  unfold model_eval, modify in E0. inversion E0; subst; clear E0.
  apply bind_Val in E as (ml & u1 & E1 & E).
  unfold synchronize_between_processes in E.
  apply bind_Val in E as ([] & u2 & E2 & E).
  apply global_avgs_Val in E as [-> ->].
  unfold print_summary in E2.
  apply bind_Val in E2 as (top1 & v1 & G1 & E2).
  apply bind_Val in E2 as (top5 & v2 & G2 & E2).
  apply bind_Val in E2 as (losses & v3 & G3 & E2).
  apply bind_Val in E2 as (a1 & v4 & G4 & E2).
  apply bind_Val in E2 as (a5 & v5 & G5 & E2).
  apply bind_Val in E2 as (l & v6 & G6 & E2).
  unfold logger_attr in G1, G2, G3.
  destruct (ml !! "acc1") as [m1|] eqn:L1; [| discriminate G1].
  destruct (ml !! "acc5") as [m5|] eqn:L5; [| discriminate G2].
  destruct (ml !! "loss") as [ml0|] eqn:L0; [| discriminate G3].
  unfold ret in G1, G2, G3.
  inversion G1; inversion G2; inversion G3; subst; clear G1 G2 G3.
  unfold read_global_avg in G4, G5, G6.
  destruct (global_avg top1) as [x1|] eqn:A1; [| discriminate G4].
  destruct (global_avg top5) as [x5|] eqn:A5; [| discriminate G5].
  destruct (global_avg losses) as [x0|] eqn:A0; [| discriminate G6].
  unfold ret in G4, G5, G6.
  inversion G4; inversion G5; inversion G6; subst; clear G4 G5 G6.
  unfold emit, modify in E2. inversion E2; subst; clear E2.
  exists ml, v6, a1, a5, l. split; [exact E1|].
  rewrite !lookup_omap, L1, L5, L0. simpl.
  repeat split; try assumption. 
Qed.

End EvaluateCalls.

(** X1. A run of [evaluate] that returns has made, after announcing
    itself, exactly one forward pass of the model per validation batch
    (two-stage driver: one pass of the encoder, then two of the model, per
    batch), every one of the model in evaluation mode and all with
    gradient tracking off, and then printed one summary line, whose three
    values are the ones it returns; nothing else was called. *)
Theorem evaluate_one_pass_per_batch `{K : Kernels}
    (bs : list batch) (w w' : world) (stats : gmap string pyfloat)
    (bs' : list batch) (u u' : world) (stats' : gmap string pyfloat)
    (m : nn_module) :
  Cached.evaluate bs w = (Val stats, w') ->
  encoder u = Some m ->
  Noncached.evaluate bs' u = (Val stats', u') ->
  (exists a1 a5 l,
     stats !! "acc1" = Some a1 /\ stats !! "acc5" = Some a5 /\
     stats !! "loss" = Some l /\
     trace w' =
       trace w ++
       List.map (pair (it w)) (cached_eval_calls (length bs) a1 a5 l)) /\
  (exists a1 a5 l,
     stats' !! "acc1" = Some a1 /\ stats' !! "acc5" = Some a5 /\
     stats' !! "loss" = Some l /\
     trace u' =
       trace u ++
       List.map (pair (it u))
         (noncached_eval_calls (training m) (length bs') a1 a5 l)).
Proof.
  intros H He H'. split.
  - apply evaluate_Val_calls in H
      as (ml & w1 & a1 & a5 & l & E & S1 & S5 & SL & ->).
    destruct (cached_evaluate_loop_calls bs ∅
                (set_model (set_training false)
                   (set_grad_enabled false
                      (set_trace (fun t => t ++ [(it w, EvEvaluate)]) w))))
      as (ml' & w2 & E' & T & _ & _ & I).
    rewrite E in E'. inversion E'; subst ml' w2. clear E'.
    exists a1, a5, l. repeat (split; [assumption|]).
    simpl in T, I |- *. rewrite T, I. unfold cached_eval_calls. simpl.
    rewrite List.map_app, <- !app_assoc. reflexivity.
  - apply evaluate_Val_calls in H'
      as (ml & w1 & a1 & a5 & l & E & S1 & S5 & SL & ->).
    destruct (noncached_evaluate_loop_calls bs' ∅
                (set_model (set_training false)
                   (set_grad_enabled false
                      (set_trace (fun t => t ++ [(it u, EvEvaluate)]) u)))
                m He)
      as (ml' & w2 & E' & T & _ & _ & I).
    rewrite E in E'. inversion E'; subst ml' w2. clear E'.
    exists a1, a5, l. repeat (split; [assumption|]).
    simpl in T, I |- *. rewrite T, I. unfold noncached_eval_calls. simpl.
    rewrite List.map_app, <- !app_assoc. reflexivity.
Qed.

Lemma evaluate_one_pass_per_batch_witness :
  (exists a1 a5 l,
     Demo.eval_stats !! "acc1" = Some a1 /\
     Demo.eval_stats !! "acc5" = Some a5 /\
     Demo.eval_stats !! "loss" = Some l /\
     trace (snd (Cached.evaluate (K := Demo.kernels)
                   [Demo.val_small; Demo.val_large] Demo.loop_state)) =
       trace Demo.loop_state ++
       List.map (pair (it Demo.loop_state)) (cached_eval_calls 2 a1 a5 l)) /\
  (exists a1 a5 l,
     Demo.noncached_eval_stats !! "acc1" = Some a1 /\
     Demo.noncached_eval_stats !! "acc5" = Some a5 /\
     Demo.noncached_eval_stats !! "loss" = Some l /\
     trace (snd (Noncached.evaluate (K := Demo.kernels)
                   [Demo.val_small; Demo.val_large] Demo.loop_state)) =
       trace Demo.loop_state ++
       List.map (pair (it Demo.loop_state))
         (noncached_eval_calls false 2 a1 a5 l)).
Proof.
  apply (evaluate_one_pass_per_batch (K := Demo.kernels)
           [Demo.val_small; Demo.val_large] Demo.loop_state
           (snd (Cached.evaluate (K := Demo.kernels)
                   [Demo.val_small; Demo.val_large] Demo.loop_state))
           Demo.eval_stats
           [Demo.val_small; Demo.val_large] Demo.loop_state
           (snd (Noncached.evaluate (K := Demo.kernels)
                   [Demo.val_small; Demo.val_large] Demo.loop_state))
           Demo.noncached_eval_stats
           (set_training false fresh_module)).
  - vm_compute. reflexivity.
  - reflexivity.
  - vm_compute. reflexivity.
Defined.

(** ** The states of the evaluation/checkpoint phase *)

Lemma phase_rest_eq (path : string) (is_main : bool) (i : Z)
    (stats : gmap string pyfloat) (acc1 l : pyfloat) (w : world) :
  stats !! "acc1" = Some acc1 -> stats !! "loss" = Some l ->
  map_Forall (fun _ m => count m <> 0) (metric_logger w) ->
  (let! acc1 := dict_get "acc1" stats in
   let! best := gets best_eval_acc1 in
   (if float_gt acc1 best then
      emit (EvPrint MsgSaving) >>
      let! save_dict := gets (make_save_dict i) in
      emit (EvSave path acc1) >>
      save_on_master is_main save_dict path >>
      let! acc1' := dict_get "acc1" stats in
      modify (set_best_eval_acc1 acc1')
    else ret tt) >>
   modify (set_metric_logger synchronize_between_processes) >>
   let! ml := gets metric_logger in
   let! train_stats := global_avgs ml in
   let! eval_loss := dict_get "loss" stats in
   let log_stats := make_log_stats train_stats eval_loss i in
   (if is_main
    then emit EvLog >> modify (set_log_file (fun f => f ++ [log_stats]))
    else ret tt) >>
   modify (set_metric_logger (fun _ => ∅)) >>
   model_train) w =
  (Val tt, phase_state path is_main i acc1 l w).
Proof.
  intros Ha Hl Hc.
  unfold phase_state, save_state, log_state, dict_get, model_train,
    save_on_master, global_avgs.
  rewrite Ha, Hl.
  unfold bind, ret, gets, emit, modify, make_save_dict,
    synchronize_between_processes. simpl.
  destruct (float_gt acc1 (best_eval_acc1 w)) eqn:Eg; simpl.
  - destruct is_main; simpl;
      (destruct (decide _) as [_|Hn]; [reflexivity | contradiction]).
  - destruct (decide _) as [_|Hn]; [| contradiction].
    destruct is_main; reflexivity.
Qed.

Lemma phase_rest_raises (path : string) (is_main : bool) (i : Z)
    (stats : gmap string pyfloat) (acc1 l : pyfloat) (w : world) :
  stats !! "acc1" = Some acc1 -> stats !! "loss" = Some l ->
  ~ map_Forall (fun _ m => count m <> 0) (metric_logger w) ->
  fst ((let! acc1 := dict_get "acc1" stats in
   let! best := gets best_eval_acc1 in
   (if float_gt acc1 best then
      emit (EvPrint MsgSaving) >>
      let! save_dict := gets (make_save_dict i) in
      emit (EvSave path acc1) >>
      save_on_master is_main save_dict path >>
      let! acc1' := dict_get "acc1" stats in
      modify (set_best_eval_acc1 acc1')
    else ret tt) >>
   modify (set_metric_logger synchronize_between_processes) >>
   let! ml := gets metric_logger in
   let! train_stats := global_avgs ml in
   let! eval_loss := dict_get "loss" stats in
   let log_stats := make_log_stats train_stats eval_loss i in
   (if is_main
    then emit EvLog >> modify (set_log_file (fun f => f ++ [log_stats]))
    else ret tt) >>
   modify (set_metric_logger (fun _ => ∅)) >>
   model_train) w) = Raised ZeroDivisionError.
Proof.
  intros Ha Hl Hc.
  unfold dict_get, model_train, save_on_master, global_avgs.
  rewrite Ha.
  unfold bind, ret, gets, emit, modify, raise. simpl.
  destruct (float_gt acc1 (best_eval_acc1 w)) eqn:Eg; simpl.
  - destruct is_main; simpl;
      (destruct (decide _) as [Hy|_]; [contradiction | reflexivity]).
  - destruct (decide _) as [Hy|_]; [contradiction | reflexivity].
Qed.

Section PhaseStates.
Context `{K : Kernels}.

Lemma cached_eval_phase_inv a e i w w' :
  Cached.eval_phase a e i w = (Val tt, w') ->
  exists stats w1 acc1 l,
    Cached.evaluate (Cached.val_loader e)
      (set_trace (fun t => t ++ [(it w, EvPrint MsgEvaluating)]) w) =
      (Val stats, w1) /\
    stats !! "acc1" = Some acc1 /\ stats !! "loss" = Some l /\
    map_Forall (fun _ m => count m <> 0) (metric_logger w1) /\
    w' = phase_state (Cached.checkpoint_path a) (Cached.is_main_process e)
           i acc1 l w1.
Proof.
  intros H. unfold Cached.eval_phase in H.
  bind_step H x0 w0 H0. prim H0.
  bind_step H stats w1 H1.
  destruct (cached_evaluate_Val _ _ _ _ H1)
    as (q & a1 & a5 & l & _ & _ & _ & S1 & _ & SL & _).
  exists stats, w1, a1, l. split; [exact H1|].
  split; [exact S1|]. split; [exact SL|].
  destruct (decide (map_Forall (fun _ m => count m <> 0)
                      (metric_logger w1))) as [Hc|Hc].
  - split; [exact Hc|].
    pose proof (phase_rest_eq (Cached.checkpoint_path a)
                  (Cached.is_main_process e) i _ _ _ _ S1 SL Hc) as He.
    assert (He' : (@Val unit tt, w') =
                  (Val tt, phase_state (Cached.checkpoint_path a)
                             (Cached.is_main_process e) i a1 l w1))
      by (rewrite <- H; exact He).
    inversion He'. reflexivity.
  - pose proof (phase_rest_raises (Cached.checkpoint_path a)
                  (Cached.is_main_process e) i _ _ _ _ S1 SL Hc) as Hr.
    assert (Hr' : fst (@Val unit tt, w') = Raised ZeroDivisionError)
      by (rewrite <- H; exact Hr).
    discriminate Hr'.
Qed.

Lemma noncached_eval_phase_inv a e i w w' :
  Noncached.eval_phase a e i w = (Val tt, w') ->
  exists stats w1 acc1 l,
    Noncached.evaluate (Noncached.val_loader e)
      (set_trace (fun t => t ++ [(it w, EvPrint MsgEvaluating)]) w) =
      (Val stats, w1) /\
    stats !! "acc1" = Some acc1 /\ stats !! "loss" = Some l /\
    map_Forall (fun _ m => count m <> 0) (metric_logger w1) /\
    w' = phase_state (Noncached.checkpoint_path a)
           (Noncached.is_main_process e) i acc1 l w1.
Proof.
  intros H. unfold Noncached.eval_phase in H.
  bind_step H x0 w0 H0. prim H0.
  bind_step H stats w1 H1.
  destruct (noncached_evaluate_Val _ _ _ _ H1)
    as (q & a1 & a5 & l & _ & _ & _ & S1 & _ & SL & _).
  exists stats, w1, a1, l. split; [exact H1|].
  split; [exact S1|]. split; [exact SL|].
  destruct (decide (map_Forall (fun _ m => count m <> 0)
                      (metric_logger w1))) as [Hc|Hc].
  - split; [exact Hc|].
    pose proof (phase_rest_eq (Noncached.checkpoint_path a)
                  (Noncached.is_main_process e) i _ _ _ _ S1 SL Hc) as He.
    assert (He' : (@Val unit tt, w') =
                  (Val tt, phase_state (Noncached.checkpoint_path a)
                             (Noncached.is_main_process e) i a1 l w1))
      by (rewrite <- H; exact He).
    inversion He'. reflexivity.
  - pose proof (phase_rest_raises (Noncached.checkpoint_path a)
                  (Noncached.is_main_process e) i _ _ _ _ S1 SL Hc) as Hr.
    assert (Hr' : fst (@Val unit tt, w') = Raised ZeroDivisionError)
      by (rewrite <- H; exact Hr).
    discriminate Hr'.
Qed.

End PhaseStates.

(** ** What [evaluate] leaves alone *)

(** X2. However a call of [evaluate] ends, in either driver, it has
    changed no parameter and no gradient of the model, nothing of the
    encoder but its buffers, neither the optimizer nor the scaler state,
    nor the metric logger of the training loop, the best score, the loop
    index, the checkpoint files or the log; what it called after
    announcing itself were forward passes and prints only; and the
    autograd switch is as it found it. *)
Theorem evaluate_keeps_training_state `{K : Kernels}
    (bs : list batch) (w : world) (bs' : list batch) (u : world) :
  (exists q,
     quiet_rel w (snd (Cached.evaluate bs w)) (EvEvaluate :: q) /\
     forallb quiet q = true /\
     grad_enabled (snd (Cached.evaluate bs w)) = grad_enabled w) /\
  (exists q,
     quiet_rel u (snd (Noncached.evaluate bs' u)) (EvEvaluate :: q) /\
     forallb quiet q = true /\
     grad_enabled (snd (Noncached.evaluate bs' u)) = grad_enabled u).
Proof.
  split.
  - destruct (Cached.evaluate bs w) as [r w'] eqn:E.
    apply cached_evaluate_rel in E as (q & Hq & Fq & _ & G).
    exists q. auto.
  - destruct (Noncached.evaluate bs' u) as [r u'] eqn:E.
    apply noncached_evaluate_rel in E as (q & Hq & Fq & _ & G).
    exists q. auto.
Qed.

(** ** Division by a zero option *)

(** X3. With [accum_iter = 0], a turn of the training loop whose loss is
    finite raises [ZeroDivisionError] when it computes
    [(it + 1) % args.accum_iter], before the scaler is called: the loop
    ends there, and only the forward passes of the turn have happened.
    Both drivers. *)
Theorem zero_accum_iter_raises `{K : Kernels}
    (a : Cached.args) (e : Cached.env) (i : Z) (b : batch)
    (bs : list batch) (w : world)
    (a' : Noncached.args) (e' : Noncached.env) (i' : Z) (b' : batch)
    (bs' : list batch) (w' : world) (m : nn_module) :
  Cached.accum_iter a = 0 ->
  isfinite (cached_loss_value w b) = true ->
  Noncached.accum_iter a' = 0 ->
  encoder w' = Some m ->
  isfinite (noncached_loss_value w' m b') = true ->
  for_enumerate (Cached.train_step a e) i (b :: bs) w =
    (Raised ZeroDivisionError,
     forward_state (samples b) (set_it (Some i) w)) /\
  for_enumerate (Noncached.train_step a' e') i' (b' :: bs') w' =
    (Raised ZeroDivisionError,
     forward_state
       (forward_encoder (training m) (weights m) (buffers m)
          (samples b')).1
       (encoder_state m (samples b') (set_it (Some i') w'))).
Proof.
  intros Hz Hf Hz' He Hf'. split; simpl.
  - apply bind_raised. now apply cached_train_step_zero_accum.
  - apply bind_raised. now apply noncached_train_step_zero_accum.
Qed.

Lemma zero_accum_iter_raises_witness :
  for_enumerate
    (Cached.train_step (K := Demo.kernels) Edge.cached_no_accum
       Demo.cached_env)
    0 (Demo.good :: [Demo.good]) Demo.loop_state =
    (Raised ZeroDivisionError,
     forward_state (K := Demo.kernels) (samples Demo.good)
       (set_it (Some 0) Demo.loop_state)) /\
  for_enumerate
    (Noncached.train_step (K := Demo.kernels) Edge.noncached_no_accum
       Demo.noncached_env)
    0 (Demo.good :: [Demo.good]) Demo.loop_state =
    (Raised ZeroDivisionError,
     forward_state (K := Demo.kernels)
       (forward_encoder (Kernels := Demo.kernels)
          (training Edge.encoder0) (weights Edge.encoder0)
          (buffers Edge.encoder0) (samples Demo.good)).1
       (encoder_state (K := Demo.kernels) Edge.encoder0
          (samples Demo.good) (set_it (Some 0) Demo.loop_state))).
Proof.
  apply (zero_accum_iter_raises (K := Demo.kernels)
           Edge.cached_no_accum Demo.cached_env 0 Demo.good
           [Demo.good] Demo.loop_state
           Edge.noncached_no_accum Demo.noncached_env 0 Demo.good
           [Demo.good] Demo.loop_state Edge.encoder0).
  - reflexivity.
  - reflexivity.
  - reflexivity.
  - reflexivity.
  - reflexivity.
Defined.

(** X4. With [save_freq = 0], the turn at index 0 is not affected (the
    test [it != 0] comes first), and every later turn that gets as far
    raises [ZeroDivisionError] at [it % args.save_freq], after its
    backward pass, its optimizer step if one was due, and the update of
    the metric logger, and without evaluating.  Both drivers. *)
Theorem zero_save_freq_raises `{K : Kernels}
    (a : Cached.args) (e : Cached.env) (i : Z) (b : batch) (w : world)
    (a' : Noncached.args) (e' : Noncached.env) (i' : Z) (b' : batch)
    (w' : world) (m : nn_module) :
  Cached.save_freq a = 0 -> Cached.accum_iter a <> 0 ->
  isfinite (cached_loss_value w b) = true ->
  grad_enabled w = true -> param_groups w = [ModelId] ->
  Noncached.save_freq a' = 0 -> Noncached.accum_iter a' <> 0 ->
  encoder w' = Some m ->
  isfinite (noncached_loss_value w' m b') = true ->
  grad_enabled w' = true -> param_groups w' = [ModelId] ->
  Cached.train_step a e i b w =
    (if i =? 0 then Val tt else Raised ZeroDivisionError,
     core_state (Cached.accum_iter a) i (cached_loss_value w b)
       (forward_state (samples b) (set_it (Some i) w))) /\
  Noncached.train_step a' e' i' b' w' =
    (let wc :=
       core_state (Noncached.accum_iter a') i'
         (noncached_loss_value w' m b')
         (forward_state
            (forward_encoder (training m) (weights m) (buffers m)
               (samples b')).1
            (encoder_state m (samples b') (set_it (Some i') w'))) in
     if i' =? 0 then (Val tt, set_it (Some (i' + 1)) wc)
     else (Raised ZeroDivisionError, wc)).
Proof.
  intros Hs Ha Hf Hg Hp Hs' Ha' He Hf' Hg' Hp'. split.
  - rewrite (cached_train_step_eq a e i b w Hf Ha Hg Hp). rewrite Hs.
    destruct (turn_tail_eq (Cached.eval_phase a e i) 0 i
                (core_state (Cached.accum_iter a) i (cached_loss_value w b)
                   (forward_state (samples b) (set_it (Some i) w))))
      as (_ & H2 & H3).
    destruct (i =? 0) eqn:Ei.
    + apply Z.eqb_eq in Ei. subst i. apply H2; [reflexivity | now left].
    + apply Z.eqb_neq in Ei. now apply H3.
  - rewrite (noncached_train_step_eq a' e' i' b' w' m He Hf' Ha' Hg' Hp').
    rewrite Hs'. cbv zeta.
    match goal with
    | |- bind _ _ ?wc = _ =>
        destruct (turn_tail_eq (Noncached.eval_phase a' e' i') 0 i' wc)
          as (_ & H2 & H3)
    end.
    destruct (i' =? 0) eqn:Ei.
    + apply Z.eqb_eq in Ei. subst i'.
      rewrite (bind_eq _ _ _ _ _ (H2 eq_refl (or_introl eq_refl))).
      reflexivity.
    + apply Z.eqb_neq in Ei.
      apply bind_raised. now apply H3.
Qed.

Lemma zero_save_freq_raises_witness :
  Cached.train_step (K := Demo.kernels) Edge.cached_no_freq
    Demo.cached_env 1 Demo.good Demo.loop_state =
    (if 1 =? 0 then Val tt else Raised ZeroDivisionError,
     core_state (Cached.accum_iter Edge.cached_no_freq) 1
       (cached_loss_value (K := Demo.kernels) Demo.loop_state Demo.good)
       (forward_state (K := Demo.kernels) (samples Demo.good)
          (set_it (Some 1) Demo.loop_state))) /\
  Noncached.train_step (K := Demo.kernels) Edge.noncached_no_freq
    Demo.noncached_env 1 Demo.good Demo.loop_state =
    (let wc :=
       core_state (Noncached.accum_iter Edge.noncached_no_freq) 1
         (noncached_loss_value (K := Demo.kernels) Demo.loop_state
            Edge.encoder0 Demo.good)
         (forward_state (K := Demo.kernels)
            (forward_encoder (Kernels := Demo.kernels)
               (training Edge.encoder0) (weights Edge.encoder0)
               (buffers Edge.encoder0) (samples Demo.good)).1
            (encoder_state (K := Demo.kernels) Edge.encoder0
               (samples Demo.good) (set_it (Some 1) Demo.loop_state))) in
     if 1 =? 0 then (Val tt, set_it (Some (1 + 1)) wc)
     else (Raised ZeroDivisionError, wc)).
Proof.
  apply (zero_save_freq_raises (K := Demo.kernels)
           Edge.cached_no_freq Demo.cached_env 1 Demo.good Demo.loop_state
           Edge.noncached_no_freq Demo.noncached_env 1 Demo.good
           Demo.loop_state Edge.encoder0).
  - reflexivity.
  - simpl. lia.
  - reflexivity.
  - reflexivity.
  - reflexivity.
  - reflexivity.
  - simpl. lia.
  - reflexivity.
  - reflexivity.
  - reflexivity.
  - reflexivity.
Defined.

(** X5. A turn of the training loop in which no evaluation is due cannot
    fail once its loss is finite: with [accum_iter] not 0, and [save_freq]
    not 0 unless the turn is the first, it ends normally, in the state
    reached after the backward pass, the optimizer step and [zero_grad] if
    [(it + 1) % accum_iter == 0], and the update of the metric logger.
    Both drivers. *)
Theorem training_turn_completes `{K : Kernels}
    (a : Cached.args) (e : Cached.env) (i : Z) (b : batch) (w : world)
    (a' : Noncached.args) (e' : Noncached.env) (i' : Z) (b' : batch)
    (w' : world) (m : nn_module) :
  cadence (Cached.save_freq a) i = false ->
  i = 0 \/ Cached.save_freq a <> 0 ->
  Cached.accum_iter a <> 0 ->
  isfinite (cached_loss_value w b) = true ->
  grad_enabled w = true -> param_groups w = [ModelId] ->
  cadence (Noncached.save_freq a') i' = false ->
  i' = 0 \/ Noncached.save_freq a' <> 0 ->
  Noncached.accum_iter a' <> 0 ->
  encoder w' = Some m ->
  isfinite (noncached_loss_value w' m b') = true ->
  grad_enabled w' = true -> param_groups w' = [ModelId] ->
  Cached.train_step a e i b w =
    (Val tt,
     core_state (Cached.accum_iter a) i (cached_loss_value w b)
       (forward_state (samples b) (set_it (Some i) w))) /\
  Noncached.train_step a' e' i' b' w' =
    (Val tt,
     set_it (Some (i' + 1))
       (core_state (Noncached.accum_iter a') i'
          (noncached_loss_value w' m b')
          (forward_state
             (forward_encoder (training m) (weights m) (buffers m)
                (samples b')).1
             (encoder_state m (samples b') (set_it (Some i') w'))))).
Proof.
  intros Hc Hs Ha Hf Hg Hp Hc' Hs' Ha' He Hf' Hg' Hp'. split.
  - rewrite (cached_train_step_eq a e i b w Hf Ha Hg Hp).
    now apply turn_tail_eq.
  - rewrite (noncached_train_step_eq a' e' i' b' w' m He Hf' Ha' Hg' Hp').
    match goal with
    | |- bind _ _ ?wc = _ =>
        destruct (turn_tail_eq (Noncached.eval_phase a' e' i')
                    (Noncached.save_freq a') i' wc) as (_ & H2 & _)
    end.
    rewrite (bind_eq _ _ _ _ _ (H2 Hc' Hs')). reflexivity.
Qed.

Lemma training_turn_completes_witness :
  Cached.train_step (K := Demo.kernels) Demo.cached_args Demo.cached_env
    1 Demo.good Demo.loop_state =
    (Val tt,
     core_state (Cached.accum_iter Demo.cached_args) 1
       (cached_loss_value (K := Demo.kernels) Demo.loop_state Demo.good)
       (forward_state (K := Demo.kernels) (samples Demo.good)
          (set_it (Some 1) Demo.loop_state))) /\
  Noncached.train_step (K := Demo.kernels) Demo.noncached_args
    Demo.noncached_env 1 Demo.good Demo.loop_state =
    (Val tt,
     set_it (Some (1 + 1))
       (core_state (Noncached.accum_iter Demo.noncached_args) 1
          (noncached_loss_value (K := Demo.kernels) Demo.loop_state
             Edge.encoder0 Demo.good)
          (forward_state (K := Demo.kernels)
             (forward_encoder (Kernels := Demo.kernels)
                (training Edge.encoder0) (weights Edge.encoder0)
                (buffers Edge.encoder0) (samples Demo.good)).1
             (encoder_state (K := Demo.kernels) Edge.encoder0
                (samples Demo.good) (set_it (Some 1) Demo.loop_state))))).
Proof.
  apply (training_turn_completes (K := Demo.kernels)
           Demo.cached_args Demo.cached_env 1 Demo.good Demo.loop_state
           Demo.noncached_args Demo.noncached_env 1 Demo.good
           Demo.loop_state Edge.encoder0).
  - reflexivity.
  - right. simpl. lia.
  - simpl. lia.
  - reflexivity.
  - reflexivity.
  - reflexivity.
  - reflexivity.
  - right. simpl. lia.
  - simpl. lia.
  - reflexivity.
  - reflexivity.
  - reflexivity.
  - reflexivity.
Defined.

(** ** Turns of a run that goes on *)

Lemma for_enumerate_inv {A} (body : Z -> A -> M world unit)
    (Inv : Z -> world -> Prop) :
  (forall i x w w', Inv i w -> body i x w = (Val tt, w') ->
     Inv (i + 1) w') ->
  forall xs i w w', Inv i w ->
    for_enumerate body i xs w = (Val tt, w') ->
    Inv (i + Z.of_nat (length xs)) w'.
Proof.
  intros Hb xs. induction xs as [|x xs IH]; intros i w w' HI H; simpl in H.
  - inversion H; subst. simpl. now rewrite Z.add_0_r.
  - apply bind_Val in H as ([] & w1 & H1 & H).
    pose proof (IH _ _ _ (Hb _ _ _ _ HI H1) H) as HI2.
    replace (i + Z.of_nat (length (x :: xs)))
      with (i + 1 + Z.of_nat (length xs))
      by (simpl length; lia).
    exact HI2.
Qed.

Lemma forallb_repeat {A} (p : A -> bool) (x : A) (n : nat) :
  p x = true -> forallb p (repeat x n) = true.
Proof. intros H. induction n; simpl; [reflexivity | now rewrite H]. Qed.

Lemma forallb_concat_repeat {A} (p : A -> bool) (l : list A) (n : nat) :
  forallb p l = true -> forallb p (concat (repeat l n)) = true.
Proof.
  intros H. induction n; simpl; [reflexivity|].
  now rewrite forallb_app, H.
Qed.

Section TurnInversion.
Context `{K : Kernels}.

Lemma cached_eval_effect bs w stats w' :
  Cached.evaluate bs w = (Val stats, w') ->
  exists fwd acc1 a5 l,
    stats !! "acc1" = Some acc1 /\ stats !! "loss" = Some l /\
    eval_effect w w' fwd acc1 a5 l.
Proof.
  intros H.
  destruct (cached_evaluate_Val _ _ _ _ H)
    as (q0 & b1 & b5 & bl & Hq & _ & _ & _ & _ & _ & T & G).
  destruct (evaluate_Val_calls _ _ _ _ H)
    as (ml & w1 & a1 & a5 & l & E & S1 & S5 & SL & Hw).
  destruct (cached_evaluate_loop_calls bs ∅
              (set_model (set_training false)
                 (set_grad_enabled false
                    (set_trace (fun t => t ++ [(it w, EvEvaluate)]) w))))
    as (ml' & w2 & E' & Tr & _ & _ & I).
  rewrite E in E'. inversion E'; subst ml' w2. clear E'.
  simpl in Tr, I.
  exists (repeat (EvForward ModelId false false) (length bs)), a1, a5, l.
  split; [exact S1|]. split; [exact SL|].
  split; [| split; [| split]].
  - destruct Hq as [H1 H2 H3 H4 H5 H6 H7 H8 H9 H10 H11 H12].
    split; try assumption.
    rewrite Hw. simpl. rewrite Tr, I. simpl.
    rewrite List.map_app, <- !app_assoc. reflexivity.
  - now apply forallb_repeat.
  - exact T.
  - exact G.
Qed.

Lemma noncached_eval_effect bs w m stats w' :
  encoder w = Some m -> training m = false ->
  Noncached.evaluate bs w = (Val stats, w') ->
  exists fwd acc1 a5 l,
    stats !! "acc1" = Some acc1 /\ stats !! "loss" = Some l /\
    eval_effect w w' fwd acc1 a5 l.
Proof.
  intros He Hm H.
  destruct (noncached_evaluate_Val _ _ _ _ H)
    as (q0 & b1 & b5 & bl & Hq & _ & _ & _ & _ & _ & T & G).
  destruct (evaluate_Val_calls _ _ _ _ H)
    as (ml & w1 & a1 & a5 & l & E & S1 & S5 & SL & Hw).
  destruct (noncached_evaluate_loop_calls bs ∅
              (set_model (set_training false)
                 (set_grad_enabled false
                    (set_trace (fun t => t ++ [(it w, EvEvaluate)]) w)))
              m He)
    as (ml' & w2 & E' & Tr & _ & _ & I).
  rewrite E in E'. inversion E'; subst ml' w2. clear E'.
  simpl in Tr, I.
  exists (concat (repeat [EvForward EncoderId (training m) false;
                          EvForward ModelId false false;
                          EvForward ModelId false false] (length bs))),
    a1, a5, l.
  split; [exact S1|]. split; [exact SL|].
  split; [| split; [| split]].
  - destruct Hq as [H1 H2 H3 H4 H5 H6 H7 H8 H9 H10 H11 H12].
    split; try assumption.
    rewrite Hw. simpl. rewrite Tr, I. simpl.
    rewrite List.map_app, <- !app_assoc. reflexivity.
  - rewrite Hm. now apply forallb_concat_repeat.
  - exact T.
  - exact G.
Qed.

Lemma cached_turn_inv a e i b w w' :
  grad_enabled w = true -> param_groups w = [ModelId] ->
  Cached.train_step a e i b w = (Val tt, w') ->
  isfinite (cached_loss_value w b) = true /\
  Cached.accum_iter a <> 0 /\
  turn_end (cached_params a e) i
    (core_state (Cached.accum_iter a) i (cached_loss_value w b)
       (forward_state (samples b) (set_it (Some i) w))) w'.
Proof.
  intros Hg Hp H.
  destruct (isfinite (cached_loss_value w b)) eqn:Hf.
  2:{ destruct (cached_train_step_exit a e i b w Hf) as (w1 & q & E & _).
      rewrite E in H. discriminate H. }
  destruct (Z.eq_dec (Cached.accum_iter a) 0) as [Hz|Ha].
  { rewrite (cached_train_step_zero_accum a e i b w Hf Hz) in H.
    discriminate H. }
  split; [reflexivity|]. split; [exact Ha|].
  rewrite (cached_train_step_eq a e i b w Hf Ha Hg Hp) in H.
  apply tail_cases in H as [(Hc & H) | (Hc & ->)].
  - right. split; [exact Hc|].
    apply cached_eval_phase_inv in H
      as (stats & w1 & acc1 & l & Hev & S1 & SL & Hml & ->).
    destruct (cached_eval_effect _ _ _ _ Hev)
      as (q & acc1' & a5 & l' & S1' & SL' & Hq).
    assert (acc1' = acc1) by congruence. assert (l' = l) by congruence.
    subst. exists q, acc1, a5, l, w1. auto.
  - left. auto.
Qed.

Lemma noncached_turn_inv a e i b w w' m :
  encoder w = Some m -> training m = false ->
  grad_enabled w = true -> param_groups w = [ModelId] ->
  Noncached.train_step a e i b w = (Val tt, w') ->
  isfinite (noncached_loss_value w m b) = true /\
  Noncached.accum_iter a <> 0 /\
  exists wt,
    turn_end (noncached_params a e) i
      (core_state (Noncached.accum_iter a) i (noncached_loss_value w m b)
         (forward_state
            (forward_encoder (training m) (weights m) (buffers m)
               (samples b)).1
            (encoder_state m (samples b) (set_it (Some i) w)))) wt /\
    w' = set_it (Some (i + 1)) wt.
Proof.
  intros He Hm Hg Hp H.
  destruct (isfinite (noncached_loss_value w m b)) eqn:Hf.
  2:{ destruct (noncached_train_step_exit a e i b w m He Hf)
        as (w1 & q & E & _).
      rewrite E in H. discriminate H. }
  destruct (Z.eq_dec (Noncached.accum_iter a) 0) as [Hz|Ha].
  { rewrite (noncached_train_step_zero_accum a e i b w m He Hf Hz) in H.
    discriminate H. }
  split; [reflexivity|]. split; [exact Ha|].
  rewrite (noncached_train_step_eq a e i b w m He Hf Ha Hg Hp) in H.
  apply bind_Val in H as ([] & wt & H & Hset).
  unfold modify in Hset. inversion Hset; subst w'. clear Hset.
  exists wt. split; [| reflexivity].
  apply tail_cases in H as [(Hc & H) | (Hc & ->)].
  - right. split; [exact Hc|].
    apply noncached_eval_phase_inv in H
      as (stats & w1 & acc1 & l & Hev & S1 & SL & Hml & ->).
    assert (He' : encoder
                    (set_trace
                       (fun t => t ++
                          [(it (core_state (Noncached.accum_iter a) i
                                  (noncached_loss_value w m b)
                                  (forward_state
                                     (forward_encoder (training m)
                                        (weights m) (buffers m)
                                        (samples b)).1
                                     (encoder_state m (samples b)
                                        (set_it (Some i) w)))),
                            EvPrint MsgEvaluating)])
                       (core_state (Noncached.accum_iter a) i
                          (noncached_loss_value w m b)
                          (forward_state
                             (forward_encoder (training m) (weights m)
                                (buffers m) (samples b)).1
                             (encoder_state m (samples b)
                                (set_it (Some i) w))))) =
                  Some (set_buffers
                          (forward_encoder (training m) (weights m)
                             (buffers m) (samples b)).2 m)).
    { unfold core_state, backward_state, update_state.
      destruct (boundary _ _); simpl; rewrite He; reflexivity. }
    destruct (noncached_eval_effect _ _ _ _ _ He' Hm Hev)
      as (q & acc1' & a5 & l' & S1' & SL' & Hq).
    assert (acc1' = acc1) by congruence. assert (l' = l) by congruence.
    subst. exists q, acc1, a5, l, w1. auto.
  - left. auto.
Qed.

End TurnInversion.

(** ** Runs that go on *)

Ltac states :=
  unfold core_state, backward_state, update_state, forward_state,
    encoder_state, phase_state, save_state, log_state.

Lemma core_state_loop_top accum i v w :
  loop_top w -> loop_top (core_state accum i v w).
Proof.
  intros (G & P & T). states.
  destruct (boundary accum i); repeat split; simpl; assumption.
Qed.

Lemma phase_state_fields path main i acc1 l w :
  grad_enabled (phase_state path main i acc1 l w) = grad_enabled w /\
  param_groups (phase_state path main i acc1 l w) = param_groups w /\
  training (model (phase_state path main i acc1 l w)) = true /\
  encoder (phase_state path main i acc1 l w) = encoder w /\
  weights (model (phase_state path main i acc1 l w)) = weights (model w) /\
  grad (model (phase_state path main i acc1 l w)) = grad (model w) /\
  opt_steps (phase_state path main i acc1 l w) = opt_steps w /\
  metric_logger (phase_state path main i acc1 l w) = ∅ /\
  it (phase_state path main i acc1 l w) = it w.
Proof.
  states. destruct (float_gt _ _), main; simpl; repeat split.
Qed.

Lemma turn_end_loop_top P i wc w' :
  loop_top wc -> turn_end P i wc w' -> loop_top w'.
Proof.
  intros (G & Pg & T) [(_ & ->) | (_ & q & acc1 & a5 & l & w1 & He & _ & ->)].
  - repeat split; assumption.
  - destruct He as (Hq & _ & _ & G1).
    destruct (phase_state_fields (p_path P) (p_main P) i acc1 l w1)
      as (F1 & F2 & _).
    repeat split.
    + rewrite F1, G1. exact G.
    + rewrite F2, (qr_pg _ _ _ Hq). exact Pg.
Qed.

Lemma turn_end_encoder P i wc w' :
  turn_end P i wc w' -> frozen_opt (encoder wc) (encoder w').
Proof.
  intros [(_ & ->) | (_ & q & acc1 & a5 & l & w1 & He & _ & ->)].
  - apply frozen_opt_refl.
  - destruct He as (Hq & _).
    destruct (phase_state_fields (p_path P) (p_main P) i acc1 l w1)
      as (_ & _ & _ & F4 & _).
    rewrite F4. exact (qr_encoder _ _ _ Hq).
Qed.

Section RunFacts.
Context `{K : Kernels}.

Lemma cached_turn_rel a e i b w w' :
  loop_top w ->
  Cached.train_step a e i b w = (Val tt, w') ->
  turn_rel (cached_params a e) i w w' /\ loop_top w'.
Proof.
  intros (G & Pg & T) H.
  destruct (cached_turn_inv a e i b w w' G Pg H) as (Hf & Ha & He).
  assert (Hl : loop_top
                 (core_state (Cached.accum_iter a) i
                    (cached_loss_value w b)
                    (forward_state (samples b) (set_it (Some i) w)))).
  { apply core_state_loop_top. repeat split; assumption. }
  split; [| exact (turn_end_loop_top _ _ _ _ Hl He)].
  exists [EvForward ModelId true true],
    (forward_state (samples b) (set_it (Some i) w)),
    (cached_loss_value w b), w'.
  split; [| auto].
  split; [| repeat split].
  split; try reflexivity; [apply frozen_opt_refl|].
  unfold forward_state. simpl. rewrite T, G. reflexivity.
Qed.

Lemma noncached_turn_rel a e i b w w' :
  loop_top_encoder w ->
  Noncached.train_step a e i b w = (Val tt, w') ->
  turn_rel (noncached_params a e) i w w' /\ loop_top_encoder w'.
Proof.
  intros ((G & Pg & T) & m & Em & Tm) H.
  destruct (noncached_turn_inv a e i b w w' m Em Tm G Pg H)
    as (Hf & Ha & wt & He & ->).
  assert (Hl : loop_top
                 (core_state (Noncached.accum_iter a) i
                    (noncached_loss_value w m b)
                    (forward_state
                       (forward_encoder (training m) (weights m) (buffers m)
                          (samples b)).1
                       (encoder_state m (samples b) (set_it (Some i) w))))).
  { apply core_state_loop_top. repeat split; assumption. }
  split.
  - exists [EvForward EncoderId false false; EvForward ModelId true true],
      (forward_state
         (forward_encoder (training m) (weights m) (buffers m)
            (samples b)).1
         (encoder_state m (samples b) (set_it (Some i) w))),
      (noncached_loss_value w m b), wt.
    split; [| auto].
    split; [| repeat split].
    split; try reflexivity.
    + unfold forward_state, encoder_state. simpl. rewrite Em. simpl.
      repeat split.
    + unfold forward_state, encoder_state. simpl. rewrite T, G, Tm.
      rewrite <- app_assoc. reflexivity.
  - pose proof (turn_end_loop_top _ _ _ _ Hl He) as (G' & Pg' & T').
    split; [repeat split; assumption|].
    pose proof (turn_end_encoder _ _ _ _ He) as Hfr.
    assert (Hc : encoder
                   (core_state (Noncached.accum_iter a) i
                      (noncached_loss_value w m b)
                      (forward_state
                         (forward_encoder (training m) (weights m)
                            (buffers m) (samples b)).1
                         (encoder_state m (samples b)
                            (set_it (Some i) w)))) =
                 Some (set_buffers
                         (forward_encoder (training m) (weights m)
                            (buffers m) (samples b)).2 m)).
    { states. destruct (boundary _ _); simpl; rewrite Em; reflexivity. }
    rewrite Hc in Hfr. simpl.
    destruct (encoder wt) as [m'|]; [| contradiction].
    exists m'. split; [reflexivity|].
    destruct Hfr as (F1 & _). simpl in F1. congruence.
Qed.

Lemma cached_main_turns a e bs fs w :
  Cached.main a e bs (init_world fs) = (Val tt, w) ->
  exists w0,
    start_ok fs (Cached.resume a) w0 /\ loop_top w0 /\
    metric_logger w0 = ∅ /\
    chain (turn_rel (cached_params a e)) 0 (length bs) w0 w.
Proof.
  intros H. unfold Cached.main in H.
  bind_step H x0 w0 H0. prim H0.
  bind_step H x1 w1 H1. prim H1.
  bind_step H x2 w2 H2. prim H2.
  bind_step H x3 w3 H3. prim H3.
  bind_step H r w4 H4.
  bind_step H x5 w5 H5. unfold model_train in H5.
  bind_step H5 y5 v5 G5. prim G5. prim H5.
  bind_step H x6 w6 H6. prim H6.
  bind_step H x7 w7 H7. unfold optimizer_zero_grad in H7.
  bind_step H7 y7 v7 G7. prim G7. prim H7.
  bind_step H x8 w8 H8. prim H8.
  apply load_model_Val in H4 as [(Hp & -> & ->) | (Hp & ck & Hck & -> & ->)];
    simpl in H |- *;
    match type of H with
    | for_enumerate _ _ _ ?w0 = _ => exists w0
    end.
  - split; [| split; [| split]].
    + repeat split; try reflexivity; intros; congruence.
    + repeat split.
    + reflexivity.
    + refine (proj1 (for_enumerate_chain _ _ loop_top
                       (cached_turn_rel a e) _ _ _ _ _ H)).
      repeat split.
  - split; [| split; [| split]].
    + split; simpl; try reflexivity; try (intros; congruence).
      intros _. exists ck. simpl in Hck. repeat split; assumption.
    + repeat split.
    + reflexivity.
    + refine (proj1 (for_enumerate_chain _ _ loop_top
                       (cached_turn_rel a e) _ _ _ _ _ H)).
      repeat split.
Qed.

Lemma noncached_main_turns a e bs fs w :
  Noncached.main a e bs (init_world fs) = (Val tt, w) ->
  exists w0,
    start_ok fs (Noncached.model_ckpt a) w0 /\ loop_top_encoder w0 /\
    metric_logger w0 = ∅ /\
    chain (turn_rel (noncached_params a e)) 0 (length bs) w0 w.
Proof.
  intros H. unfold Noncached.main in H.
  bind_step H x0 w0 H0. prim H0.
  bind_step H x0' w0' H0'. prim H0'.
  bind_step H x1 w1 H1. prim H1.
  bind_step H x2 w2 H2. prim H2.
  bind_step H x3 w3 H3. prim H3.
  bind_step H r w4 H4.
  bind_step H r' w4' H4'.
  bind_step H x5 w5 H5. unfold model_train in H5.
  bind_step H5 y5 v5 G5. prim G5. prim H5.
  bind_step H x6 w6 H6. prim H6.
  bind_step H x7 w7 H7. unfold optimizer_zero_grad in H7.
  bind_step H7 y7 v7 G7. prim G7. prim H7.
  bind_step H x8 w8 H8. prim H8.
  bind_step H x9 w9 H9. prim H9.
  assert (Hrun : forall w0, loop_top_encoder w0 ->
            for_enumerate (Noncached.train_step a e) 0 bs w0 = (Val tt, w) ->
            chain (turn_rel (noncached_params a e)) 0 (length bs) w0 w).
  { intros u Hu Hf.
    exact (proj1 (for_enumerate_chain _ _ loop_top_encoder
                    (noncached_turn_rel a e) _ _ _ _ Hu Hf)). }
  apply load_model_Val in H4 as [(Hp & -> & ->) | (Hp & ck & Hck & -> & ->)];
  apply load_model_Val in H4' as [(Hp' & -> & ->) | (Hp' & ck' & Hck' & -> & ->)];
    simpl in H |- *;
    match type of H with
    | for_enumerate _ _ _ ?w0 = _ => exists w0
    end;
    (split; [| split; [| split]];
     [ split; simpl; try reflexivity; try (intros; congruence);
       try (intros; repeat split; reflexivity);
       try (intros _; exists ck; simpl in Hck; repeat split; assumption)
     | split; [repeat split | eexists; split; reflexivity]
     | reflexivity
     | apply Hrun; [split; [repeat split | eexists; split; reflexivity]
                   | exact H] ]).
Qed.

End RunFacts.

(** ** Everything a turn does *)

Lemma chain_impl (R R' : Z -> world -> world -> Prop) :
  (forall i w w', R i w w' -> R' i w w') ->
  forall i n w w', chain R i n w w' -> chain R' i n w w'.
Proof.
  intros HR i n w w' H. induction H; econstructor; eauto.
Qed.

Lemma turn_rel_facts P i w w' : turn_rel P i w w' -> turn_facts P i w w'.
Proof.
  intros (pre & wf & v & wt & (Hq & Fp & Gf & Tf) & Hv & Ha & He & Hw).
  destruct Hq as [Q1 Q2 Q3 Q4 Q5 Q6 Q7 Q8 Q9 Q10 Q11 Q12].
  simpl in Q1, Q2, Q3, Q4, Q5, Q6, Q7, Q8, Q9, Q10, Q11, Q12.
  assert (Hfin : turn_facts P i w wt).
  { destruct He as [(Hc & ->) | (Hc & fwd & acc1 & a5 & l & w1 & Hev & _ & ->)].
    - apply (turn_done P i w _ pre v None); try assumption;
        try (rewrite Hc; reflexivity); try discriminate;
        unfold step_events, contribution_of; states;
        destruct (boundary (p_accum P) i); simpl;
        rewrite ?Q1, ?Q2, ?Q5, ?Q7, ?Q8, ?Q9, ?Q10, ?Q11, ?Q12;
        simpl; rewrite ?List.map_app, <- ?app_assoc, ?app_nil_r;
        try reflexivity.
    - destruct Hev as (Hq & Fq & Tq & Gq).
      destruct Hq as [E1 E2 E3 E4 E5 E6 E7 E8 E9 E10 E11 E12].
      assert (Hb : best_eval_acc1 w1 = best_eval_acc1 w).
      { rewrite E8. states. destruct (boundary _ _); simpl; exact Q8. }
      assert (Hit : it w1 = Some i).
      { rewrite E9. states. destruct (boundary _ _); simpl; exact Q9. }
      apply (turn_done P i w _ pre v
               (Some {| po_fwd := fwd; po_acc1 := acc1; po_acc5 := a5;
                        po_loss := l |}));
        try assumption; try (rewrite Hc; discriminate);
        try (intros d Hd; inversion Hd; subst d; exact Fq).
      + unfold phase_state, save_state, log_state. rewrite Hb, Hit.
        simpl. unfold phase_events.
        destruct (float_gt acc1 (best_eval_acc1 w)), (p_main P); simpl;
          rewrite E12; states; destruct (boundary (p_accum P) i); simpl;
          rewrite ?Hit, Q9, Q12; unfold step_events;
          repeat (rewrite ?List.map_app, <- ?app_assoc; simpl);
          reflexivity.
      + unfold phase_state, save_state, log_state.
        destruct (float_gt acc1 _), (p_main P); simpl; rewrite E2;
          states; destruct (boundary (p_accum P) i); simpl;
          rewrite ?Q2, ?Q9; reflexivity.
      + unfold phase_state, save_state, log_state.
        destruct (float_gt acc1 _), (p_main P); simpl; rewrite E1;
          states; destruct (boundary (p_accum P) i); simpl;
          rewrite ?Q1, ?Q2, ?Q9; reflexivity.
      + unfold phase_state, save_state, log_state.
        destruct (float_gt acc1 _), (p_main P); simpl; rewrite E5;
          states; destruct (boundary (p_accum P) i); simpl;
          rewrite ?Q5; reflexivity.
      + unfold phase_state, save_state, log_state.
        destruct (float_gt acc1 _), (p_main P); reflexivity.
      + unfold phase_state, save_state, log_state. rewrite Hb. simpl.
        destruct (float_gt acc1 (best_eval_acc1 w)), (p_main P); simpl;
          rewrite ?Hb; reflexivity.
      + unfold improved. simpl.
        unfold phase_state, save_state, log_state. rewrite Hb.
        destruct (float_gt acc1 (best_eval_acc1 w)), (p_main P); simpl;
          rewrite ?E10; states; destruct (boundary (p_accum P) i); simpl;
          rewrite ?Q10; reflexivity.
      + unfold turn_log. simpl.
        unfold phase_state, save_state, log_state.
        destruct (float_gt acc1 _), (p_main P); simpl;
          rewrite ?E11, ?E7; states; destruct (boundary (p_accum P) i);
          simpl; rewrite ?Q11, ?Q7, ?app_nil_r; reflexivity. }
  destruct Hw as [-> | ->]; [exact Hfin|].
  destruct Hfin as [pre' v' o H1 H2 H3 H4 H5 H6 H7 H8 H9 H10 H11 H12 H13].
  apply (turn_done P i w _ pre' v' o); assumption.
Qed.

(** ** What the parameters are made of *)

Lemma contributions_snoc accum s n :
  contributions accum s n ++
  [{| c_it := Some (s + Z.of_nat n); c_div := accum |}] =
  contributions accum s (n + 1).
Proof.
  unfold contributions. rewrite indices_app, List.map_app. reflexivity.
Qed.

Lemma pending_default accum i :
  default [] (pending_gradient accum i) =
  contributions accum (i - i `mod` accum) (Z.to_nat (i `mod` accum)).
Proof.
  unfold pending_gradient. destruct (i `mod` accum =? 0) eqn:E.
  - apply Z.eqb_eq in E. rewrite E. reflexivity.
  - reflexivity.
Qed.

Lemma mod_succ a i :
  0 < a -> 0 <= i ->
  (if (i + 1) `mod` a =? 0
   then i `mod` a = a - 1 /\ (i + 1) / a = i / a + 1
   else (i + 1) `mod` a = i `mod` a + 1 /\ (i + 1) / a = i / a).
Proof.
  intros Ha Hi.
  pose proof (div_succ a i Ha) as D.
  pose proof (Z.div_mod (i + 1) a ltac:(lia)) as E1.
  pose proof (Z.div_mod i a ltac:(lia)) as E.
  pose proof (Z.mod_pos_bound i a Ha) as B.
  pose proof (Z.mod_pos_bound (i + 1) a Ha) as B1.
  destruct ((i + 1) `mod` a =? 0) eqn:Z0.
  - apply Z.eqb_eq in Z0. split; [nia | lia].
  - apply Z.eqb_neq in Z0. split; [nia | lia].
Qed.

Lemma turn_provenance P W0 i w w' :
  0 < p_accum P -> 0 <= i ->
  turn_facts P i w w' ->
  weights (model w) = W0 ++ expected_updates (p_accum P) i ->
  grad (model w) = pending_gradient (p_accum P) i ->
  weights (model w') = W0 ++ expected_updates (p_accum P) (i + 1) /\
  grad (model w') = pending_gradient (p_accum P) (i + 1).
Proof.
  intros Ha Hi [pre v o _ _ _ _ _ _ Hg Hw _ _ _ _ _] HW HG.
  pose proof (mod_succ (p_accum P) i Ha Hi) as Hm.
  pose proof (Z.div_mod i (p_accum P) ltac:(lia)) as E.
  pose proof (Z.mod_pos_bound i (p_accum P) Ha) as B.
  pose proof (Z.div_pos i (p_accum P) Hi Ha) as Dp.
  assert (Hsn : default [] (grad (model w)) ++ [contribution_of P i] =
                contributions (p_accum P) (i - i `mod` p_accum P)
                  (Z.to_nat (i `mod` p_accum P) + 1)).
  { rewrite HG, pending_default, <- contributions_snoc.
    unfold contribution_of. do 3 f_equal. f_equal.
    rewrite Z2Nat.id by lia. lia. }
  rewrite Hg, Hw. unfold boundary.
  destruct ((i + 1) `mod` p_accum P =? 0) eqn:Eb.
  - destruct Hm as [Hm1 Hm2]. split.
    + rewrite HW, <- app_assoc. f_equal.
      unfold expected_updates. rewrite Hm2.
      replace (Z.to_nat (i / p_accum P + 1))
        with (Z.to_nat (i / p_accum P) + 1)%nat by lia.
      rewrite indices_app, List.map_app. f_equal. simpl. f_equal.
      rewrite Hsn. f_equal; [| lia].
      rewrite Z2Nat.id by lia. nia.
    + unfold pending_gradient. rewrite Eb. reflexivity.
  - destruct Hm as [Hm1 Hm2]. split.
    + rewrite HW. unfold expected_updates. rewrite Hm2. reflexivity.
    + unfold pending_gradient. rewrite Eb, Hsn. f_equal. f_equal; lia.
Qed.

Lemma chain_provenance P W0 n :
  0 < p_accum P ->
  forall i w w', 0 <= i ->
    chain (turn_facts P) i n w w' ->
    weights (model w) = W0 ++ expected_updates (p_accum P) i ->
    grad (model w) = pending_gradient (p_accum P) i ->
    weights (model w') =
      W0 ++ expected_updates (p_accum P) (i + Z.of_nat n) /\
    grad (model w') = pending_gradient (p_accum P) (i + Z.of_nat n).
Proof.
  intros Ha. induction n as [|n IH]; intros i w w' Hi H HW HG.
  - inversion H; subst. rewrite Z.add_0_r. auto.
  - inversion H as [| i0 n0 u u1 u2 H1 H2]; subst.
    destruct (turn_provenance P W0 i w u1 Ha Hi H1 HW HG) as [HW1 HG1].
    replace (i + Z.of_nat (S n)) with (i + 1 + Z.of_nat n) by lia.
    apply (IH (i + 1) u1 w'); [lia | assumption ..].
Qed.

Lemma start_initial_weights fs path w0 :
  start_ok fs path w0 -> weights (model w0) = initial_weights fs path.
Proof.
  intros Hs. unfold initial_weights.
  destruct (String.eqb path "") eqn:E.
  - apply String.eqb_eq in E. apply (so_fresh _ _ _ Hs E).
  - apply String.eqb_neq in E.
    destruct (so_resumed _ _ _ Hs E) as (ck & Hck & Hw & _).
    rewrite Hck. exact Hw.
Qed.

(** ** Gradient accumulation: the calls and the state *)

Lemma for_enumerate_prefix {A} (body : Z -> A -> M world unit) l1 l2 :
  forall i w r,
    for_enumerate body i (l1 ++ l2) w = (Val tt, r) ->
    exists u, for_enumerate body i l1 w = (Val tt, u).
Proof.
  induction l1 as [|x l1 IH]; intros i w r H; simpl.
  - exists w. reflexivity.
  - simpl in H. unfold bind in *.
    destruct (body i x w) as [[[]| |] u]; try discriminate.
    exact (IH _ _ _ H).
Qed.

Lemma prefix_bind {A} (m : M world A) (k1 k2 : A -> M world unit) :
  (forall x w r, k1 x w = (Val tt, r) -> exists u, k2 x w = (Val tt, u)) ->
  forall w r, bind m k1 w = (Val tt, r) ->
    exists u, bind m k2 w = (Val tt, u).
Proof.
  intros Hk w r H. unfold bind in *.
  destruct (m w) as [[x| |] u]; try discriminate.
  exact (Hk _ _ _ H).
Qed.

Section AccumulationState.
Context `{K : Kernels}.

Lemma cached_main_prefix a e l1 l2 w r :
  Cached.main a e (l1 ++ l2) w = (Val tt, r) ->
  exists u, Cached.main a e l1 w = (Val tt, u).
Proof.
  revert w r. unfold Cached.main.
  do 9 (apply prefix_bind; intros ?). apply for_enumerate_prefix.
Qed.

Lemma noncached_main_prefix a e l1 l2 w r :
  Noncached.main a e (l1 ++ l2) w = (Val tt, r) ->
  exists u, Noncached.main a e l1 w = (Val tt, u).
Proof.
  revert w r. unfold Noncached.main.
  do 12 (apply prefix_bind; intros ?). apply for_enumerate_prefix.
Qed.

Lemma cached_accumulation_state a e bs fs w :
  1 <= Cached.accum_iter a ->
  Cached.main a e bs (init_world fs) = (Val tt, w) ->
  accumulation_state (Cached.accum_iter a)
    (initial_weights fs (Cached.resume a)) (length bs) (model w).
Proof.
  intros Ha H.
  apply cached_main_turns in H as (w0 & Hs & _ & _ & Hc).
  apply (chain_impl _ _ (turn_rel_facts (cached_params a e))) in Hc.
  apply (chain_provenance (cached_params a e) _ _ ltac:(simpl; lia)
           0 w0 w ltac:(lia) Hc).
  - rewrite (start_initial_weights _ _ _ Hs).
    unfold expected_updates. simpl. now rewrite app_nil_r.
  - rewrite (so_grad _ _ _ Hs). reflexivity.
Qed.

Lemma noncached_accumulation_state a e bs fs w :
  1 <= Noncached.accum_iter a ->
  Noncached.main a e bs (init_world fs) = (Val tt, w) ->
  accumulation_state (Noncached.accum_iter a)
    (initial_weights fs (Noncached.model_ckpt a)) (length bs) (model w).
Proof.
  intros Ha H.
  apply noncached_main_turns in H as (w0 & Hs & _ & _ & Hc).
  apply (chain_impl _ _ (turn_rel_facts (noncached_params a e))) in Hc.
  apply (chain_provenance (noncached_params a e) _ _ ltac:(simpl; lia)
           0 w0 w ltac:(lia) Hc).
  - rewrite (start_initial_weights _ _ _ Hs).
    unfold expected_updates. simpl. now rewrite app_nil_r.
  - rewrite (so_grad _ _ _ Hs). reflexivity.
Qed.

End AccumulationState.

(** C1. For every run with [accum_iter >= 1] that consumes its batches:
    in the calls, every window of [accum_iter] consecutive batches holds
    exactly one optimizer step, made on the batch with
    [(it + 1) % accum_iter == 0], the last of its accumulation window,
    and [zero_grad] is called directly after it and on no other batch;
    in the state, after each number [k] of batches the run has got
    through (the run on the first [k] batches ends there), the
    parameters are the ones the loop was entered with followed by
    exactly one update per completed window, the update of a window made
    of the gradient contributions of the batches of that window, and the
    gradient buffers are empty when batch [k - 1] ended a window and
    hold every contribution since the last update otherwise.  Both
    drivers. *)
Theorem accumulation_one_update_per_window
    `{K : Kernels}
    (a : Cached.args) (e : Cached.env) (bs : list batch)
    (fs : gmap string checkpoint) (w : world)
    (a' : Noncached.args) (e' : Noncached.env) (bs' : list batch)
    (fs' : gmap string checkpoint) (w' : world) :
  1 <= Cached.accum_iter a ->
  1 <= Noncached.accum_iter a' ->
  Cached.main a e bs (init_world fs) = (Val tt, w) ->
  Noncached.main a' e' bs' (init_world fs') = (Val tt, w') ->
  (accumulation_ok (Cached.accum_iter a) (length bs) (trace w) /\
   forall k, (k <= length bs)%nat ->
     exists u,
       Cached.main a e (take k bs) (init_world fs) = (Val tt, u) /\
       accumulation_state (Cached.accum_iter a)
         (initial_weights fs (Cached.resume a)) k (model u)) /\
  (accumulation_ok (Noncached.accum_iter a') (length bs') (trace w') /\
   forall k, (k <= length bs')%nat ->
     exists u,
       Noncached.main a' e' (take k bs') (init_world fs') = (Val tt, u) /\
       accumulation_state (Noncached.accum_iter a')
         (initial_weights fs' (Noncached.model_ckpt a')) k (model u)).
Proof.
  intros Ha Ha' H H'. split; split.
  - apply cached_main_chain in H as (w0 & Hs & _ & _ & Hc).
    apply (chain_accumulation (cached_params a e) _ w0 w Ha);
      [apply Hs | exact Hc].
  - intros k Hk. rewrite <- (take_drop k bs) in H.
    apply cached_main_prefix in H as [u Hu]. exists u.
    split; [exact Hu|].
    pose proof (cached_accumulation_state a e _ fs u Ha Hu) as S.
    rewrite length_take, Nat.min_l in S by exact Hk. exact S.
  - apply noncached_main_chain in H' as (w0 & enc0 & Hs & _ & _ & _ & _ & Hc).
    apply (chain_accumulation (noncached_params a' e') _ w0 w' Ha');
      [apply Hs | exact Hc].
  - intros k Hk. rewrite <- (take_drop k bs') in H'.
    apply noncached_main_prefix in H' as [u Hu]. exists u.
    split; [exact Hu|].
    pose proof (noncached_accumulation_state a' e' _ fs' u Ha' Hu) as S.
    rewrite length_take, Nat.min_l in S by exact Hk. exact S.
Qed.

Lemma accumulation_one_update_per_window_witness :
  (accumulation_ok 2 5 (trace (snd Demo.first_run)) /\
   forall k, (k <= length (repeat Demo.good 5))%nat ->
     exists u,
       Cached.main (K := Demo.kernels) Demo.cached_args Demo.cached_env
         (take k (repeat Demo.good 5)) (init_world ∅) = (Val tt, u) /\
       accumulation_state (Cached.accum_iter Demo.cached_args)
         (initial_weights ∅ (Cached.resume Demo.cached_args)) k
         (model u)) /\
  (accumulation_ok 2 5 (trace (snd Demo.noncached_run)) /\
   forall k, (k <= length (repeat Demo.good 5))%nat ->
     exists u,
       Noncached.main (K := Demo.kernels) Demo.noncached_args
         Demo.noncached_env (take k (repeat Demo.good 5))
         (init_world ∅) = (Val tt, u) /\
       accumulation_state (Noncached.accum_iter Demo.noncached_args)
         (initial_weights ∅ (Noncached.model_ckpt Demo.noncached_args)) k
         (model u)).
Proof.
  apply (accumulation_one_update_per_window (K := Demo.kernels)
           Demo.cached_args Demo.cached_env (repeat Demo.good 5) ∅
           (snd Demo.first_run)
           Demo.noncached_args Demo.noncached_env (repeat Demo.good 5) ∅
           (snd Demo.noncached_run)).
  - simpl. lia.
  - simpl. lia.
  - vm_compute. reflexivity.
  - vm_compute. reflexivity.
Defined.

(** X6. In a run that consumes its [n] batches, with [accum_iter >= 1],
    the parameters of the model are those it started with, followed by
    one update per completed window of [accum_iter] batches; the update
    of a window is made of the gradient contributions of exactly the
    batches of that window, each of a loss divided by [accum_iter]; and
    the gradient buffers hold the contributions of the batches of the
    window still open, or nothing when [n] is a multiple of
    [accum_iter].  Both drivers. *)
Theorem updates_are_whole_windows `{K : Kernels}
    (a : Cached.args) (e : Cached.env) (bs : list batch)
    (fs : gmap string checkpoint) (w : world)
    (a' : Noncached.args) (e' : Noncached.env) (bs' : list batch)
    (fs' : gmap string checkpoint) (w' : world) :
  1 <= Cached.accum_iter a ->
  1 <= Noncached.accum_iter a' ->
  Cached.main a e bs (init_world fs) = (Val tt, w) ->
  Noncached.main a' e' bs' (init_world fs') = (Val tt, w') ->
  (weights (model w) =
     initial_weights fs (Cached.resume a) ++
     expected_updates (Cached.accum_iter a) (Z.of_nat (length bs)) /\
   grad (model w) =
     pending_gradient (Cached.accum_iter a) (Z.of_nat (length bs))) /\
  (weights (model w') =
     initial_weights fs' (Noncached.model_ckpt a') ++
     expected_updates (Noncached.accum_iter a') (Z.of_nat (length bs')) /\
   grad (model w') =
     pending_gradient (Noncached.accum_iter a') (Z.of_nat (length bs'))).
Proof.
  intros Ha Ha' H H'. split.
  - apply cached_main_turns in H as (w0 & Hs & _ & _ & Hc).
    apply (chain_impl _ _ (turn_rel_facts (cached_params a e))) in Hc.
    apply (chain_provenance (cached_params a e) _ _ ltac:(simpl; lia)
             0 w0 w ltac:(lia) Hc).
    + rewrite (start_initial_weights _ _ _ Hs).
      unfold expected_updates. simpl. now rewrite app_nil_r.
    + rewrite (so_grad _ _ _ Hs). reflexivity.
  - apply noncached_main_turns in H' as (w0 & Hs & _ & _ & Hc).
    apply (chain_impl _ _ (turn_rel_facts (noncached_params a' e'))) in Hc.
    apply (chain_provenance (noncached_params a' e') _ _ ltac:(simpl; lia)
             0 w0 w' ltac:(lia) Hc).
    + rewrite (start_initial_weights _ _ _ Hs).
      unfold expected_updates. simpl. now rewrite app_nil_r.
    + rewrite (so_grad _ _ _ Hs). reflexivity.
Qed.

Lemma updates_are_whole_windows_witness :
  (weights (model (snd Demo.first_run)) =
     initial_weights ∅ (Cached.resume Demo.cached_args) ++
     expected_updates (Cached.accum_iter Demo.cached_args)
       (Z.of_nat (length (repeat Demo.good 5))) /\
   grad (model (snd Demo.first_run)) =
     pending_gradient (Cached.accum_iter Demo.cached_args)
       (Z.of_nat (length (repeat Demo.good 5)))) /\
  (weights (model (snd Demo.noncached_run)) =
     initial_weights ∅ (Noncached.model_ckpt Demo.noncached_args) ++
     expected_updates (Noncached.accum_iter Demo.noncached_args)
       (Z.of_nat (length (repeat Demo.good 5))) /\
   grad (model (snd Demo.noncached_run)) =
     pending_gradient (Noncached.accum_iter Demo.noncached_args)
       (Z.of_nat (length (repeat Demo.good 5)))).
Proof.
  apply (updates_are_whole_windows (K := Demo.kernels)
           Demo.cached_args Demo.cached_env (repeat Demo.good 5) ∅
           (snd Demo.first_run)
           Demo.noncached_args Demo.noncached_env (repeat Demo.good 5) ∅
           (snd Demo.noncached_run)).
  - simpl. lia.
  - simpl. lia.
  - vm_compute. reflexivity.
  - vm_compute. reflexivity.
Defined.

(** ** The saves of a run *)

Lemma flat_map_stamped_nil {B} (f : option Z * event -> list B)
    (p : event -> bool) (s : option Z) (l : list event) :
  (forall e, p e = true -> f (s, e) = []) ->
  forallb p l = true ->
  flat_map f (List.map (pair s) l) = [].
Proof.
  intros Hf. induction l as [|e l IH]; simpl; [reflexivity|].
  intros H. apply andb_true_iff in H as [He Hl].
  rewrite (Hf e He), (IH Hl). reflexivity.
Qed.

Lemma train_call_no_save s e : train_call e = true -> save_of (s, e) = [].
Proof. destruct e; simpl; try discriminate; reflexivity. Qed.
Lemma eval_call_no_save s e : eval_call e = true -> save_of (s, e) = [].
Proof. destruct e; simpl; try discriminate; reflexivity. Qed.
Lemma train_call_no_score s e : train_call e = true -> score_of (s, e) = [].
Proof. destruct e; simpl; try discriminate; reflexivity. Qed.
Lemma eval_call_no_score s e : eval_call e = true -> score_of (s, e) = [].
Proof. destruct e; simpl; try discriminate; reflexivity. Qed.

(** What the calls of a turn add to a reading [f] of the trace that
    ignores forward passes. *)
Lemma turn_reading {B} (f : option Z * event -> list B) P i w w' pre v o :
  (forall e, train_call e = true -> f (Some i, e) = []) ->
  (forall e, eval_call e = true -> f (Some i, e) = []) ->
  forallb train_call pre = true ->
  (forall d, o = Some d -> forallb eval_call (po_fwd d) = true) ->
  trace w' =
    trace w ++
    List.map (pair (Some i))
      (step_events pre (boundary (p_accum P) i) v
         (turn_tail P (best_eval_acc1 w) o)) ->
  flat_map f (trace w') =
  flat_map f (trace w) ++
  flat_map f
    (List.map (pair (Some i))
       ([EvBackward] ++
        (if boundary (p_accum P) i then [EvOptStep; EvZeroGrad] else []) ++
        [EvMetricUpdate v] ++
        match o with
        | None => []
        | Some d =>
            [EvPrint MsgEvaluating; EvEvaluate;
             EvPrint (MsgAcc (po_acc1 d) (po_acc5 d) (po_loss d))] ++
            (if float_gt (po_acc1 d) (best_eval_acc1 w)
             then [EvPrint MsgSaving; EvSave (p_path P) (po_acc1 d)]
             else []) ++
            (if p_main P then [EvLog] else []) ++ [EvTrainMode]
        end)).
Proof.
  intros Ht He Fp Fo ->. rewrite flat_map_app. f_equal.
  unfold step_events. rewrite !List.map_app, !flat_map_app.
  rewrite (flat_map_stamped_nil f train_call _ pre Ht Fp). simpl.
  f_equal. f_equal. f_equal.
  destruct o as [d|]; [| reflexivity].
  simpl. unfold phase_events.
  rewrite !List.map_app, !flat_map_app.
  rewrite (flat_map_stamped_nil f eval_call _ (po_fwd d) He (Fo d eq_refl)).
  simpl. rewrite ?app_nil_r, <- ?app_assoc. reflexivity.
Qed.

Lemma increasing_snoc b l x :
  increasing_from b (l ++ [x]) =
  increasing_from b l && float_gt x (default b (last l)).
Proof.
  revert b. induction l as [|y l IH]; intros b; simpl.
  - now rewrite andb_true_r.
  - rewrite IH, andb_assoc. do 2 f_equal.
    destruct l as [|z l]; [reflexivity|].
    simpl. destruct (last (z :: l)) eqn:E; [reflexivity|].
    apply last_None in E. discriminate E.
Qed.

Lemma Qltb_ge a b : Qltb a b = false <-> (b <= a)%Q.
Proof.
  split.
  - intros H. apply Qnot_lt_le. intros L. apply Qltb_lt in L. congruence.
  - intros H. destruct (Qltb a b) eqn:E; [| reflexivity].
    apply Qltb_lt in E. exfalso. exact (Qlt_not_le _ _ E H).
Qed.

(** A score that does not exceed the best does not exceed a better
    one. *)
Lemma float_gt_below a b c :
  float_gt a b = false -> float_gt c b = true -> float_gt a c = false.
Proof.
  destruct a as [x| | |], b as [y| | |], c as [z| | |]; simpl;
    try discriminate; try reflexivity.
  intros H1 H2. apply Qltb_ge in H1. apply Qltb_lt in H2.
  apply Qltb_ge. apply Qlt_le_weak. eapply Qle_lt_trans; eassumption.
Qed.

Lemma turn_saves P i w w' :
  turn_facts P i w w' ->
  exists o,
    (if cadence (p_save_freq P) i then o <> None else o = None) /\
    saves (trace w') =
      saves (trace w) ++
      (match o with
       | Some d =>
           if float_gt (po_acc1 d) (best_eval_acc1 w)
           then [(Some i, po_acc1 d)] else []
       | None => []
       end) /\
    evaluated_scores (trace w') =
      evaluated_scores (trace w) ++
      (match o with Some d => [po_acc1 d] | None => [] end) /\
    best_eval_acc1 w' =
      (match o with
       | Some d =>
           if float_gt (po_acc1 d) (best_eval_acc1 w) then po_acc1 d
           else best_eval_acc1 w
       | None => best_eval_acc1 w
       end) /\
    checkpoints w' =
      (if improved (best_eval_acc1 w) o && p_main P
       then <[p_path P := make_save_dict i w']> (checkpoints w)
       else checkpoints w).
Proof.
  intros [pre v o Fp _ _ Ho Fo Ht _ _ _ _ Hb Hc _].
  exists o. split; [exact Ho|].
  split; [| split; [| split; [exact Hb | exact Hc]]].
  - unfold saves.
    rewrite (turn_reading save_of P i w w' pre v o
               (train_call_no_save _) (eval_call_no_save _) Fp Fo Ht).
    f_equal. destruct (boundary _ _), o as [d|]; simpl; try reflexivity;
      destruct (float_gt _ _), (p_main P); reflexivity.
  - unfold evaluated_scores.
    rewrite (turn_reading score_of P i w w' pre v o
               (train_call_no_score _) (eval_call_no_score _) Fp Fo Ht).
    f_equal. destruct (boundary _ _), o as [d|]; simpl; try reflexivity;
      destruct (float_gt _ _), (p_main P); reflexivity.
Qed.

Lemma turn_scores P i w w' :
  turn_facts P i w w' -> scores_ok w -> scores_ok w'.
Proof.
  intros H (I1 & I2 & I3).
  destruct (turn_saves P i w w' H) as (o & _ & Hs & He & Hb & _).
  unfold scores_ok, saved_scores. rewrite Hs, He, Hb.
  destruct o as [d|]; [| rewrite !app_nil_r; auto].
  destruct (float_gt (po_acc1 d) (best_eval_acc1 w)) eqn:Eg.
  - rewrite List.map_app. simpl. split; [| split].
    + rewrite increasing_snoc. fold (saved_scores (trace w)).
      rewrite I1, <- I2, Eg. reflexivity.
    + now rewrite last_snoc.
    + apply Forall_app. split.
      * eapply Forall_impl; [exact I3|]. intros a Ha. simpl in Ha.
        eapply float_gt_below; eassumption.
      * constructor; [apply float_gt_irrefl | constructor].
  - rewrite app_nil_r. split; [exact I1|]. split; [exact I2|].
    apply Forall_app. split; [exact I3|].
    constructor; [exact Eg | constructor].
Qed.

Lemma chain_scores P i n w w' :
  chain (turn_facts P) i n w w' -> scores_ok w -> scores_ok w'.
Proof.
  apply (chain_inv (turn_facts P) scores_ok).
  intros j u u' H. now apply (turn_scores P j).
Qed.

Lemma start_scores fs path w0 : start_ok fs path w0 -> scores_ok w0.
Proof.
  intros Hs. unfold scores_ok, saved_scores, saves, evaluated_scores.
  rewrite (so_trace _ _ _ Hs), (so_best _ _ _ Hs). simpl.
  repeat split. constructor.
Qed.

(** X7. In a run that consumes its batches, the accuracies for which a
    checkpoint was saved increase strictly from one save to the next, the
    first being above 0.0; the best score at the end is the accuracy of
    the last save, or 0.0 if nothing was saved; and no evaluation of the
    run scored above it.  Both drivers. *)
Theorem saved_scores_increase `{K : Kernels}
    (a : Cached.args) (e : Cached.env) (bs : list batch)
    (fs : gmap string checkpoint) (w : world)
    (a' : Noncached.args) (e' : Noncached.env) (bs' : list batch)
    (fs' : gmap string checkpoint) (w' : world) :
  Cached.main a e bs (init_world fs) = (Val tt, w) ->
  Noncached.main a' e' bs' (init_world fs') = (Val tt, w') ->
  (increasing_from (Fin 0) (saved_scores (trace w)) = true /\
   best_eval_acc1 w = default (Fin 0) (last (saved_scores (trace w))) /\
   Forall (fun x => float_gt x (best_eval_acc1 w) = false)
     (evaluated_scores (trace w))) /\
  (increasing_from (Fin 0) (saved_scores (trace w')) = true /\
   best_eval_acc1 w' = default (Fin 0) (last (saved_scores (trace w'))) /\
   Forall (fun x => float_gt x (best_eval_acc1 w') = false)
     (evaluated_scores (trace w'))).
Proof.
  intros H H'. split.
  - apply cached_main_turns in H as (w0 & Hs & _ & _ & Hc).
    apply (chain_impl _ _ (turn_rel_facts (cached_params a e))) in Hc.
    exact (chain_scores _ _ _ _ _ Hc (start_scores _ _ _ Hs)).
  - apply noncached_main_turns in H' as (w0 & Hs & _ & _ & Hc).
    apply (chain_impl _ _ (turn_rel_facts (noncached_params a' e'))) in Hc.
    exact (chain_scores _ _ _ _ _ Hc (start_scores _ _ _ Hs)).
Qed.

Lemma saved_scores_increase_witness :
  (increasing_from (Fin 0) (saved_scores (trace (snd Demo.first_run))) =
     true /\
   best_eval_acc1 (snd Demo.first_run) =
     default (Fin 0) (last (saved_scores (trace (snd Demo.first_run)))) /\
   Forall
     (fun x => float_gt x (best_eval_acc1 (snd Demo.first_run)) = false)
     (evaluated_scores (trace (snd Demo.first_run)))) /\
  (increasing_from (Fin 0) (saved_scores (trace (snd Demo.noncached_run))) =
     true /\
   best_eval_acc1 (snd Demo.noncached_run) =
     default (Fin 0)
       (last (saved_scores (trace (snd Demo.noncached_run)))) /\
   Forall
     (fun x => float_gt x (best_eval_acc1 (snd Demo.noncached_run)) = false)
     (evaluated_scores (trace (snd Demo.noncached_run)))).
Proof.
  apply (saved_scores_increase (K := Demo.kernels)
           Demo.cached_args Demo.cached_env (repeat Demo.good 5) ∅
           (snd Demo.first_run)
           Demo.noncached_args Demo.noncached_env (repeat Demo.good 5) ∅
           (snd Demo.noncached_run)).
  - vm_compute. reflexivity.
  - vm_compute. reflexivity.
Defined.

(** ** The checkpoint a run leaves *)

Lemma final_checkpoint_step P fs W0 i w w' :
  0 < p_accum P -> 0 <= i -> p_main P = true ->
  turn_facts P i w w' ->
  weights (model w) = W0 ++ expected_updates (p_accum P) i ->
  grad (model w) = pending_gradient (p_accum P) i ->
  final_checkpoint P fs W0 w ->
  final_checkpoint P fs W0 w'.
Proof.
  intros Ha Hi Hm H HW HG HF.
  destruct (turn_provenance P W0 i w w' Ha Hi H HW HG) as [HW' _].
  destruct (turn_saves P i w w' H) as (o & Ho & Hs & _ & Hb & Hc).
  unfold final_checkpoint in *. rewrite Hs, Hc, Hb, Hm.
  destruct o as [d|]; simpl.
  2:{ rewrite app_nil_r. exact HF. }
  destruct (float_gt (po_acc1 d) (best_eval_acc1 w)) eqn:Eg; simpl.
  2:{ rewrite app_nil_r. exact HF. }
  rewrite last_snoc.
  assert (Hcad : cadence (p_save_freq P) i = true).
  { destruct (cadence (p_save_freq P) i); [reflexivity | discriminate Ho]. }
  exists (make_save_dict i w'). simpl.
  split; [| repeat split; assumption].
  destruct (last (saves (trace w))) as [[s acc]|].
  - destruct HF as (ck & -> & _). apply insert_insert_eq.
  - rewrite HF. reflexivity.
Qed.

Lemma chain_final_checkpoint P fs W0 n :
  0 < p_accum P -> p_main P = true ->
  forall i w w', 0 <= i ->
    chain (turn_facts P) i n w w' ->
    weights (model w) = W0 ++ expected_updates (p_accum P) i ->
    grad (model w) = pending_gradient (p_accum P) i ->
    final_checkpoint P fs W0 w ->
    final_checkpoint P fs W0 w'.
Proof.
  intros Ha Hm. induction n as [|n IH]; intros i w w' Hi H HW HG HF.
  - inversion H; subst. exact HF.
  - inversion H as [| i0 n0 u u1 u2 H1 H2]; subst.
    destruct (turn_provenance P W0 i w u1 Ha Hi H1 HW HG) as [HW1 HG1].
    apply (IH (i + 1) u1 w'); try assumption; [lia|].
    now apply (final_checkpoint_step P fs W0 i w u1).
Qed.

Lemma chain_no_checkpoint P i n w w' :
  p_main P = false ->
  chain (turn_facts P) i n w w' -> checkpoints w' = checkpoints w.
Proof.
  intros Hm H. induction H as [i w | i n w w1 w2 H1 H2 IH]; [reflexivity|].
  rewrite IH. destruct H1 as [pre v o _ _ _ _ _ _ _ _ _ _ _ Hc _].
  rewrite Hc, Hm, andb_false_r. reflexivity.
Qed.

Lemma start_final_checkpoint P fs path w0 :
  start_ok fs path w0 -> final_checkpoint P fs (initial_weights fs path) w0.
Proof.
  intros Hs. unfold final_checkpoint, saves.
  rewrite (so_trace _ _ _ Hs). simpl. exact (so_ck _ _ _ Hs).
Qed.

(** X8. The checkpoint files a run that consumes its batches leaves, with
    [accum_iter >= 1]: on the process that writes them, the files are
    those the run started from if it saved nothing, and otherwise differ
    only at the run's one checkpoint path, which holds the bundle of the
    last save: its iteration is the index [it] of that save, a non-zero
    multiple of [save_freq], its accuracy is the best score of the run,
    and its parameters are those after the updates of the first [it + 1]
    batches; on another process the files are untouched.  Both
    drivers. *)
Theorem checkpoint_holds_last_save `{K : Kernels}
    (a : Cached.args) (e : Cached.env) (bs : list batch)
    (fs : gmap string checkpoint) (w : world)
    (a' : Noncached.args) (e' : Noncached.env) (bs' : list batch)
    (fs' : gmap string checkpoint) (w' : world) :
  1 <= Cached.accum_iter a ->
  1 <= Noncached.accum_iter a' ->
  Cached.main a e bs (init_world fs) = (Val tt, w) ->
  Noncached.main a' e' bs' (init_world fs') = (Val tt, w') ->
  (if Cached.is_main_process e
   then final_checkpoint (cached_params a e) fs
          (initial_weights fs (Cached.resume a)) w
   else checkpoints w = fs) /\
  (if Noncached.is_main_process e'
   then final_checkpoint (noncached_params a' e') fs'
          (initial_weights fs' (Noncached.model_ckpt a')) w'
   else checkpoints w' = fs').
Proof.
  intros Ha Ha' H H'. split.
  - apply cached_main_turns in H as (w0 & Hs & _ & _ & Hc).
    apply (chain_impl _ _ (turn_rel_facts (cached_params a e))) in Hc.
    destruct (Cached.is_main_process e) eqn:Em.
    + apply (chain_final_checkpoint (cached_params a e) fs _ _
               ltac:(simpl; lia) Em 0 w0 w ltac:(lia) Hc).
      * rewrite (start_initial_weights _ _ _ Hs).
        unfold expected_updates. simpl. now rewrite app_nil_r.
      * rewrite (so_grad _ _ _ Hs). reflexivity.
      * apply (start_final_checkpoint _ _ _ _ Hs).
    + rewrite (chain_no_checkpoint (cached_params a e) _ _ _ _ Em Hc).
      apply Hs.
  - apply noncached_main_turns in H' as (w0 & Hs & _ & _ & Hc).
    apply (chain_impl _ _ (turn_rel_facts (noncached_params a' e'))) in Hc.
    destruct (Noncached.is_main_process e') eqn:Em.
    + apply (chain_final_checkpoint (noncached_params a' e') fs' _ _
               ltac:(simpl; lia) Em 0 w0 w' ltac:(lia) Hc).
      * rewrite (start_initial_weights _ _ _ Hs).
        unfold expected_updates. simpl. now rewrite app_nil_r.
      * rewrite (so_grad _ _ _ Hs). reflexivity.
      * apply (start_final_checkpoint _ _ _ _ Hs).
    + rewrite (chain_no_checkpoint (noncached_params a' e') _ _ _ _ Em Hc).
      apply Hs.
Qed.

Lemma checkpoint_holds_last_save_witness :
  (if Cached.is_main_process Demo.cached_env
   then final_checkpoint (cached_params Demo.cached_args Demo.cached_env) ∅
          (initial_weights ∅ (Cached.resume Demo.cached_args))
          (snd Demo.first_run)
   else checkpoints (snd Demo.first_run) = ∅) /\
  (if Noncached.is_main_process Demo.noncached_env
   then final_checkpoint
          (noncached_params Demo.noncached_args Demo.noncached_env) ∅
          (initial_weights ∅ (Noncached.model_ckpt Demo.noncached_args))
          (snd Demo.noncached_run)
   else checkpoints (snd Demo.noncached_run) = ∅).
Proof.
  apply (checkpoint_holds_last_save (K := Demo.kernels)
           Demo.cached_args Demo.cached_env (repeat Demo.good 5) ∅
           (snd Demo.first_run)
           Demo.noncached_args Demo.noncached_env (repeat Demo.good 5) ∅
           (snd Demo.noncached_run)).
  - simpl. lia.
  - simpl. lia.
  - vm_compute. reflexivity.
  - vm_compute. reflexivity.
Defined.

(** ** The log of a run *)

Lemma train_call_no_evaluation s e :
  train_call e = true -> evaluation_of (s, e) = [].
Proof. destruct e; simpl; try discriminate; reflexivity. Qed.
Lemma eval_call_no_evaluation s e :
  eval_call e = true -> evaluation_of (s, e) = [].
Proof. destruct e; simpl; try discriminate; reflexivity. Qed.

Lemma turn_log_records P i w w' :
  turn_facts P i w w' ->
  exists v o,
    (if cadence (p_save_freq P) i then o <> None else o = None) /\
    log_file w' = log_file w ++ turn_log P i v (metric_logger w) o /\
    evaluations (trace w') =
      evaluations (trace w) ++
      (match o with Some d => [(Some i, po_loss d)] | None => [] end).
Proof.
  intros [pre v o Fp _ _ Ho Fo Ht _ _ _ _ _ _ Hl].
  exists v, o. split; [exact Ho|]. split; [exact Hl|].
  unfold evaluations.
  rewrite (turn_reading evaluation_of P i w w' pre v o
             (train_call_no_evaluation _) (eval_call_no_evaluation _)
             Fp Fo Ht).
  f_equal. destruct (boundary _ _), o as [d|]; simpl; try reflexivity;
    destruct (float_gt _ _), (p_main P); reflexivity.
Qed.

Lemma chain_log_main P n :
  p_main P = true ->
  forall i w w',
    chain (turn_facts P) i n w w' ->
    List.map record_key (log_file w) = evaluations (trace w) ->
    List.map record_key (log_file w') = evaluations (trace w') /\
    List.map lr_iteration (log_file w') =
      List.map lr_iteration (log_file w) ++
      List.filter (cadence (p_save_freq P)) (indices i n).
Proof.
  intros Hm. induction n as [|n IH]; intros i w w' H HL.
  - inversion H; subst. simpl. rewrite app_nil_r. auto.
  - inversion H as [| i0 n0 u u1 u2 H1 H2]; subst.
    destruct (turn_log_records P i w u1 H1) as (v & o & Ho & Hl & He).
    assert (HL1 : List.map record_key (log_file u1) =
                  evaluations (trace u1)).
    { rewrite Hl, He, List.map_app, HL. f_equal.
      unfold turn_log. destruct o as [d|]; [| reflexivity].
      rewrite Hm. reflexivity. }
    destruct (IH (i + 1) u1 w' H2 HL1) as [E1 E2].
    split; [exact E1|]. rewrite E2, Hl, List.map_app, <- app_assoc.
    f_equal. simpl. unfold turn_log.
    destruct (cadence (p_save_freq P) i).
    + destruct o as [d|]; [| contradiction]. rewrite Hm. reflexivity.
    + subst o. reflexivity.
Qed.

Lemma chain_log_other P i n w w' :
  p_main P = false ->
  chain (turn_facts P) i n w w' -> log_file w' = log_file w.
Proof.
  intros Hm H. induction H as [i w | i n w w1 w2 H1 H2 IH]; [reflexivity|].
  rewrite IH. destruct H1 as [pre v o _ _ _ _ _ _ _ _ _ _ _ _ Hl].
  rewrite Hl. unfold turn_log. destruct o; rewrite ?Hm, app_nil_r;
    reflexivity.
Qed.

(** X9. The log a run that consumes its [n] batches leaves: on the main
    process, one record per evaluation/checkpoint phase that ran, in
    order, whether or not the phase saved a checkpoint; the iterations
    of the records are the indices below [n] with [it != 0] and
    [it % save_freq == 0], and each record carries the loss that the
    evaluation of its phase returned; on another process the log stays
    empty.  Both drivers. *)
Theorem log_follows_evaluations `{K : Kernels}
    (a : Cached.args) (e : Cached.env) (bs : list batch)
    (fs : gmap string checkpoint) (w : world)
    (a' : Noncached.args) (e' : Noncached.env) (bs' : list batch)
    (fs' : gmap string checkpoint) (w' : world) :
  Cached.main a e bs (init_world fs) = (Val tt, w) ->
  Noncached.main a' e' bs' (init_world fs') = (Val tt, w') ->
  (if Cached.is_main_process e
   then List.map record_key (log_file w) = evaluations (trace w) /\
        List.map lr_iteration (log_file w) =
          List.filter (cadence (Cached.save_freq a))
            (indices 0 (length bs))
   else log_file w = []) /\
  (if Noncached.is_main_process e'
   then List.map record_key (log_file w') = evaluations (trace w') /\
        List.map lr_iteration (log_file w') =
          List.filter (cadence (Noncached.save_freq a'))
            (indices 0 (length bs'))
   else log_file w' = []).
Proof.
  intros H H'. split.
  - apply cached_main_turns in H as (w0 & Hs & _ & _ & Hc).
    apply (chain_impl _ _ (turn_rel_facts (cached_params a e))) in Hc.
    destruct (Cached.is_main_process e) eqn:Em.
    + destruct (chain_log_main (cached_params a e) _ Em 0 w0 w Hc)
        as [E1 E2].
      { unfold evaluations.
        rewrite (so_log _ _ _ Hs), (so_trace _ _ _ Hs). reflexivity. }
      split; [exact E1|]. rewrite E2, (so_log _ _ _ Hs). reflexivity.
    + rewrite (chain_log_other (cached_params a e) _ _ _ _ Em Hc).
      apply Hs.
  - apply noncached_main_turns in H' as (w0 & Hs & _ & _ & Hc).
    apply (chain_impl _ _ (turn_rel_facts (noncached_params a' e'))) in Hc.
    destruct (Noncached.is_main_process e') eqn:Em.
    + destruct (chain_log_main (noncached_params a' e') _ Em 0 w0 w' Hc)
        as [E1 E2].
      { unfold evaluations.
        rewrite (so_log _ _ _ Hs), (so_trace _ _ _ Hs). reflexivity. }
      split; [exact E1|]. rewrite E2, (so_log _ _ _ Hs). reflexivity.
    + rewrite (chain_log_other (noncached_params a' e') _ _ _ _ Em Hc).
      apply Hs.
Qed.

Lemma log_follows_evaluations_witness :
  (if Cached.is_main_process Demo.cached_env
   then List.map record_key (log_file (snd Demo.first_run)) =
          evaluations (trace (snd Demo.first_run)) /\
        List.map lr_iteration (log_file (snd Demo.first_run)) =
          List.filter (cadence (Cached.save_freq Demo.cached_args))
            (indices 0 (length (repeat Demo.good 5)))
   else log_file (snd Demo.first_run) = []) /\
  (if Noncached.is_main_process Demo.noncached_env
   then List.map record_key (log_file (snd Demo.noncached_run)) =
          evaluations (trace (snd Demo.noncached_run)) /\
        List.map lr_iteration (log_file (snd Demo.noncached_run)) =
          List.filter (cadence (Noncached.save_freq Demo.noncached_args))
            (indices 0 (length (repeat Demo.good 5)))
   else log_file (snd Demo.noncached_run) = []).
Proof.
  apply (log_follows_evaluations (K := Demo.kernels)
           Demo.cached_args Demo.cached_env (repeat Demo.good 5) ∅
           (snd Demo.first_run)
           Demo.noncached_args Demo.noncached_env (repeat Demo.good 5) ∅
           (snd Demo.noncached_run)).
  - vm_compute. reflexivity.
  - vm_compute. reflexivity.
Defined.

(** ** Training mode and evaluation mode *)

Lemma mode_after_app s t1 t2 :
  mode_after s (t1 ++ t2) =
  match mode_after s t1 with
  | Some s' => mode_after s' t2
  | None => None
  end.
Proof.
  revert s. induction t1 as [|e t1 IH]; intros s; simpl; [reflexivity|].
  destruct e as [[] m g| | | | | | | | |]; simpl;
    repeat match goal with
           | |- context [if ?c then _ else _] => destruct c
           end; auto.
Qed.

Lemma mode_after_train pre :
  forallb train_call pre = true -> mode_after false pre = Some false.
Proof.
  induction pre as [|e pre IH]; simpl; [reflexivity|].
  intros H. apply andb_true_iff in H as [He Hp].
  destruct e as [[] m g| | | | | | | | |]; simpl in He; try discriminate.
  - apply andb_true_iff in He as [-> ->]. simpl. auto.
  - rewrite He. auto.
Qed.

Lemma mode_after_eval fwd :
  forallb eval_call fwd = true -> mode_after true fwd = Some true.
Proof.
  induction fwd as [|e fwd IH]; simpl; [reflexivity|].
  intros H. apply andb_true_iff in H as [He Hp].
  destruct e as [[] m g| | | | | | | | |]; simpl in He; try discriminate.
  - apply andb_true_iff in He as [Hm Hg].
    apply negb_true_iff in Hm, Hg. subst. simpl. auto.
  - rewrite He. auto.
Qed.

Lemma turn_modes P i w w' :
  turn_facts P i w w' ->
  mode_after false (List.map snd (trace w)) = Some false ->
  mode_after false (List.map snd (trace w')) = Some false.
Proof.
  intros [pre v o Fp _ _ _ Fo Ht _ _ _ _ _ _ _] Hm.
  rewrite Ht, List.map_app, map_snd_stamped, mode_after_app, Hm.
  unfold step_events. rewrite mode_after_app, (mode_after_train pre Fp).
  destruct (boundary _ _), o as [d|]; simpl; try reflexivity;
    unfold phase_events; simpl;
    rewrite <- !app_assoc, mode_after_app,
      (mode_after_eval _ (Fo d eq_refl)); simpl;
    destruct (float_gt _ _), (p_main P); reflexivity.
Qed.

Lemma chain_modes P i n w w' :
  chain (turn_facts P) i n w w' ->
  mode_after false (List.map snd (trace w)) = Some false ->
  mode_after false (List.map snd (trace w')) = Some false.
Proof.
  apply (chain_inv (turn_facts P)
           (fun w => mode_after false (List.map snd (trace w)) =
                     Some false)).
  intros j u u' H. now apply (turn_modes P j).
Qed.

(** X10. Reading, in order, the calls of a run that consumes its batches:
    every forward pass of the model made between the start of an
    [evaluate] and the [model.train()] that ends its phase is in
    evaluation mode with gradient tracking off, and no backward pass,
    optimizer step, [zero_grad] or update of the training logger
    happens in between; every other forward pass of the model is in
    training mode with gradient tracking on, also after an evaluation;
    every forward pass of the encoder is in evaluation mode with tracking
    off; and the reading ends in training mode.  Both drivers. *)
Theorem modes_alternate `{K : Kernels}
    (a : Cached.args) (e : Cached.env) (bs : list batch)
    (fs : gmap string checkpoint) (w : world)
    (a' : Noncached.args) (e' : Noncached.env) (bs' : list batch)
    (fs' : gmap string checkpoint) (w' : world) :
  Cached.main a e bs (init_world fs) = (Val tt, w) ->
  Noncached.main a' e' bs' (init_world fs') = (Val tt, w') ->
  mode_after false (List.map snd (trace w)) = Some false /\
  mode_after false (List.map snd (trace w')) = Some false.
Proof.
  intros H H'. split.
  - apply cached_main_turns in H as (w0 & Hs & _ & _ & Hc).
    apply (chain_impl _ _ (turn_rel_facts (cached_params a e))) in Hc.
    apply (chain_modes _ _ _ _ _ Hc).
    rewrite (so_trace _ _ _ Hs). reflexivity.
  - apply noncached_main_turns in H' as (w0 & Hs & _ & _ & Hc).
    apply (chain_impl _ _ (turn_rel_facts (noncached_params a' e'))) in Hc.
    apply (chain_modes _ _ _ _ _ Hc).
    rewrite (so_trace _ _ _ Hs). reflexivity.
Qed.

Lemma modes_alternate_witness :
  mode_after false (List.map snd (trace (snd Demo.first_run))) =
    Some false /\
  mode_after false (List.map snd (trace (snd Demo.noncached_run))) =
    Some false.
Proof.
  apply (modes_alternate (K := Demo.kernels)
           Demo.cached_args Demo.cached_env (repeat Demo.good 5) ∅
           (snd Demo.first_run)
           Demo.noncached_args Demo.noncached_env (repeat Demo.good 5) ∅
           (snd Demo.noncached_run)).
  - vm_compute. reflexivity.
  - vm_compute. reflexivity.
Defined.

(** ** What the training logger holds *)

Lemma train_call_no_metric s e : train_call e = true -> metric_of (s, e) = [].
Proof. destruct e; simpl; try discriminate; reflexivity. Qed.
Lemma eval_call_no_metric s e : eval_call e = true -> metric_of (s, e) = [].
Proof. destruct e; simpl; try discriminate; reflexivity. Qed.

Lemma interval_start_bounds sf k :
  0 <= interval_start sf k <= Z.of_nat k.
Proof.
  induction k as [|k IH]; simpl interval_start; [lia|].
  destruct (cadence sf (Z.of_nat k)); lia.
Qed.

Lemma logger_of_snoc l v :
  logger_of (l ++ [v]) = logger_update "loss" v (logger_of l).
Proof. unfold logger_of. now rewrite fold_left_app. Qed.

Lemma losses_between_snoc lo hi tr tr' s v :
  metrics tr' = metrics tr ++ [(s, v)] ->
  losses_between lo hi tr' =
  losses_between lo hi tr ++ (if stamp_in lo hi s then [v] else []).
Proof.
  intros H. unfold losses_between. rewrite H, List.filter_app, List.map_app.
  simpl. destruct (stamp_in lo hi s); reflexivity.
Qed.

Lemma losses_between_empty lo hi tr : hi < lo -> losses_between lo hi tr = [].
Proof.
  intros H. unfold losses_between.
  induction (metrics tr) as [|[s v] m IH]; simpl; [reflexivity|].
  destruct s as [k|]; simpl; [| exact IH].
  destruct (lo <=? k) eqn:E1, (k <=? hi) eqn:E2; simpl; try exact IH.
  apply Z.leb_le in E1, E2. lia.
Qed.

Lemma losses_between_bound lo hi hi' k tr :
  List.map fst (metrics tr) = List.map Some (indices 0 k) ->
  Z.of_nat k - 1 <= hi -> Z.of_nat k - 1 <= hi' ->
  losses_between lo hi tr = losses_between lo hi' tr.
Proof.
  intros Hm H1 H2. unfold losses_between. f_equal.
  apply List.filter_ext_in. intros [s v] Hin. simpl.
  assert (Hs : In s (List.map Some (indices 0 k))).
  { rewrite <- Hm. apply (List.in_map fst) in Hin. exact Hin. }
  apply List.in_map_iff in Hs as (j & <- & Hj).
  apply in_indices in Hj. simpl.
  destruct (lo <=? j); simpl; [| reflexivity].
  transitivity true; [| symmetry]; apply Z.leb_le; lia.
Qed.

Lemma turn_logger P k w w' :
  turn_facts P (Z.of_nat k) w w' ->
  logger_ok (p_save_freq P) k w ->
  logger_ok (p_save_freq P) (S k) w'.
Proof.
  intros [pre v o Fp _ _ Ho Fo Ht _ _ _ Hml _ _ Hl] (Ia & Ib & Ic).
  assert (Hm : metrics (trace w') =
               metrics (trace w) ++ [(Some (Z.of_nat k), v)]).
  { unfold metrics.
    rewrite (turn_reading metric_of P _ w w' pre v o
               (train_call_no_metric _) (eval_call_no_metric _) Fp Fo Ht).
    f_equal. destruct (boundary _ _), o as [d|]; simpl; try reflexivity;
      destruct (float_gt _ _), (p_main P); reflexivity. }
  pose proof (interval_start_bounds (p_save_freq P) k) as Hb.
  assert (HX : logger_of
                 (losses_between (interval_start (p_save_freq P) k)
                    (Z.of_nat k) (trace w')) =
               logger_update "loss" v (metric_logger w)).
  { rewrite (losses_between_snoc _ _ _ _ _ _ Hm). simpl.
    replace ((interval_start (p_save_freq P) k <=? Z.of_nat k) &&
             (Z.of_nat k <=? Z.of_nat k)) with true
      by (symmetry; apply andb_true_iff; split; apply Z.leb_le; lia).
    rewrite logger_of_snoc, Ib.
    rewrite (losses_between_bound _ (Z.of_nat k) (Z.of_nat k - 1) k _ Ia)
      by lia.
    reflexivity. }
  split; [| split].
  - replace (S k) with (k + 1)%nat by lia.
    rewrite indices_app, Hm, !List.map_app, Ia. reflexivity.
  - rewrite Hml. simpl interval_start.
    replace (Z.of_nat (S k) - 1) with (Z.of_nat k) by lia.
    destruct (cadence (p_save_freq P) (Z.of_nat k)).
    + destruct o as [d|]; [| contradiction].
      rewrite losses_between_empty by lia. reflexivity.
    + subst o. symmetry. exact HX.
  - rewrite Hl. apply Forall_app. split.
    + eapply Forall_impl; [exact Ic|]. simpl.
      intros r [Hr Htr]. split; [lia|].
      rewrite Htr. unfold logged_train_stats. do 3 f_equal.
      rewrite (losses_between_snoc _ _ _ _ _ _ Hm). simpl.
      replace (Z.of_nat k <=? lr_iteration r) with false
        by (symmetry; apply Z.leb_gt; lia).
      rewrite andb_false_r, app_nil_r. reflexivity.
    + unfold turn_log. destruct o as [d|]; [| constructor].
      destruct (p_main P); [| constructor].
      constructor; [| constructor]. simpl. split; [lia|].
      unfold logged_train_stats. rewrite Nat2Z.id, HX. reflexivity.
Qed.

Lemma chain_logger P n :
  forall k w w',
    chain (turn_facts P) (Z.of_nat k) n w w' ->
    logger_ok (p_save_freq P) k w ->
    logger_ok (p_save_freq P) (k + n) w'.
Proof.
  induction n as [|n IH]; intros k w w' H HI.
  - inversion H; subst. now rewrite Nat.add_0_r.
  - inversion H as [| i0 n0 u u1 u2 H1 H2]; subst.
    replace (k + S n)%nat with (S k + n)%nat by lia.
    apply (IH (S k) u1 w').
    + replace (Z.of_nat (S k)) with (Z.of_nat k + 1) by lia. exact H2.
    + now apply (turn_logger P k w u1).
Qed.

Lemma start_logger sf fs path w0 :
  start_ok fs path w0 -> metric_logger w0 = ∅ -> logger_ok sf 0 w0.
Proof.
  intros Hs Hm. unfold logger_ok, metrics, losses_between, metrics.
  rewrite (so_trace _ _ _ Hs), (so_log _ _ _ Hs), Hm. simpl.
  repeat split. constructor.
Qed.

(** X11. After a run that consumes its [n] batches: the training logger
    was updated once per turn, in order; it holds exactly the losses of
    the turns made since the last evaluation/checkpoint phase (all [n]
    of them if there was none), since every phase replaces it by an
    empty one; and the training statistics of each record of the log are
    the averages over the losses of the turns from the first one after
    the previous phase to the turn of the record itself.  Both
    drivers. *)
Theorem train_stats_cover_interval `{K : Kernels}
    (a : Cached.args) (e : Cached.env) (bs : list batch)
    (fs : gmap string checkpoint) (w : world)
    (a' : Noncached.args) (e' : Noncached.env) (bs' : list batch)
    (fs' : gmap string checkpoint) (w' : world) :
  Cached.main a e bs (init_world fs) = (Val tt, w) ->
  Noncached.main a' e' bs' (init_world fs') = (Val tt, w') ->
  logger_ok (Cached.save_freq a) (length bs) w /\
  logger_ok (Noncached.save_freq a') (length bs') w'.
Proof.
  intros H H'. split.
  - apply cached_main_turns in H as (w0 & Hs & _ & Hm & Hc).
    apply (chain_impl _ _ (turn_rel_facts (cached_params a e))) in Hc.
    exact (chain_logger (cached_params a e) _ 0 w0 w Hc
             (start_logger _ _ _ _ Hs Hm)).
  - apply noncached_main_turns in H' as (w0 & Hs & _ & Hm & Hc).
    apply (chain_impl _ _ (turn_rel_facts (noncached_params a' e'))) in Hc.
    exact (chain_logger (noncached_params a' e') _ 0 w0 w' Hc
             (start_logger _ _ _ _ Hs Hm)).
Qed.

Lemma train_stats_cover_interval_witness :
  logger_ok (Cached.save_freq Demo.cached_args)
    (length (repeat Demo.good 5)) (snd Demo.first_run) /\
  logger_ok (Noncached.save_freq Demo.noncached_args)
    (length (repeat Demo.good 5)) (snd Demo.noncached_run).
Proof.
  apply (train_stats_cover_interval (K := Demo.kernels)
           Demo.cached_args Demo.cached_env (repeat Demo.good 5) ∅
           (snd Demo.first_run)
           Demo.noncached_args Demo.noncached_env (repeat Demo.good 5) ∅
           (snd Demo.noncached_run)).
  - vm_compute. reflexivity.
  - vm_compute. reflexivity.
Defined.

(** ** The files of a run *)

Lemma files_rel_refl path main w : files_rel path main w w.
Proof.
  split; [auto|]. split; [exists []; now rewrite app_nil_r | auto].
Qed.

Lemma files_rel_trans path main w1 w2 w3 :
  files_rel path main w1 w2 -> files_rel path main w2 w3 ->
  files_rel path main w1 w3.
Proof.
  intros (A1 & (e1 & B1) & C1) (A2 & (e2 & B2) & C2). split; [| split].
  - intros p Hp. rewrite A2, A1; auto.
  - exists (e1 ++ e2). rewrite B2, B1, app_assoc. reflexivity.
  - intros Hm. destruct (C1 Hm), (C2 Hm). split; congruence.
Qed.

Lemma files_rel_same path main w w' :
  checkpoints w' = checkpoints w -> log_file w' = log_file w ->
  files_rel path main w w'.
Proof.
  intros Hc Hl. rewrite <- (app_nil_r (log_file w)) in Hl.
  split; [intros p _; now rewrite Hc|]. split; [exists []; exact Hl|].
  intros _. rewrite app_nil_r in Hl. auto.
Qed.

Lemma files_rel_quiet path main ok w w' :
  qrel ok w w' -> files_rel path main w w'.
Proof.
  intros (q & Hq & _).
  apply files_rel_same; [exact (qr_ck _ _ _ Hq) | exact (qr_log _ _ _ Hq)].
Qed.

Lemma preserves_weaken {A} (R1 R2 : world -> world -> Prop) (m : M world A) :
  (forall w w', R1 w w' -> R2 w w') -> preserves R1 m -> preserves R2 m.
Proof. intros HR Hm w r w' H. apply HR. eapply Hm. exact H. Qed.

Lemma files_modify path main (f : world -> world) :
  (forall w, checkpoints (f w) = checkpoints w) ->
  (forall w, log_file (f w) = log_file w) ->
  preserves (files_rel path main) (modify f).
Proof.
  intros Hc Hl. apply preserves_modify. intros w.
  now apply files_rel_same.
Qed.

Lemma files_emit path main e : preserves (files_rel path main) (emit e).
Proof. apply files_modify; reflexivity. Qed.

Lemma fold_update_files (f : nn_module -> nn_module) ids w :
  checkpoints (fold_right (fun id => update_module id f) w ids) =
    checkpoints w /\
  log_file (fold_right (fun id => update_module id f) w ids) = log_file w.
Proof.
  induction ids as [|id ids IH]; simpl; [auto|].
  destruct id; simpl; exact IH.
Qed.

Ltac files_bind :=
  apply preserves_bind; [apply files_rel_trans | | intros ?].

Lemma files_model_train path main :
  preserves (files_rel path main) model_train.
Proof.
  unfold model_train. files_bind;
    [apply files_modify; reflexivity | apply files_emit].
Qed.

Lemma files_zero_grad path main :
  preserves (files_rel path main) optimizer_zero_grad.
Proof.
  unfold optimizer_zero_grad. files_bind; [apply files_emit|].
  apply preserves_modify. intros w.
  destruct (fold_update_files (set_grad None) (param_groups w) w).
  now apply files_rel_same.
Qed.

Lemma files_optimizer_step path main :
  preserves (files_rel path main) optimizer_step.
Proof.
  unfold optimizer_step. files_bind; [apply files_emit|].
  files_bind.
  { apply preserves_modify. intros w.
    destruct (fold_update_files apply_step (param_groups w) w).
    now apply files_rel_same. }
  files_bind; apply files_modify; reflexivity.
Qed.

Lemma files_loss_scaler path main l b :
  preserves (files_rel path main) (loss_scaler_call l b).
Proof.
  unfold loss_scaler_call. files_bind.
  - unfold backward. destruct (l_leaves l) as [|id ids].
    + apply preserves_raise, files_rel_refl.
    + files_bind; [apply files_emit|].
      apply preserves_modify. intros w.
      destruct (fold_update_files
                  (accumulate {| c_it := it w; c_div := l_div l |})
                  (id :: ids) w).
      now apply files_rel_same.
  - destruct b; [apply files_optimizer_step |].
    apply preserves_ret, files_rel_refl.
Qed.

Lemma files_save path main ck :
  preserves (files_rel path main) (save_on_master main ck path).
Proof.
  unfold save_on_master. destruct main.
  - apply preserves_modify. intros w. split; [| split].
    + intros p Hp. simpl. apply lookup_insert_ne. congruence.
    + exists []. simpl. now rewrite app_nil_r.
    + discriminate.
  - apply preserves_ret, files_rel_refl.
Qed.

Lemma files_log path main r :
  preserves (files_rel path main)
    (if main
     then emit EvLog >> modify (set_log_file (fun f => f ++ [r]))
     else ret tt).
Proof.
  destruct main.
  - files_bind; [apply files_emit|].
    apply preserves_modify. intros w. split; [| split].
    + auto.
    + exists [r]. reflexivity.
    + discriminate.
  - apply preserves_ret, files_rel_refl.
Qed.

Lemma files_tail path main (phase : M world unit) sf i :
  preserves (files_rel path main) phase ->
  preserves (files_rel path main)
    (if negb (i =? 0)
     then let! s := py_mod i sf in if s =? 0 then phase else ret tt
     else ret tt).
Proof.
  intros Hp. destruct (negb (i =? 0)).
  - files_bind; [apply preserves_py_mod, files_rel_refl|].
    destruct (_ =? 0); [exact Hp | apply preserves_ret, files_rel_refl].
  - apply preserves_ret, files_rel_refl.
Qed.

Lemma files_load path main p id with_opt :
  preserves (files_rel path main) (load_model p id with_opt).
Proof.
  unfold load_model. destruct (String.eqb p _).
  { apply preserves_ret, files_rel_refl. }
  files_bind; [apply preserves_gets, files_rel_refl|].
  destruct (_ !! p) as [ck|]; [| apply preserves_raise, files_rel_refl].
  files_bind.
  { apply files_modify; intros w; destruct id; reflexivity. }
  files_bind; [| apply preserves_ret, files_rel_refl].
  destruct with_opt; [| apply preserves_ret, files_rel_refl].
  files_bind; apply files_modify; reflexivity.
Qed.

Section FileFacts.
Context `{K : Kernels}.

Lemma files_model_call path main x :
  preserves (files_rel path main) (model_call x).
Proof.
  apply (preserves_weaken keeps); [| apply keeps_model_call].
  intros w w' (Hq & _). exact (files_rel_quiet _ _ _ _ _ Hq).
Qed.

Lemma files_encoder_call path main x :
  preserves (files_rel path main) (no_grad (encoder_call x)).
Proof.
  apply (preserves_weaken (qrel quiet));
    [apply files_rel_quiet |].
  apply qrel_no_grad.
  apply (preserves_weaken keeps); [| apply keeps_encoder_call].
  intros w w' (Hq & _). exact Hq.
Qed.

Lemma files_cached_evaluate path main bs :
  preserves (files_rel path main) (Cached.evaluate bs).
Proof.
  intros w r w' H. apply cached_evaluate_rel in H as (q & Hq & _).
  apply files_rel_same; [exact (qr_ck _ _ _ Hq) | exact (qr_log _ _ _ Hq)].
Qed.

Lemma files_noncached_evaluate path main bs :
  preserves (files_rel path main) (Noncached.evaluate bs).
Proof.
  intros w r w' H. apply noncached_evaluate_rel in H as (q & Hq & _).
  apply files_rel_same; [exact (qr_ck _ _ _ Hq) | exact (qr_log _ _ _ Hq)].
Qed.

Ltac files_phase ev :=
  files_bind; [apply files_emit|];
  files_bind; [apply ev|];
  files_bind; [apply preserves_dict_get, files_rel_refl|];
  files_bind; [apply preserves_gets, files_rel_refl|];
  files_bind;
  [ destruct (float_gt _ _); [| apply preserves_ret, files_rel_refl];
    files_bind; [apply files_emit|];
    files_bind; [apply preserves_gets, files_rel_refl|];
    files_bind; [apply files_emit|];
    files_bind; [apply files_save|];
    files_bind; [apply preserves_dict_get, files_rel_refl|];
    apply files_modify; reflexivity |];
  files_bind; [apply files_modify; reflexivity|];
  files_bind; [apply preserves_gets, files_rel_refl|];
  files_bind; [apply preserves_global_avgs, files_rel_refl|];
  files_bind; [apply preserves_dict_get, files_rel_refl|];
  files_bind; [apply files_log|];
  files_bind; [apply files_modify; reflexivity | apply files_model_train].

Lemma files_cached_phase a e i :
  preserves
    (files_rel (Cached.checkpoint_path a) (Cached.is_main_process e))
    (Cached.eval_phase a e i).
Proof. unfold Cached.eval_phase. files_phase files_cached_evaluate. Qed.

Lemma files_noncached_phase a e i :
  preserves
    (files_rel (Noncached.checkpoint_path a) (Noncached.is_main_process e))
    (Noncached.eval_phase a e i).
Proof.
  unfold Noncached.eval_phase. files_phase files_noncached_evaluate.
Qed.

Ltac files_core :=
  match goal with
  | |- context [isfinite ?v] => destruct (negb (isfinite v))
  end;
  [ files_bind; [apply files_emit | apply preserves_sys_exit, files_rel_refl]
  | files_bind; [apply preserves_py_mod, files_rel_refl|];
    files_bind; [apply files_loss_scaler|];
    files_bind; [apply preserves_py_mod, files_rel_refl|];
    files_bind;
    [ destruct (_ =? 0);
      [apply files_zero_grad | apply preserves_ret, files_rel_refl] |];
    files_bind; [apply files_emit|];
    files_bind; [apply files_modify; reflexivity|] ].

Lemma files_cached_turn a e i b :
  preserves
    (files_rel (Cached.checkpoint_path a) (Cached.is_main_process e))
    (Cached.train_step a e i b).
Proof.
  unfold Cached.train_step.
  files_bind; [apply files_modify; reflexivity|].
  files_bind; [apply files_model_call|].
  files_core. apply files_tail, files_cached_phase.
Qed.

Lemma files_noncached_turn a e i b :
  preserves
    (files_rel (Noncached.checkpoint_path a) (Noncached.is_main_process e))
    (Noncached.train_step a e i b).
Proof.
  unfold Noncached.train_step.
  files_bind; [apply files_modify; reflexivity|].
  files_bind; [apply files_encoder_call|].
  files_bind; [apply files_model_call|].
  files_core.
  files_bind; [apply files_tail, files_noncached_phase|].
  apply files_modify; reflexivity.
Qed.

Lemma files_cached_main a e bs :
  preserves
    (files_rel (Cached.checkpoint_path a) (Cached.is_main_process e))
    (Cached.main a e bs).
Proof.
  unfold Cached.main.
  do 4 (files_bind; [apply files_modify; reflexivity|]).
  files_bind; [apply files_load|].
  files_bind; [apply files_model_train|].
  files_bind; [apply files_modify; reflexivity|].
  files_bind; [apply files_zero_grad|].
  files_bind; [apply files_modify; reflexivity|].
  apply preserves_for_enumerate;
    [apply files_rel_refl | apply files_rel_trans |].
  intros i x. apply files_cached_turn.
Qed.

Lemma files_noncached_main a e bs :
  preserves
    (files_rel (Noncached.checkpoint_path a) (Noncached.is_main_process e))
    (Noncached.main a e bs).
Proof.
  unfold Noncached.main.
  do 5 (files_bind; [apply files_modify; reflexivity|]).
  files_bind; [apply files_load|].
  files_bind; [apply files_load|].
  files_bind; [apply files_model_train|].
  files_bind; [apply files_modify; reflexivity|].
  files_bind; [apply files_zero_grad|].
  files_bind; [apply files_modify; reflexivity|].
  files_bind; [apply files_modify; reflexivity|].
  apply preserves_for_enumerate;
    [apply files_rel_refl | apply files_rel_trans |].
  intros i x. apply files_noncached_turn.
Qed.

End FileFacts.

(** X12. From any state, whatever the checkpoint files and the log hold
    when the run starts, however the run ends (normally, with [sys.exit]
    or with an exception), and on any finite prefix of the training
    stream: the only checkpoint file it can have changed is the one at
    its own path,
    [os.path.join(output_dir, save_prefix + "_checkpoint.pth")]; the log
    at the end is the log at the start followed by what the run wrote,
    so that nothing that was in it is lost or changed; and on a process
    other than the main one the checkpoint files and the log are as they
    were.  Both drivers. *)
Theorem run_touches_only_its_files `{K : Kernels}
    (a : Cached.args) (e : Cached.env) (bs : list batch) (w0 : world)
    (a' : Noncached.args) (e' : Noncached.env) (bs' : list batch)
    (w0' : world) :
  files_rel (Cached.checkpoint_path a) (Cached.is_main_process e)
    w0 (snd (Cached.main a e bs w0)) /\
  files_rel (Noncached.checkpoint_path a') (Noncached.is_main_process e')
    w0' (snd (Noncached.main a' e' bs' w0')).
Proof.
  split.
  - destruct (Cached.main a e bs w0) as [r w] eqn:E.
    now apply files_cached_main in E.
  - destruct (Noncached.main a' e' bs' w0') as [r w] eqn:E.
    now apply files_noncached_main in E.
Qed.

(** ** The length of the validation epoch *)

(** X13. For a batch size of at least 1, the number of batches that the
    end-to-end driver asks of its validation loader,
    [50000 // batch_size_per_gpu + 1], is the least number of batches of
    that size that hold more than 50000 samples: one batch more than the
    50000 validation samples fill when the batch size divides 50000. *)
Theorem val_epoch_exceeds_50000 {S} (b : Z) (s : S) :
  1 <= b ->
  exists n,
    val_epoch_batches b s = (Val n, s) /\
    50000 < n * b /\ (n - 1) * b <= 50000 /\
    (50000 `mod` b = 0 -> (n - 1) * b = 50000).
Proof.
  intros Hb. unfold val_epoch_batches, py_floordiv.
  destruct (b =? 0) eqn:E; [apply Z.eqb_eq in E; lia|].
  exists (50000 / b + 1). split; [reflexivity|].
  pose proof (Z.div_mod 50000 b ltac:(lia)) as D.
  pose proof (Z.mod_pos_bound 50000 b ltac:(lia)) as B.
  repeat split; nia.
Qed.

Lemma val_epoch_exceeds_50000_witness :
  exists n,
    val_epoch_batches 256 tt = (Val n, tt) /\
    50000 < n * 256 /\ (n - 1) * 256 <= 50000 /\
    (50000 `mod` 256 = 0 -> (n - 1) * 256 = 50000).
Proof.
  apply (val_epoch_exceeds_50000 256 tt). lia.
Defined.

(** ** What the result of [evaluate] depends on *)

Lemma summary_result ml (s s' : world) :
  fst ((print_summary ml >> @global_avgs world ml) s) =
  fst ((print_summary ml >> @global_avgs world ml) s').
Proof.
  unfold print_summary, logger_attr, read_global_avg, global_avgs.
  unfold bind, ret, raise, emit, modify.
  destruct (ml !! "acc1") as [m1|]; [| reflexivity].
  destruct (ml !! "acc5") as [m5|]; [| reflexivity].
  destruct (ml !! "loss") as [m0|]; [| reflexivity].
  destruct (global_avg m1); [| reflexivity].
  destruct (global_avg m5); [| reflexivity].
  destruct (global_avg m0); [| reflexivity].
  simpl. destruct (decide _); reflexivity.
Qed.

Lemma evaluate_result (loop : M world (gmap string meter)) ml w w1 :
  loop (set_model (set_training false)
          (set_grad_enabled false
             (set_trace (fun t => t ++ [(it w, EvEvaluate)]) w))) =
    (Val ml, w1) ->
  fst ((emit EvEvaluate >>
        no_grad (model_eval >>
                 let! ml := loop in
                 let ml := synchronize_between_processes ml in
                 print_summary ml >> global_avgs ml)) w) =
  fst ((print_summary ml >> @global_avgs world ml) w1).
Proof.
  intros E. unfold bind at 1. unfold emit, modify. unfold no_grad.
  rewrite (bind_eq model_eval _ _ tt _ eq_refl).
  rewrite (bind_eq _ _ _ _ _ E).
  unfold synchronize_between_processes.
  destruct ((print_summary ml >> global_avgs ml) w1). reflexivity.
Qed.

Section EvaluateReads.
Context `{K : Kernels}.

Lemma cached_observations_ext bs :
  forall m m',
    training m = training m' -> weights m = weights m' ->
    buffers m = buffers m' ->
    cached_observations m bs = cached_observations m' bs.
Proof.
  induction bs as [|b bs IH]; intros m m' Ht Hw Hb; simpl; [reflexivity|].
  rewrite Ht, Hw, Hb. f_equal. apply IH; simpl; congruence.
Qed.

Lemma noncached_observations_ext bs :
  forall e e' m m',
    training e = training e' -> weights e = weights e' ->
    buffers e = buffers e' ->
    training m = training m' -> weights m = weights m' ->
    buffers m = buffers m' ->
    noncached_observations e m bs = noncached_observations e' m' bs.
Proof.
  induction bs as [|b bs IH]; intros e e' m m' Et Ew Eb Ht Hw Hb; simpl;
    [reflexivity|].
  rewrite Et, Ew, Eb, Ht, Hw, Hb. f_equal. apply IH; simpl; congruence.
Qed.

Lemma cached_evaluate_reads bs w u :
  weights (model w) = weights (model u) ->
  buffers (model w) = buffers (model u) ->
  fst (Cached.evaluate bs w) = fst (Cached.evaluate bs u).
Proof.
  intros Hw Hb. unfold Cached.evaluate.
  destruct (cached_evaluate_loop_obs bs ∅
              (set_model (set_training false)
                 (set_grad_enabled false
                    (set_trace (fun t => t ++ [(it w, EvEvaluate)]) w))))
    as [w1 E1].
  destruct (cached_evaluate_loop_obs bs ∅
              (set_model (set_training false)
                 (set_grad_enabled false
                    (set_trace (fun t => t ++ [(it u, EvEvaluate)]) u))))
    as [u1 E2].
  etransitivity; [exact (evaluate_result _ _ _ _ E1) |].
  etransitivity; [| symmetry; exact (evaluate_result _ _ _ _ E2)].
  simpl.
  rewrite (cached_observations_ext bs
             (set_training false (model w)) (set_training false (model u)))
    by (simpl; congruence).
  apply summary_result.
Qed.

Lemma noncached_evaluate_reads bs w u e e' :
  encoder w = Some e -> encoder u = Some e' ->
  training e = training e' -> weights e = weights e' ->
  buffers e = buffers e' ->
  weights (model w) = weights (model u) ->
  buffers (model w) = buffers (model u) ->
  fst (Noncached.evaluate bs w) = fst (Noncached.evaluate bs u).
Proof.
  intros He He' Et Ew Eb Hw Hb. unfold Noncached.evaluate.
  destruct (noncached_evaluate_loop_obs bs ∅
              (set_model (set_training false)
                 (set_grad_enabled false
                    (set_trace (fun t => t ++ [(it w, EvEvaluate)]) w)))
              e He)
    as [w1 E1].
  destruct (noncached_evaluate_loop_obs bs ∅
              (set_model (set_training false)
                 (set_grad_enabled false
                    (set_trace (fun t => t ++ [(it u, EvEvaluate)]) u)))
              e' He')
    as [u1 E2].
  etransitivity; [exact (evaluate_result _ _ _ _ E1) |].
  etransitivity; [| symmetry; exact (evaluate_result _ _ _ _ E2)].
  simpl.
  rewrite (noncached_observations_ext bs e e'
             (set_training false (model w)) (set_training false (model u)))
    by (simpl; congruence).
  apply summary_result.
Qed.

End EvaluateReads.

(** X14. What [evaluate] returns, or the error it ends with, depends only
    on the validation stream and on the parameters and buffers of the
    model (and, in the two-stage driver, the mode, parameters and buffers
    of the encoder): not on the mode the model is in when it is called,
    nor on gradients, the optimizer, the training logger, the best score,
    the loop index or the files.  Both drivers. *)
Theorem evaluate_reads_only_the_model `{K : Kernels}
    (bs : list batch) (w u : world)
    (bs' : list batch) (w' u' : world) (e e' : nn_module) :
  weights (model w) = weights (model u) ->
  buffers (model w) = buffers (model u) ->
  encoder w' = Some e -> encoder u' = Some e' ->
  training e = training e' -> weights e = weights e' ->
  buffers e = buffers e' ->
  weights (model w') = weights (model u') ->
  buffers (model w') = buffers (model u') ->
  fst (Cached.evaluate bs w) = fst (Cached.evaluate bs u) /\
  fst (Noncached.evaluate bs' w') = fst (Noncached.evaluate bs' u').
Proof.
  intros Hw Hb He He' Et Ew Eb Hw' Hb'. split.
  - now apply cached_evaluate_reads.
  - now apply (noncached_evaluate_reads bs' w' u' e e').
Qed.

Lemma evaluate_reads_only_the_model_witness :
  fst (Cached.evaluate (K := Demo.kernels)
         [Demo.val_small; Demo.val_large] Demo.loop_state) =
  fst (Cached.evaluate (K := Demo.kernels)
         [Demo.val_small; Demo.val_large]
         (set_best_eval_acc1 (Fin 1)
            (set_model (set_training false) Demo.loop_state))) /\
  fst (Noncached.evaluate (K := Demo.kernels)
         [Demo.val_small; Demo.val_large] Demo.loop_state) =
  fst (Noncached.evaluate (K := Demo.kernels)
         [Demo.val_small; Demo.val_large]
         (set_best_eval_acc1 (Fin 1)
            (set_model (set_training false) Demo.loop_state))).
Proof.
  apply (evaluate_reads_only_the_model (K := Demo.kernels)
           [Demo.val_small; Demo.val_large] Demo.loop_state
           (set_best_eval_acc1 (Fin 1)
              (set_model (set_training false) Demo.loop_state))
           [Demo.val_small; Demo.val_large] Demo.loop_state
           (set_best_eval_acc1 (Fin 1)
              (set_model (set_training false) Demo.loop_state))
           Edge.encoder0 Edge.encoder0);
    reflexivity.
Defined.
